(** * Scored retrieval in the rule store and the memory store

    A shallow embedding of [src/servers/rules/index.ts] (class
    [RulesMCPServer]) and of the memory server (class [MemoryMCPServer]):
    the similarity score, the filter / score / rank / limit pipeline of
    [searchRules] and [searchMemories], the id allocator [generateId],
    the mutating handlers [createRule], [updateRule] and [deleteRule],
    the lookup, category, export and import handlers of the rule store,
    and [storeExperience] and the figures of [getMemoryStats] of the
    memory store.

    Modelling conventions.
    - A JavaScript string is a [string], one character for each code unit;
      the strings are taken to be ASCII text: [toLowerCase] folds the
      letters A to Z and leaves every other character alone.
    - A score is a [nat]: the source only ever adds non-negative integer
      multiples of its weights.
    - A handler that can throw returns a [completion]; the handlers of the
      rule store thread the server object through a small state monad.
    - A property that a handler copies from its request unchecked is an
      [option]: [None] is [undefined], and calling a method on it throws
      a [TypeError].
    - [new RegExp(p, "g")] is modelled on a fragment of the pattern syntax
      (literals, [.], [|], groups, [*], [+], [?] and escaped punctuation).
      What the engine does with a pattern outside the fragment is a
      parameter, [RegExp.engine]: every property below holds whatever the
      engine does there. *)

From Stdlib Require Import String Ascii ZArith Lia DecimalString DecimalNat.
From stdpp Require Import base list strings sorting.

Open Scope string_scope.

(** ** JavaScript strings *)

Module JsString.

(** [c.toLowerCase()] on one ASCII character. *)
Definition lower_ascii (c : ascii) : ascii :=
  let n := nat_of_ascii c in
  if (65 <=? n)%nat && (n <=? 90)%nat then ascii_of_nat (n + 32) else c.

(** [s.toLowerCase()]. *)
Fixpoint toLowerCase (s : string) : string :=
  match s with
  | EmptyString => EmptyString
  | String c s' => String (lower_ascii c) (toLowerCase s')
  end.

(** [s.includes(sub)]: [sub] occurs in [s] at some position. *)
Fixpoint includes (s sub : string) : bool :=
  String.prefix sub s ||
  match s with
  | EmptyString => false
  | String _ s' => includes s' sub
  end.

(** [s] without its first [n] characters. *)
Fixpoint drop_chars (n : nat) (s : string) : string :=
  match n, s with
  | O, _ => s
  | S _, EmptyString => EmptyString
  | S n', String _ s' => drop_chars n' s'
  end.

(** The first [n] characters of the endless repetition of [fill],
    continuing from [cur]; the filler that [padStart] prepends. *)
Fixpoint fill_chars (fill cur : string) (n : nat) : string :=
  match n with
  | O => EmptyString
  | S n' =>
      match cur with
      | String c cur' => String c (fill_chars fill cur' n')
      | EmptyString =>
          match fill with
          | String c fill' => String c (fill_chars fill fill' n')
          | EmptyString => EmptyString
          end
      end
  end.

(** [s.padStart(targetLength, padString)]. *)
Definition padStart (s : string) (targetLength : nat) (padString : string) : string :=
  fill_chars padString padString (targetLength - String.length s) +:+ s.

(** [n.toString()] for a non-negative integer. *)
Definition toString (n : nat) : string :=
  NilZero.string_of_uint (Nat.to_uint n).

(** [xs.join(sep)]. *)
Fixpoint join (sep : string) (xs : list string) : string :=
  match xs with
  | [] => EmptyString
  | [x] => x
  | x :: xs' => x +:+ sep +:+ join sep xs'
  end.

End JsString.

Import JsString.

(** ** Completions *)

Inductive JsError :=
| TypeError
| SyntaxError
| Error (message : string).

(** What evaluating an expression yields: a value or a thrown error. *)
Inductive completion (A : Type) :=
| Return (a : A)
| Throw (e : JsError).

Arguments Return {A} a.
Arguments Throw {A} e.

Definition cbind {A B} (c : completion A) (k : A -> completion B) : completion B :=
  match c with
  | Return a => k a
  | Throw e => Throw e
  end.

(** [xs.map(f)] where [f] can throw: the first throw aborts the loop. *)
Fixpoint map_completion {A B} (f : A -> completion B) (xs : list A) : completion (list B) :=
  match xs with
  | [] => Return []
  | x :: xs' =>
      cbind (f x) (fun y => cbind (map_completion f xs') (fun ys => Return (y :: ys)))
  end.

(** [xs.filter(p)] where [p] can throw: the first throw aborts the loop. *)
Fixpoint filter_completion {A} (p : A -> completion bool) (xs : list A)
    : completion (list A) :=
  match xs with
  | [] => Return []
  | x :: xs' =>
      cbind (p x) (fun keep =>
        cbind (filter_completion p xs') (fun ys => Return (if keep then x :: ys else ys)))
  end.

(** Whether a test that can throw returned [true]. *)
Definition returned_true (c : completion bool) : bool :=
  match c with
  | Return keep => keep
  | Throw _ => false
  end.

(** ** Regular expressions: [new RegExp(pattern, "g")] and [String.prototype.match] *)

Module RegExp.

Inductive regex :=
| Eps
| Chr (c : ascii)
| Any
| Cat (r1 r2 : regex)
| Alt (r1 r2 : regex)
| Star (r : regex)
| Plus (r : regex)
| Opt (r : regex).

(** *** Parsing a pattern *)

(** The last term of the alternative being read: none yet, an atom that
    may still take a quantifier, or a term that already took one. *)
Inductive last_term :=
| NoTerm
| AtomTerm (r : regex)
| QuantifiedTerm.

(** A group under construction: the alternatives already closed by [|]
    and the terms of the current alternative, both most recent first. *)
Record frame := mkFrame {
  f_alts : list regex;
  f_seq : list regex;
  f_last : last_term
}.

Definition empty_frame : frame := mkFrame [] [] NoTerm.

Definition flush (f : frame) : list regex :=
  match f_last f with
  | AtomTerm a => a :: f_seq f
  | _ => f_seq f
  end.

Definition push_atom (f : frame) (a : regex) : frame :=
  mkFrame (f_alts f) (flush f) (AtomTerm a).

Fixpoint cat_all (terms : list regex) : regex :=
  match terms with
  | [] => Eps
  | [t] => t
  | t :: ts => Cat t (cat_all ts)
  end.

Fixpoint alt_all (alts : list regex) : regex :=
  match alts with
  | [] => Eps
  | [a] => a
  | a :: more => Alt a (alt_all more)
  end.

Definition close_alternative (f : frame) : regex := cat_all (rev (flush f)).

Definition next_alternative (f : frame) : frame :=
  mkFrame (close_alternative f :: f_alts f) [] NoTerm.

Definition close_frame (f : frame) : regex :=
  alt_all (rev (close_alternative f :: f_alts f)).

(** The characters with a meaning of their own in a pattern. *)
Definition syntax_character (c : ascii) : bool :=
  bool_decide (c ∈ ["^"; "$"; "\"; "."; "*"; "+"; "?"; "("; ")"; "["; "]"; "{"; "}"; "|"]%char).

Definition alphanumeric (c : ascii) : bool :=
  let n := nat_of_ascii c in
  ((48 <=? n) && (n <=? 57) || (65 <=? n) && (n <=? 90) || (97 <=? n) && (n <=? 122))%nat.

Definition quantify (q : ascii) (a : regex) : regex :=
  if bool_decide (q = "*"%char) then Star a
  else if bool_decide (q = "+"%char) then Plus a
  else Opt a.

(** What reading a pattern yields: its syntax tree, a syntax error, or
    the finding that it uses syntax that is not modelled. *)
Inductive parsed :=
| Pattern (r : regex)
| Invalid
| Unmodelled.

(** One pass over the pattern with a stack of open groups. *)
Fixpoint parse (p : string) (cur : frame) (stack : list frame) : parsed :=
  match p with
  | EmptyString =>
      match stack with
      | [] => Pattern (close_frame cur)
      | _ :: _ => Invalid                             (* unterminated group *)
      end
  | String c rest =>
      if bool_decide (c = "("%char) then
        match rest with
        | String "?" _ => Unmodelled                      (* group specifier *)
        | _ => parse rest empty_frame (cur :: stack)
        end
      else if bool_decide (c = ")"%char) then
        match stack with
        | [] => Invalid                               (* unmatched ')' *)
        | parent :: stack' => parse rest (push_atom parent (close_frame cur)) stack'
        end
      else if bool_decide (c = "|"%char) then
        parse rest (next_alternative cur) stack
      else if bool_decide (c ∈ ["*"; "+"; "?"]%char) then
        match f_last cur with
        | AtomTerm a =>
            parse rest (mkFrame (f_alts cur) (quantify c a :: f_seq cur) QuantifiedTerm) stack
        | QuantifiedTerm =>
            if bool_decide (c = "?"%char) then Unmodelled    (* lazy quantifier *)
            else Invalid                              (* nothing to repeat *)
        | NoTerm => Invalid                           (* nothing to repeat *)
        end
      else if bool_decide (c = "\"%char) then
        match rest with
        | EmptyString => Invalid                      (* \ at end of pattern *)
        | String e rest' =>
            if alphanumeric e then Unmodelled             (* class, control, back reference *)
            else parse rest' (push_atom cur (Chr e)) stack
        end
      else if bool_decide (c = "."%char) then
        parse rest (push_atom cur Any) stack
      else if syntax_character c then Unmodelled          (* ^ $ [ ] { } *)
      else parse rest (push_atom cur (Chr c)) stack
  end.

(** *** Matching *)

(** [.] matches any character but a line terminator. *)
Definition line_terminator (c : ascii) : bool :=
  bool_decide (c = ascii_of_nat 10) || bool_decide (c = ascii_of_nat 13).

Definition matcher := string -> (string -> option string) -> option string.

(** The repetition of a matcher, greedy; an iteration that consumes
    nothing is rejected, so [fuel] = the length of the input is enough. *)
Fixpoint RepeatMatcher (m : matcher) (fuel : nat) (s : string)
    (k : string -> option string) : option string :=
  match fuel with
  | O => k s
  | S fuel' =>
      match m s (fun s1 =>
              if (String.length s1 <? String.length s)%nat
              then RepeatMatcher m fuel' s1 k else None) with
      | Some e => Some e
      | None => k s
      end
  end.

(** The backtracking matcher in continuation-passing style: [s] is the
    input left, [k] the rest of the pattern, the result the input left
    after the whole match. Alternatives are tried left to right. *)
Fixpoint match_regex (r : regex) (s : string) (k : string -> option string) : option string :=
  match r with
  | Eps => k s
  | Chr c =>
      match s with
      | String c' s' => if bool_decide (c = c') then k s' else None
      | EmptyString => None
      end
  | Any =>
      match s with
      | String c' s' => if line_terminator c' then None else k s'
      | EmptyString => None
      end
  | Cat r1 r2 => match_regex r1 s (fun s1 => match_regex r2 s1 k)
  | Alt r1 r2 =>
      match match_regex r1 s k with
      | Some e => Some e
      | None => match_regex r2 s k
      end
  | Star r1 => RepeatMatcher (match_regex r1) (String.length s) s k
  | Plus r1 =>
      match_regex r1 s (fun s1 => RepeatMatcher (match_regex r1) (String.length s1) s1 k)
  | Opt r1 =>
      match match_regex r1 s (fun s1 =>
              if (String.length s1 <? String.length s)%nat then k s1 else None) with
      | Some e => Some e
      | None => k s
      end
  end.

(** A match that starts exactly at the head of [s]. *)
Definition match_here (r : regex) (s : string) : option string :=
  match_regex r s Some.

(** [RegExpBuiltinExec]: the first position from [lastIndex] on where
    the pattern matches; returns the input from the start of the match
    and the input after it. *)
Fixpoint RegExpBuiltinExec (r : regex) (s : string) : option (string * string) :=
  match match_here r s with
  | Some e => Some (s, e)
  | None =>
      match s with
      | EmptyString => None
      | String _ s' => RegExpBuiltinExec r s'
      end
  end.

(** The loop of [RegExp.prototype[Symbol.match]] for a global pattern:
    after a match, [lastIndex] is its end, and one further when the
    match was empty. *)
Fixpoint match_loop (fuel : nat) (r : regex) (s : string) : nat :=
  match fuel with
  | O => O
  | S fuel' =>
      match RegExpBuiltinExec r s with
      | None => O
      | Some (b, e) =>
          S (if (String.length e <? String.length b)%nat then match_loop fuel' r e
             else match e with
                  | EmptyString => O
                  | String _ e' => match_loop fuel' r e'
                  end)
      end
  end.

(** The engine on the patterns outside the modelled syntax: it rejects
    the pattern, or accepts it and then finds some number of matches in a
    subject. *)
Definition engine := string -> option (string -> nat).

(** A [RegExp] object with the flag [g]. *)
Inductive RegExpObject :=
| Modelled (r : regex)
| Opaque (matches : string -> nat).

(** [new RegExp(pattern, "g")]. *)
Definition compile (foreign : engine) (pattern : string) : completion RegExpObject :=
  match parse pattern empty_frame [] with
  | Pattern r => Return (Modelled r)
  | Invalid => Throw SyntaxError
  | Unmodelled =>
      match foreign pattern with
      | Some matches => Return (Opaque matches)
      | None => Throw SyntaxError
      end
  end.

(** [(s.match(re) || []).length] for a global [re]. *)
Definition match_count (re : RegExpObject) (s : string) : nat :=
  match re with
  | Modelled r => match_loop (S (String.length s)) r s
  | Opaque matches => matches s
  end.

End RegExp.

(** ** JavaScript arrays *)

Module JsArray.

(** Where [x] goes in a list already in order: before the first element
    it does not have to follow. *)
Fixpoint insert_sorted {A} (compareFn : A -> A -> Z) (x : A) (l : list A) : list A :=
  match l with
  | [] => [x]
  | y :: l' =>
      if (compareFn x y <=? 0)%Z then x :: y :: l'
      else y :: insert_sorted compareFn x l'
  end.

(** [xs.sort(compareFn)]. The language requires the sort to be stable.
    For a comparator that orders by a numeric key the result of a stable
    sort is unique ([sort_is_the_stable_sort] below), whatever algorithm
    the engine runs; inserting the elements from the right computes it. *)
Definition sort {A} (compareFn : A -> A -> Z) (xs : list A) : list A :=
  foldr (insert_sorted compareFn) [] xs.

(** [xs.slice(0, end)]: a negative [end] counts from the end of [xs]. A
    fractional [end] is truncated toward zero first, so the integers are
    all the ends there are. *)
Definition slice0 {A} (xs : list A) (end_ : Z) : list A :=
  if (end_ <? 0)%Z
  then take (Z.to_nat (Z.max (Z.of_nat (length xs) + end_) 0)) xs
  else take (Z.to_nat (Z.min end_ (Z.of_nat (length xs)))) xs.

(** [xs.some(p)]. *)
Definition some {A} (p : A -> bool) (xs : list A) : bool := existsb p xs.

End JsArray.

#[global] Instance completion_ret : MRet completion := fun A a => Return a.
#[global] Instance completion_bind : MBind completion := fun A B k c => cbind c k.

(** [v.m()] on a property that may be undefined. *)
Definition defined {A} (v : option A) : completion A :=
  match v with
  | Some a => Return a
  | None => Throw TypeError
  end.

(** [v || d] for a string: the empty string is falsy too. *)
Definition or_string (v : option string) (d : string) : string :=
  match v with
  | Some s => if bool_decide (s = EmptyString) then d else s
  | None => d
  end.

(** [v || d] for an array: every array is truthy. *)
Definition or_array {A} (v : option (list A)) (d : list A) : list A :=
  match v with
  | Some l => l
  | None => d
  end.

(** [if (v)] on an optional string: undefined and the empty string fail. *)
Definition truthy (v : option string) : option string :=
  match v with
  | Some s => if bool_decide (s = EmptyString) then None else Some s
  | None => None
  end.

(** ** The rule store: [RulesMCPServer] *)

Module Rules.

(** [interface Rule]. [title] and [content] are declared [string], but
    [createRule] copies [args.title] and [args.content] unchecked, so a
    stored rule can carry [undefined] there. *)
Record Rule := mkRule {
  id : string;
  title : option string;
  category : string;
  description : string;
  content : option string;
  tags : list string;
  examples : list string;
  relatedRules : list string;
  timestamp : string;
  version : string
}.

(** [interface RuleCategory]. *)
Record RuleCategory := mkCategory {
  name : string;
  cat_description : string;
  rules : list string
}.

#[global] Instance Rule_eq_dec : EqDecision Rule.
Proof. solve_decision. Defined.

#[global] Instance RuleCategory_eq_dec : EqDecision RuleCategory.
Proof. solve_decision. Defined.

(** The server object: the two private arrays, and the backing directory
    ([rules.json], [categories.json], and whether it accepts a write). *)
Record Server := mkServer {
  this_rules : list Rule;
  this_categories : list RuleCategory;
  rulesFile : option (list Rule);
  categoriesFile : option (list RuleCategory);
  writable : bool
}.

(** A handler: it reads and writes the server object and may throw. *)
Definition handler (A : Type) := Server -> completion A * Server.

(** [saveRules]: both arrays are written out in full; a failing write is
    rethrown as an [Error]. *)
Definition saveRules : handler unit := fun this =>
  if writable this then
    (Return tt,
     mkServer (this_rules this) (this_categories this)
              (Some (this_rules this)) (Some (this_categories this)) true)
  else (Throw (Error "Failed to save rules"), this).

(** [generateId]. *)
Definition generateId (this : Server) (category_ : string) : string :=
  let prefix := toLowerCase (substring 0 3 category_) in
  let count := length (filter (fun r => category r = category_) (this_rules this)) + 1 in
  prefix +:+ "-" +:+ padStart (toString count) 3 "0".

(** [calculateSimilarity]; [foreign] is the engine behind [new RegExp]. *)
Definition calculateSimilarity (foreign : RegExp.engine) (query : string) (rule : Rule)
    : completion nat :=
  let queryLower := toLowerCase query in
  title_ ← defined (title rule);
  let score := if includes (toLowerCase title_) queryLower then 50 else 0 in
  content_ ← defined (content rule);
  re ← RegExp.compile foreign queryLower;
  let contentMatches := RegExp.match_count re (toLowerCase content_) in
  let score := score + contentMatches * 15 in
  let tagMatches :=
    length (filter (fun tag => includes (toLowerCase tag) queryLower
                               || includes queryLower (toLowerCase tag)) (tags rule)) in
  let score := score + tagMatches * 40 in
  let score := if includes (toLowerCase (category rule)) queryLower
               then score + 30 else score in
  let score := if includes (toLowerCase (description rule)) queryLower
               then score + 25 else score in
  let exampleMatches :=
    length (filter (fun example => includes (toLowerCase example) queryLower)
                   (examples rule)) in
  let score := score + exampleMatches * 10 in
  Return score.

(** The arguments of [create_rule]; the schema lists [title], [category]
    and [content] as required, and nothing checks it. *)
Record CreateArgs := mkCreateArgs {
  arg_title : option string;
  arg_category : option string;
  arg_description : option string;
  arg_content : option string;
  arg_tags : option (list string);
  arg_examples : option (list string)
}.

(** [category.rules.push(ruleId)] on the category that [find] returns,
    or on a fresh one pushed at the end. *)
Definition add_member (cats : list RuleCategory) (category_ ruleId : string)
    : list RuleCategory :=
  match list_find (fun c => name c = category_) cats with
  | Some (i, c) => <[i := mkCategory (name c) (cat_description c) (rules c ++ [ruleId])]> cats
  | None => cats ++ [mkCategory category_ ("Rules for " +:+ category_) [ruleId]]
  end.

(** [createRule]; [now] is [new Date().toISOString()]. *)
Definition createRule (now : string) (args : CreateArgs) : handler Rule := fun this =>
  match arg_category args with
  | None => (Throw TypeError, this)          (* undefined.substring in generateId *)
  | Some category_ =>
      let rule := mkRule (generateId this category_) (arg_title args) category_
                    (or_string (arg_description args) EmptyString) (arg_content args)
                    (or_array (arg_tags args) []) (or_array (arg_examples args) [])
                    [] now "1.0.0" in
      let this1 := mkServer (this_rules this ++ [rule])
                     (add_member (this_categories this) category_ (id rule))
                     (rulesFile this) (categoriesFile this) (writable this) in
      match saveRules this1 with
      | (Return _, this2) => (Return rule, this2)
      | (Throw e, this2) => (Throw e, this2)
      end
  end.

(** The arguments of [update_rule] other than [id]: whatever property of
    a rule the caller sent is spread over the record. *)
Record Updates := mkUpdates {
  upd_title : option string;
  upd_category : option string;
  upd_description : option string;
  upd_content : option string;
  upd_tags : option (list string);
  upd_examples : option (list string);
  upd_relatedRules : option (list string);
  upd_timestamp : option string;
  upd_version : option string
}.

Definition spread {A} (old : A) (new : option A) : A :=
  match new with
  | Some v => v
  | None => old
  end.

(** [{ ...rule, ...updates, timestamp: now }]. *)
Definition merge (rule : Rule) (updates : Updates) (now : string) : Rule :=
  mkRule (id rule)
    (match upd_title updates with Some t => Some t | None => title rule end)
    (spread (category rule) (upd_category updates))
    (spread (description rule) (upd_description updates))
    (match upd_content updates with Some c => Some c | None => content rule end)
    (spread (tags rule) (upd_tags updates))
    (spread (examples rule) (upd_examples updates))
    (spread (relatedRules rule) (upd_relatedRules updates))
    now
    (spread (version rule) (upd_version updates)).

(** [updateRule]. *)
Definition updateRule (now : string) (id_ : string) (updates : Updates) : handler unit :=
  fun this =>
  match list_find (fun r => id r = id_) (this_rules this) with
  | None => (Throw (Error ("Rule not found: " +:+ id_)), this)
  | Some (ruleIndex, rule) =>
      saveRules (mkServer (<[ruleIndex := merge rule updates now]> (this_rules this))
                   (this_categories this)
                   (rulesFile this) (categoriesFile this) (writable this))
  end.

(** [category.rules = category.rules.filter(ruleId => ruleId !== id)]. *)
Definition remove_member (cats : list RuleCategory) (category_ ruleId : string)
    : list RuleCategory :=
  match list_find (fun c => name c = category_) cats with
  | Some (i, c) =>
      <[i := mkCategory (name c) (cat_description c)
               (filter (fun other => other <> ruleId) (rules c))]> cats
  | None => cats
  end.

(** [deleteRule]. *)
Definition deleteRule (id_ : string) : handler unit := fun this =>
  match list_find (fun r => id r = id_) (this_rules this) with
  | None => (Throw (Error ("Rule not found: " +:+ id_)), this)
  | Some (ruleIndex, rule) =>
      saveRules (mkServer (delete ruleIndex (this_rules this))
                   (remove_member (this_categories this) (category rule) id_)
                   (rulesFile this) (categoriesFile this) (writable this))
  end.

(** The arguments of [search_rules]. *)
Record SearchArgs := mkSearchArgs {
  query : string;
  arg_filter_category : option string;
  arg_filter_tags : option (list string);
  limit : option Z
}.

Record SearchResult := mkResult {
  rule : Rule;
  similarity : nat
}.

(** The two filters at the head of [searchRules]. *)
Definition filter_category (category_ : option string) (rs : list Rule) : list Rule :=
  match truthy category_ with
  | Some c => filter (fun r => includes (toLowerCase (category r)) (toLowerCase c)) rs
  | None => rs
  end.

Definition filter_tags (tags_ : option (list string)) (rs : list Rule) : list Rule :=
  match tags_ with
  | Some (t :: ts) =>
      filter (fun r =>
        JsArray.some (fun tag =>
          JsArray.some (fun ruleTag => includes (toLowerCase ruleTag) (toLowerCase tag))
                       (tags r)) (t :: ts)) rs
  | _ => rs
  end.

Definition filteredRules (this : Server) (args : SearchArgs) : list Rule :=
  filter_tags (arg_filter_tags args)
    (filter_category (arg_filter_category args) (this_rules this)).

(** [(a, b) => b.similarity - a.similarity]. *)
Definition by_similarity (a b : SearchResult) : Z :=
  (Z.of_nat (similarity b) - Z.of_nat (similarity a))%Z.

(** [searchRules], up to the formatting of [results]. *)
Definition searchRules (foreign : RegExp.engine) (this : Server) (args : SearchArgs)
    : completion (list SearchResult) :=
  let limit_ := default 5%Z (limit args) in
  scored ← map_completion
             (fun r => s ← calculateSimilarity foreign (query args) r;
                       Return (mkResult r s))
             (filteredRules this args);
  Return (JsArray.slice0
            (JsArray.sort by_similarity
               (filter (fun result => 0 < similarity result) scored))
            limit_).

End Rules.

(** ** The memory store: [MemoryMCPServer] *)

Module Memory.

(** [interface MemoryEntry]. [project], [category], [title] and [content]
    are declared [string], but [storeExperience] copies [args.project],
    [args.category], [args.title] and [args.content] unchecked, so a stored
    memory can carry [undefined] there; [tags] and [context] are defaulted.
    [context] is an object of optional string properties, kept as its
    properties in their own order. *)
Record MemoryEntry := mkMemory {
  id : string;
  project : option string;
  category : option string;
  title : option string;
  content : option string;
  tags : list string;
  timestamp : string;
  context : list (string * string)
}.

#[global] Instance MemoryEntry_eq_dec : EqDecision MemoryEntry.
Proof. solve_decision. Defined.

(** [Object.values(memory.context).join(" ").toLowerCase()]. *)
Definition contextText (memory : MemoryEntry) : string :=
  toLowerCase (join " " (map snd (context memory))).

(** [calculateSimilarity]; [foreign] is the engine behind [new RegExp].
    The statements run in the order of the source: [memory.title] and
    [memory.content] are read before the pattern is compiled,
    [memory.category] after it. *)
Definition calculateSimilarity (foreign : RegExp.engine) (query : string)
    (memory : MemoryEntry) : completion nat :=
  let queryLower := toLowerCase query in
  title_ ← defined (title memory);
  let score := if includes (toLowerCase title_) queryLower then 50 else 0 in
  content_ ← defined (content memory);
  re ← RegExp.compile foreign queryLower;
  let contentMatches := RegExp.match_count re (toLowerCase content_) in
  let score := score + contentMatches * 20 in
  let tagMatches :=
    length (filter (fun tag => includes (toLowerCase tag) queryLower
                               || includes queryLower (toLowerCase tag)) (tags memory)) in
  let score := score + tagMatches * 30 in
  let score := if includes (contextText memory) queryLower then score + 25 else score in
  category_ ← defined (category memory);
  let score := if includes (toLowerCase category_) queryLower
               then score + 25 else score in
  Return score.

(** The arguments of [search_memories]. *)
Record SearchArgs := mkSearchArgs {
  query : string;
  arg_filter_project : option string;
  arg_filter_category : option string;
  arg_filter_tags : option (list string);
  limit : option Z
}.

(** [interface SearchResult]. *)
Record SearchResult := mkResult {
  entry : MemoryEntry;
  similarity : nat;
  relevantTags : list string
}.

(** The three filters at the head of [searchMemories]. The first two call
    [toLowerCase] on a property of the memory, which throws on a memory
    stored without it. *)
Definition filter_project (project_ : option string) (ms : list MemoryEntry)
    : completion (list MemoryEntry) :=
  match truthy project_ with
  | Some p =>
      filter_completion
        (fun m => own ← defined (project m);
                  Return (includes (toLowerCase own) (toLowerCase p))) ms
  | None => Return ms
  end.

Definition filter_category (category_ : option string) (ms : list MemoryEntry)
    : completion (list MemoryEntry) :=
  match truthy category_ with
  | Some c =>
      filter_completion
        (fun m => own ← defined (category m);
                  Return (includes (toLowerCase own) (toLowerCase c))) ms
  | None => Return ms
  end.

Definition filter_tags (tags_ : option (list string)) (ms : list MemoryEntry)
    : list MemoryEntry :=
  match tags_ with
  | Some (t :: ts) =>
      filter (fun m =>
        JsArray.some (fun tag =>
          JsArray.some (fun memTag => includes (toLowerCase memTag) (toLowerCase tag))
                       (tags m)) (t :: ts)) ms
  | _ => ms
  end.

Definition filteredMemories (memories : list MemoryEntry) (args : SearchArgs)
    : completion (list MemoryEntry) :=
  ms ← filter_project (arg_filter_project args) memories;
  ms ← filter_category (arg_filter_category args) ms;
  Return (filter_tags (arg_filter_tags args) ms).

(** [(a, b) => b.similarity - a.similarity]. *)
Definition by_similarity (a b : SearchResult) : Z :=
  (Z.of_nat (similarity b) - Z.of_nat (similarity a))%Z.

(** The object built for one memory in the [map] of [searchMemories]. *)
Definition score_entry (foreign : RegExp.engine) (query_ : string) (memory : MemoryEntry)
    : completion SearchResult :=
  s ← calculateSimilarity foreign query_ memory;
  Return (mkResult memory s
            (filter (fun tag => includes (toLowerCase tag) (toLowerCase query_)
                                || includes (toLowerCase query_) (toLowerCase tag))
                    (tags memory))).

(** [searchMemories] over [this.memories], up to the formatting of
    [results]. *)
Definition searchMemories (foreign : RegExp.engine) (memories : list MemoryEntry)
    (args : SearchArgs) : completion (list SearchResult) :=
  let limit_ := default 5%Z (limit args) in
  passed ← filteredMemories memories args;
  scored ← map_completion (score_entry foreign (query args)) passed;
  Return (JsArray.slice0
            (JsArray.sort by_similarity
               (filter (fun result => 0 < similarity result) scored))
            limit_).

End Memory.

(** ** The rule store: lookup, categories, export and import *)

Module RuleTools.

Import Rules.

(** [this.rules.find(r => r.id === id)]. *)
Definition find_rule (this : Server) (id_ : string) : option Rule :=
  snd <$> list_find (fun r => id r = id_) (this_rules this).

(** [getRuleById], up to the formatting of its text: the rule, and those
    of its related rules that the store has. *)
Definition getRuleById (id_ : string) (this : Server) : completion (Rule * list Rule) :=
  match find_rule this id_ with
  | None => Throw (Error ("Rule not found: " +:+ id_))
  | Some rule => Return (rule, omap (find_rule this) (relatedRules rule))
  end.

(** The arguments of [create_category], the name as the schema requires
    it. *)
Record CategoryArgs := mkCategoryArgs {
  arg_name : string;
  arg_cat_description : option string
}.

(** [createCategory]; the default of the destructuring replaces an
    undefined description only. *)
Definition createCategory (args : CategoryArgs) : handler unit := fun this =>
  match list_find (fun c => name c = arg_name args) (this_categories this) with
  | Some _ => (Throw (Error ("Category already exists: " +:+ arg_name args)), this)
  | None =>
      saveRules (mkServer (this_rules this)
                   (this_categories this ++
                    [mkCategory (arg_name args)
                       (default ("Rules for " +:+ arg_name args) (arg_cat_description args))
                       []])
                   (rulesFile this) (categoriesFile this) (writable this))
  end.

(** [getRulesByCategory], up to the formatting of its text. *)
Definition getRulesByCategory (category_ : string) (this : Server) : list Rule :=
  filter (fun r => includes (toLowerCase (category r)) (toLowerCase category_))
         (this_rules this).

(** The rules that [exportRules] hands to [writeFile]: all of them, or
    with a category given those that [getRulesByCategory] lists. *)
Definition rulesToExport (category_ : option string) (this : Server) : list Rule :=
  match truthy category_ with
  | Some c => filter (fun r => includes (toLowerCase (category r)) (toLowerCase c))
                     (this_rules this)
  | None => this_rules this
  end.

(** A rule as a file to import has it: a [Rule] whose id and timestamp
    may be missing. *)
Record ImportedRule := mkImported {
  imp_id : option string;
  imp_title : option string;
  imp_category : string;
  imp_description : string;
  imp_content : option string;
  imp_tags : list string;
  imp_examples : list string;
  imp_relatedRules : list string;
  imp_timestamp : option string;
  imp_version : string
}.

(** What [existsSync], [readFile] and [JSON.parse] find at the path. *)
Inductive ImportFile :=
| NoFile
| Malformed
| NotAnArray
| JsonRules (rules : list ImportedRule).

(** The body of the first [forEach] of [importRules]: a falsy id is
    replaced by [generateId], a falsy timestamp by the current instant.
    [this] is the server before anything is pushed. *)
Definition backfill (now : string) (this : Server) (r : ImportedRule) : Rule :=
  mkRule
    (match truthy (imp_id r) with
     | Some i => i
     | None => generateId this (imp_category r)
     end)
    (imp_title r) (imp_category r) (imp_description r) (imp_content r)
    (imp_tags r) (imp_examples r) (imp_relatedRules r)
    (match truthy (imp_timestamp r) with
     | Some t => t
     | None => now
     end)
    (imp_version r).

(** The body of the second [forEach]: the category is found or created,
    and the id pushed unless the member list includes it. *)
Definition enter_member (cats : list RuleCategory) (r : Rule) : list RuleCategory :=
  match list_find (fun c => name c = category r) cats with
  | Some (i, c) =>
      if bool_decide (id r ∈ rules c) then cats
      else <[i := mkCategory (name c) (cat_description c) (rules c ++ [id r])]> cats
  | None => cats ++ [mkCategory (category r) ("Rules for " +:+ category r) [id r]]
  end.

(** [importRules]; the answer reports the number of imported rules. *)
Definition importRules (now : string) (filePath : string) (file : ImportFile)
    (format : option string) : handler nat := fun this =>
  match file with
  | NoFile => (Throw (Error ("File not found: " +:+ filePath)), this)
  | _ =>
      if bool_decide (default "json" format = "json") then
        match file with
        | JsonRules importedRules =>
            let imported := backfill now this <$> importedRules in
            let this1 := mkServer (this_rules this ++ imported)
                           (foldl enter_member (this_categories this) imported)
                           (rulesFile this) (categoriesFile this) (writable this) in
            match saveRules this1 with
            | (Return _, this2) => (Return (length imported), this2)
            | (Throw e, this2) => (Throw e, this2)
            end
        | NotAnArray => (Throw TypeError, this)        (* importedRules.forEach *)
        | _ => (Throw SyntaxError, this)               (* JSON.parse *)
        end
      else (Throw (Error "Markdown import not yet implemented"), this)
  end.


End RuleTools.

(** ** The memory store: storing an experience *)

Module MemoryTools.

Import Memory.

(** The arguments of [store_experience]; the schema lists [project],
    [category], [title] and [content] as required, and nothing checks
    it. *)
Record StoreArgs := mkStoreArgs {
  arg_project : option string;
  arg_category : option string;
  arg_title : option string;
  arg_content : option string;
  arg_tags : option (list string);
  arg_context : option (list (string * string))
}.

(** [this.memories] after the [push] of [storeExperience], whatever the
    save that follows does; [newId] is what [generateId] returned and
    [now] is [new Date().toISOString()]. *)
Definition storeExperience (newId now : string) (args : StoreArgs)
    (memories : list MemoryEntry) : list MemoryEntry :=
  memories ++ [mkMemory newId (arg_project args) (arg_category args) (arg_title args)
                 (arg_content args) (or_array (arg_tags args) []) now
                 (or_array (arg_context args) [])].

End MemoryTools.

(** ** The memory store: the figures of [getMemoryStats] *)

Module MemoryStats.

(** [[...new Set(xs)]]: the elements of [xs], each at its first place. *)
Fixpoint from_set {A} `{EqDecision A} (seen xs : list A) : list A :=
  match xs with
  | [] => []
  | x :: xs' =>
      if bool_decide (x ∈ seen) then from_set seen xs'
      else x :: from_set (x :: seen) xs'
  end.

Definition unique {A} `{EqDecision A} (xs : list A) : list A := from_set [] xs.

(** The constants at the head of [getMemoryStats]. *)
Definition projects (memories : list Memory.MemoryEntry) : list (option string) :=
  unique (Memory.project <$> memories).

Definition categories (memories : list Memory.MemoryEntry) : list (option string) :=
  unique (Memory.category <$> memories).

Definition allTags (memories : list Memory.MemoryEntry) : list string :=
  unique (memories ≫= Memory.tags).

Definition projectCounts (memories : list Memory.MemoryEntry)
    : list (option string * nat) :=
  (fun project_ =>
     (project_, length (filter (fun m => Memory.project m = project_) memories)))
  <$> projects memories.

Definition categoryCounts (memories : list Memory.MemoryEntry)
    : list (option string * nat) :=
  (fun category_ =>
     (category_, length (filter (fun m => Memory.category m = category_) memories)))
  <$> categories memories.

End MemoryStats.

(** ** Invariants of the rule store *)

Module Invariant.

Import Rules.

(** No two categories of the index have the same name. *)
Definition names_distinct (this : Server) : Prop :=
  NoDup (name <$> this_categories this).

(** No two rules of the store have the same id. *)
Definition ids_distinct (this : Server) : Prop :=
  NoDup (id <$> this_rules this).

(** The index and the rules agree: the member list of a category is the
    list of the ids of the rules in that category, in store order, and
    every rule is in a category of the index. *)
Definition index_consistent (this : Server) : Prop :=
  names_distinct this
  /\ (forall c, c ∈ this_categories this ->
        rules c = id <$> filter (fun r => category r = name c) (this_rules this))
  /\ (forall r, r ∈ this_rules this -> category r ∈ name <$> this_categories this).

(** The backing files hold what the server has in memory. *)
Definition files_mirror_memory (this : Server) : Prop :=
  rulesFile this = Some (this_rules this)
  /\ categoriesFile this = Some (this_categories this).

(** A handler persists what it did: when it returns, the files hold the
    arrays as they then are. *)
Definition persists_on_return {A} (h : handler A) : Prop :=
  forall this v, fst (h this) = Return v -> files_mirror_memory (snd (h this)).

(** A handler preserves a property of the server, whether it returns or
    throws. *)
Definition preserves {A} (P : Server -> Prop) (h : handler A) : Prop :=
  forall this, P this -> P (snd (h this)).

End Invariant.

(** ** The properties as the specification words them *)

Module Spec.

(** A query none of whose characters has a meaning in a pattern. *)
Fixpoint pattern_safe (q : string) : bool :=
  match q with
  | EmptyString => true
  | String c q' => negb (RegExp.syntax_character c) && pattern_safe q'
  end.

(** The count of non-overlapping occurrences of [q] in [s], scanning from
    the left: every position of [s], the end included, where [q] starts
    counts, unless it lies inside the occurrence counted before it. *)
Fixpoint occurrences_from (q s : string) (skip : nat) : nat :=
  match s with
  | EmptyString => if (skip =? 0)%nat && String.prefix q EmptyString then 1 else 0
  | String _ s' =>
      if (skip =? 0)%nat && String.prefix q s
      then S (occurrences_from q s' (String.length q - 1))
      else occurrences_from q s' (skip - 1)
  end.

Definition occurrences (q s : string) : nat := occurrences_from q s 0.

Definition signal (b : bool) (weight : nat) : nat := if b then weight else 0.

(** A tag counts when it contains the query or the query contains it. *)
Definition tag_matches (q : string) (tag : string) : bool :=
  includes (toLowerCase tag) q || includes q (toLowerCase tag).

(** The score of a rule with title [t] and content [c], signal by
    signal, for the lowercased query [q]. *)
Definition rule_score (q t c : string) (r : Rules.Rule) : nat :=
  signal (includes (toLowerCase t) q) 50
  + 40 * length (filter (fun tag => tag_matches q tag) (Rules.tags r))
  + signal (includes (toLowerCase (Rules.category r)) q) 30
  + 15 * occurrences q (toLowerCase c)
  + signal (includes (toLowerCase (Rules.description r)) q) 25
  + 10 * length (filter (fun e => includes (toLowerCase e) q) (Rules.examples r)).

(** The score of a memory with title [t], content [c] and category [k];
    its context values are concatenated with a blank between them. *)
Definition memory_score (q t c k : string) (m : Memory.MemoryEntry) : nat :=
  signal (includes (toLowerCase t) q) 50
  + 30 * length (filter (fun tag => tag_matches q tag) (Memory.tags m))
  + signal (includes (toLowerCase k) q) 25
  + 20 * occurrences q (toLowerCase c)
  + signal (includes (toLowerCase (join " " (map snd (Memory.context m)))) q) 25.

(** The error that scoring a record against a query that is not a pattern
    raises: [title.toLowerCase()] and [content.toLowerCase()] come before
    [new RegExp]. *)
Definition scoring_error (title_ content_ : option string) : JsError :=
  match title_, content_ with
  | Some _, Some _ => SyntaxError
  | _, _ => TypeError
  end.

(** The tags filter as the specification has it: containment either way. *)
Definition symmetric_tag_filter (requested recordTags : list string) : Prop :=
  Exists (fun Q => Exists (fun T =>
    includes (toLowerCase T) (toLowerCase Q) || includes (toLowerCase Q) (toLowerCase T))
    recordTags) requested.

(** The tags filter of the source: a requested tag inside a record tag. *)
Definition one_way_tag_filter (requested recordTags : list string) : Prop :=
  Exists (fun Q => Exists (fun T => includes (toLowerCase T) (toLowerCase Q))
    recordTags) requested.

#[global] Instance symmetric_tag_filter_dec requested recordTags :
  Decision (symmetric_tag_filter requested recordTags).
Proof. unfold symmetric_tag_filter. apply _. Defined.

#[global] Instance one_way_tag_filter_dec requested recordTags :
  Decision (one_way_tag_filter requested recordTags).
Proof. unfold one_way_tag_filter. apply _. Defined.

(** The characters of a literal pattern, each as an atom. *)
Definition chars (q : string) : list RegExp.regex :=
  RegExp.Chr <$> list_ascii_of_string q.

(** Zero padding to width 3 of a decimal numeral. *)
Definition zero_padded_3 (n : nat) : string :=
  if (n <? 10)%nat then "00" +:+ toString n
  else if (n <? 100)%nat then "0" +:+ toString n
  else toString n.

End Spec.

(** ** Sample records and stores *)

Module Sample.

Definition rule_ab : Rules.Rule :=
  Rules.mkRule "cod-001" (Some "Naming") "coding" "names" (Some "ab") [] [] [] "t0" "1.0.0".

Definition rule_git : Rules.Rule :=
  Rules.mkRule "git-001" (Some "Commit Message Format") "git"
    "Use conventional commit messages"
    (Some "Git commits: one git commit per change") ["git"; "commits"]
    ["feat(auth): add user authentication"] ["git-002"] "t0" "1.0.0".

Definition memory_git : Memory.MemoryEntry :=
  Memory.mkMemory "mem_1" (Some "site") (Some "git") (Some "Rebase")
    (Some "git rebase, then git push")
    ["git"] "t0" [("language", "bash"); ("problem", "diverged git history")].

(** An engine that rejects every pattern outside the modelled syntax;
    the samples below stay inside it, where the engine is not consulted. *)
Definition strict : RegExp.engine := fun _ => None.

(** [(subject.match(new RegExp(pattern, "g")) || []).length]. *)
Definition count_matches (pattern subject : string) : completion nat :=
  re ← RegExp.compile strict pattern; Return (RegExp.match_count re subject).

(** The store of a server started on an existing, empty directory. *)
Definition store_empty : Rules.Server := Rules.mkServer [] [] None None true.

Definition args_in (category_ : string) : Rules.CreateArgs :=
  Rules.mkCreateArgs (Some "A rule") (Some category_) None (Some "Do this.") None None.

Definition after {A} (h : Rules.handler A) (this : Rules.Server) : Rules.Server :=
  snd (h this).

(** One rule created in [git], then one in [github]. *)
Definition store_git_github : Rules.Server :=
  after (Rules.createRule "t1" (args_in "github"))
    (after (Rules.createRule "t0" (args_in "git")) store_empty).

(** Three rules created in [git]. *)
Definition store_three_git : Rules.Server :=
  after (Rules.createRule "t2" (args_in "git"))
    (after (Rules.createRule "t1" (args_in "git"))
       (after (Rules.createRule "t0" (args_in "git")) store_empty)).

(** The second of the three deleted, then a fourth created. *)
Definition store_recreated : Rules.Server :=
  after (Rules.createRule "t4" (args_in "git"))
    (after (Rules.deleteRule "git-002") store_three_git).

(** An update that moves a rule to another category and retitles it. *)
Definition updates_move : Rules.Updates :=
  Rules.mkUpdates (Some "Moved") (Some "testing") None None None None None
    (Some "1999-01-01") None.

(** A create request with a category and nothing else. *)
Definition args_bare : Rules.CreateArgs :=
  Rules.mkCreateArgs None (Some "git") None None None None.

(** A create request without a category. *)
Definition args_no_category : Rules.CreateArgs :=
  Rules.mkCreateArgs (Some "A rule") None None (Some "Do this.") None None.

Definition rule_git_b : Rules.Rule :=
  Rules.mkRule "git-002" (Some "Branch Names") "git" "Name branches after tickets"
    (Some "Git branches: one git branch per ticket") ["git"; "branches"]
    [] [] "t1" "1.0.0".

Definition rule_hooks : Rules.Rule :=
  Rules.mkRule "cod-002" (Some "Hooks") "coding" "Run the linter before a commit"
    (Some "Install the git hooks") ["lint"] [] [] "t2" "1.0.0".

(** A store in which two rules tie on the query [git]. *)
Definition store_search : Rules.Server :=
  Rules.mkServer [rule_hooks; rule_git; rule_ab; rule_git_b] [] None None true.

Definition memory_notes : Memory.MemoryEntry :=
  Memory.mkMemory "mem_2" (Some "site") (Some "notes") (Some "Deploy")
    (Some "push to git, wait") [] "t1" [].

(** What [store_experience] stores for a request without a title, and for
    one without a category. *)
Definition memory_untitled : Memory.MemoryEntry :=
  Memory.mkMemory "mem_3" (Some "site") (Some "git") None (Some "git bisect") [] "t2" [].

Definition memory_uncategorised : Memory.MemoryEntry :=
  Memory.mkMemory "mem_4" (Some "site") None (Some "Bisect") (Some "git bisect") [] "t3" [].

(** A rule created without a title. *)
Definition rule_untitled : Rules.Rule :=
  Rules.mkRule "git-003" None "git" "d" (Some "git bisect") [] [] [] "t3" "1.0.0".

Definition search_git (limit_ : option Z) : Rules.SearchArgs :=
  Rules.mkSearchArgs "git" None None limit_.

Definition search_memories_git (limit_ : option Z) : Memory.SearchArgs :=
  Memory.mkSearchArgs "git" None None None limit_.

Definition memory_commit : Memory.MemoryEntry :=
  Memory.mkMemory "mem_5" (Some "site") (Some "notes") (Some "Commit early")
    (Some "commit often") [] "t0" [].

(** A [store_experience] request without a title. *)
Definition store_untitled : MemoryTools.StoreArgs :=
  MemoryTools.mkStoreArgs (Some "site") (Some "git") None (Some "git bisect") None None.

Definition search_all (query_ : string) : Memory.SearchArgs :=
  Memory.mkSearchArgs query_ None None None None.

(** The store of a server whose directory refuses every write. *)
Definition store_readonly : Rules.Server :=
  Rules.mkServer [rule_git] [Rules.mkCategory "git" "Rules for git" ["git-001"]]
    None None false.

(** A file with two rules of one category and no id, and one rule that
    brings its id. *)
Definition file_three : list RuleTools.ImportedRule :=
  [RuleTools.mkImported None (Some "A") "docs" "d" (Some "a") [] [] [] None "1.0.0";
   RuleTools.mkImported None (Some "B") "docs" "d" (Some "b") [] [] [] None "1.0.0";
   RuleTools.mkImported (Some "git-001") (Some "C") "git" "d" (Some "c") [] [] []
     (Some "t7") "1.0.0"].

End Sample.

Import Sample.

(** * Properties *)

(** ** Strings *)

Section StringFacts.

Lemma prefix_nil (s : string) : String.prefix EmptyString s = true.
Proof. destruct s; reflexivity. Qed.

Lemma prefix_cons (a b : ascii) (p s : string) :
  String.prefix (String a p) (String b s) = bool_decide (a = b) && String.prefix p s.
Proof.
  simpl. destruct (ascii_dec a b) as [->|Hne].
  - rewrite bool_decide_eq_true_2; auto.
  - rewrite bool_decide_eq_false_2; auto.
Qed.

Lemma prefix_length (p s : string) :
  String.prefix p s = true -> String.length p <= String.length s.
Proof.
  revert s. induction p as [|a p IH]; intros s H; simpl; [lia|].
  destruct s as [|b s]; [discriminate|].
  rewrite prefix_cons in H. apply andb_true_iff in H as [_ H].
  apply IH in H. simpl. lia.
Qed.

Lemma drop_chars_length (n : nat) (s : string) :
  String.length (drop_chars n s) = String.length s - n.
Proof.
  revert s. induction n as [|n IH]; intros [|c s]; simpl; auto.
Qed.

Lemma includes_nil (s : string) : includes s EmptyString = true.
Proof. destruct s; reflexivity. Qed.

End StringFacts.

(** ** Counting occurrences *)

Section Occurrences.

Lemma occurrences_empty_query (s : string) :
  Spec.occurrences EmptyString s = S (String.length s).
Proof.
  unfold Spec.occurrences. induction s as [|c s IH]; [reflexivity|].
  simpl. rewrite IH. reflexivity.
Qed.

(** The count is zero exactly when [includes] finds nothing. *)
Lemma occurrences_zero (q s : string) :
  Spec.occurrences q s = 0 <-> includes s q = false.
Proof.
  unfold Spec.occurrences. induction s as [|c s IH].
  - cbn [Spec.occurrences_from includes Nat.eqb andb].
    destruct (String.prefix q EmptyString); simpl; split; congruence.
  - cbn [Spec.occurrences_from includes Nat.eqb andb].
    destruct (String.prefix q (String c s)); simpl; [split; congruence|exact IH].
Qed.

(** The occurrences counted do not overlap: together they fit in [s]. *)
Lemma occurrences_fit (q s : string) (skip : nat) :
  q <> EmptyString ->
  Spec.occurrences_from q s skip * String.length q <= String.length s - skip.
Proof.
  intros Hq. revert skip. induction s as [|c s IH]; intros skip.
  - simpl. destruct q; [congruence|]. rewrite andb_false_r. simpl. lia.
  - cbn [Spec.occurrences_from].
    destruct ((skip =? 0)%nat && String.prefix q (String c s)) eqn:Hhere.
    + apply andb_true_iff in Hhere as [Hskip Hp]. apply Nat.eqb_eq in Hskip. subst skip.
      apply prefix_length in Hp. specialize (IH (String.length q - 1)).
      simpl in *. lia.
    + specialize (IH (skip - 1)). simpl. lia.
Qed.

End Occurrences.

(** ** Literal patterns *)

Section LiteralPatterns.

Import RegExp.
Import Spec.

Lemma flush_push (f : frame) (a : regex) : flush (push_atom f a) = a :: flush f.
Proof. reflexivity. Qed.

Lemma parse_safe_char (c : ascii) (rest : string) (cur : frame) (stack : list frame) :
  syntax_character c = false ->
  parse (String c rest) cur stack = parse rest (push_atom cur (Chr c)) stack.
Proof.
  intros Hc. simpl.
  repeat (case_bool_decide;
          [exfalso;
           first [ (subst c; vm_compute in Hc; discriminate Hc)
                 | match goal with
                   | H : _ ∈ _ |- _ =>
                       apply list_elem_of_In in H; simpl in H;
                       destruct H as [<-|[<-|[<-|[]]]];
                       vm_compute in Hc; discriminate Hc
                   end ] |]).
  rewrite Hc. reflexivity.
Qed.

Lemma parse_safe (q : string) (cur : frame) :
  Spec.pattern_safe q = true ->
  parse q cur [] = Pattern (close_frame (foldl push_atom cur (chars q))).
Proof.
  revert cur. induction q as [|c q IH]; intros cur Hq; [reflexivity|].
  simpl in Hq. apply andb_true_iff in Hq as [Hc Hq].
  apply negb_true_iff in Hc.
  rewrite parse_safe_char by exact Hc.
  rewrite IH by exact Hq. reflexivity.
Qed.

Lemma foldl_push_atom (atoms : list regex) (f : frame) :
  f_alts (foldl push_atom f atoms) = f_alts f
  /\ flush (foldl push_atom f atoms) = (rev atoms ++ flush f)%list.
Proof.
  revert f. induction atoms as [|a atoms IH]; intros f; simpl; [auto|].
  destruct (IH (push_atom f a)) as [H1 H2]. rewrite H1, H2. split; [reflexivity|].
  rewrite flush_push, <- app_assoc. reflexivity.
Qed.

(** A pattern without syntax characters compiles to the sequence of its
    characters. *)
Lemma compile_safe (foreign : engine) (q : string) :
  Spec.pattern_safe q = true -> compile foreign q = Return (Modelled (cat_all (chars q))).
Proof.
  intros Hq. unfold compile. rewrite parse_safe by exact Hq.
  unfold close_frame, close_alternative.
  destruct (foldl_push_atom (chars q) empty_frame) as [H1 H2].
  rewrite H1, H2. simpl. rewrite app_nil_r, rev_involutive. reflexivity.
Qed.

Lemma match_cat_all_cons (t : regex) (ts : list regex) (s : string)
    (k : string -> option string) :
  match_regex (cat_all (t :: ts)) s k
  = match_regex t s (fun s1 => match_regex (cat_all ts) s1 k).
Proof. destruct ts; reflexivity. Qed.

(** The sequence of the characters of [q] matches at the head of [s]
    exactly when [q] is a prefix of [s], and consumes it. *)
Lemma match_chars (q s : string) (k : string -> option string) :
  match_regex (cat_all (chars q)) s k
  = if String.prefix q s then k (drop_chars (String.length q) s) else None.
Proof.
  revert s. induction q as [|a q IH]; intros s.
  - rewrite prefix_nil. reflexivity.
  - unfold chars. cbn [list_ascii_of_string fmap list_fmap].
    rewrite match_cat_all_cons. fold (chars q).
    destruct s as [|b s]; [reflexivity|].
    rewrite prefix_cons. cbn [match_regex].
    case_bool_decide; [|reflexivity]. rewrite IH. reflexivity.
Qed.

Lemma exec_no_match_here (r : regex) (c : ascii) (s : string) :
  match_here r (String c s) = None ->
  RegExpBuiltinExec r (String c s) = RegExpBuiltinExec r s.
Proof. intros H. simpl. rewrite H. reflexivity. Qed.

Lemma occurrences_skip (q s : string) (k : nat) :
  k <= String.length s ->
  Spec.occurrences_from q s k = Spec.occurrences_from q (drop_chars k s) 0.
Proof.
  revert s. induction k as [|k IH]; intros s Hk; [reflexivity|].
  destruct s as [|c s]; simpl in Hk; [lia|].
  simpl. rewrite Nat.sub_0_r. apply IH. lia.
Qed.

Lemma match_loop_literal (q : string) (n : nat) :
  forall (s : string) (fuel : nat),
    String.length s <= n -> n < fuel ->
    match_loop fuel (cat_all (chars q)) s = Spec.occurrences q s.
Proof.
  unfold Spec.occurrences.
  induction n as [n IH] using lt_wf_ind. intros s fuel Hs Hfuel.
  destruct fuel as [|fuel]; [lia|].
  destruct (String.prefix q s) eqn:Hp.
  - (* an occurrence starts here *)
    assert (Hhere : match_here (cat_all (chars q)) s
                    = Some (drop_chars (String.length q) s)).
    { unfold match_here. rewrite match_chars, Hp. reflexivity. }
    assert (Hexec : RegExpBuiltinExec (cat_all (chars q)) s
                    = Some (s, drop_chars (String.length q) s)).
    { destruct s; simpl; rewrite Hhere; reflexivity. }
    cbn [match_loop]. rewrite Hexec.
    pose proof (prefix_length _ _ Hp) as Hlen.
    rewrite drop_chars_length.
    destruct q as [|a q].
    + (* the empty query: an empty match, the index moves one on *)
      simpl. destruct s as [|c s]; [reflexivity|].
      rewrite Nat.ltb_irrefl. simpl. f_equal.
      apply (IH (String.length s)); simpl in *; lia.
    + destruct s as [|c s]; [discriminate|].
      assert (Hlt : (String.length (String c s) - String.length (String a q)
                     <? String.length (String c s))%nat = true).
      { apply Nat.ltb_lt. simpl. lia. }
      rewrite Hlt. cbn [Spec.occurrences_from Nat.eqb andb]. rewrite Hp.
      f_equal. simpl in Hlen.
      rewrite occurrences_skip by (simpl; lia).
      simpl. rewrite Nat.sub_0_r.
      apply (IH (String.length (drop_chars (String.length q) s))).
      * rewrite drop_chars_length. simpl in Hs. lia.
      * lia.
      * rewrite drop_chars_length. simpl in Hs. lia.
  - (* no occurrence here: the search moves one character on *)
    assert (Hhere : match_here (cat_all (chars q)) s = None).
    { unfold match_here. rewrite match_chars, Hp. reflexivity. }
    destruct s as [|c s].
    + simpl. rewrite Hhere. simpl in Hp. rewrite Hp. reflexivity.
    + cbn [match_loop]. rewrite exec_no_match_here by exact Hhere.
      cbn [Spec.occurrences_from Nat.eqb andb]. rewrite Hp. simpl.
      specialize (IH (String.length s)).
      rewrite <- (IH ltac:(simpl in Hs; lia) s (S fuel) ltac:(lia) ltac:(simpl in Hs; lia)).
      reflexivity.
Qed.

(** On a literal pattern, the matches that [String.prototype.match]
    collects are the non-overlapping occurrences of the text. *)
Lemma match_count_literal (q s : string) :
  match_count (Modelled (cat_all (chars q))) s = Spec.occurrences q s.
Proof.
  unfold match_count. apply (match_loop_literal q (String.length s)); lia.
Qed.

End LiteralPatterns.

(** ** The pattern engine: the fuel never runs out *)

Section Adequacy.

Import RegExp.

Lemma RepeatMatcher_invokes (m : matcher) :
  (forall s k e, m s k = Some e ->
     exists s1, String.length s1 <= String.length s /\ k s1 = Some e) ->
  forall fuel s k e, RepeatMatcher m fuel s k = Some e ->
     exists s1, String.length s1 <= String.length s /\ k s1 = Some e.
Proof.
  intros Hm. induction fuel as [|fuel IH]; intros s k e H; simpl in H.
  - exists s. split; [lia|exact H].
  - destruct (m s _) as [e'|] eqn:Hms.
    + injection H as ->. apply Hm in Hms as (s1 & Hlen & Hk).
      destruct (Nat.ltb_spec (String.length s1) (String.length s)); [|discriminate].
      apply IH in Hk as (s2 & Hlen2 & Hk). exists s2. split; [lia|exact Hk].
    + exists s. split; [lia|exact H].
Qed.

Lemma match_regex_invokes (r : regex) :
  forall s k e, match_regex r s k = Some e ->
    exists s1, String.length s1 <= String.length s /\ k s1 = Some e.
Proof.
  induction r as [|c| |r1 IH1 r2 IH2|r1 IH1 r2 IH2|r1 IH1|r1 IH1|r1 IH1];
    intros s k e H; simpl in H.
  - exists s. split; [lia|exact H].
  - destruct s as [|c' s']; [discriminate|]. case_bool_decide; [|discriminate].
    exists s'. split; [simpl; lia|exact H].
  - destruct s as [|c' s']; [discriminate|]. destruct (line_terminator c'); [discriminate|].
    exists s'. split; [simpl; lia|exact H].
  - apply IH1 in H as (s1 & Hlen1 & H). apply IH2 in H as (s2 & Hlen2 & H).
    exists s2. split; [lia|exact H].
  - destruct (match_regex r1 s k) as [e'|] eqn:H1.
    + injection H as ->. apply IH1 in H1. exact H1.
    + apply IH2 in H. exact H.
  - apply (RepeatMatcher_invokes _ IH1) in H. exact H.
  - apply IH1 in H as (s1 & Hlen1 & H).
    apply (RepeatMatcher_invokes _ IH1) in H as (s2 & Hlen2 & H).
    exists s2. split; [lia|exact H].
  - destruct (match_regex r1 s _) as [e'|] eqn:H1.
    + injection H as ->. apply IH1 in H1 as (s1 & Hlen & H1).
      destruct (Nat.ltb_spec (String.length s1) (String.length s)); [|discriminate].
      exists s1. split; [lia|exact H1].
    + exists s. split; [lia|exact H].
Qed.

Lemma RepeatMatcher_ext (m : matcher) :
  (forall s k1 k2, (forall s1, String.length s1 <= String.length s -> k1 s1 = k2 s1) ->
     m s k1 = m s k2) ->
  forall fuel s k1 k2,
    (forall s1, String.length s1 <= String.length s -> k1 s1 = k2 s1) ->
    RepeatMatcher m fuel s k1 = RepeatMatcher m fuel s k2.
Proof.
  intros Hm. induction fuel as [|fuel IH]; intros s k1 k2 Hk; simpl.
  - apply Hk. lia.
  - rewrite (Hk s) by lia.
    erewrite (Hm s); [reflexivity|].
    intros s1 Hs1. simpl.
    destruct (Nat.ltb_spec (String.length s1) (String.length s)); [|reflexivity].
    apply IH. intros s2 Hs2. apply Hk. lia.
Qed.

Lemma match_regex_ext (r : regex) :
  forall s k1 k2, (forall s1, String.length s1 <= String.length s -> k1 s1 = k2 s1) ->
    match_regex r s k1 = match_regex r s k2.
Proof.
  induction r as [|c| |r1 IH1 r2 IH2|r1 IH1 r2 IH2|r1 IH1|r1 IH1|r1 IH1];
    intros s k1 k2 Hk; simpl.
  - apply Hk. lia.
  - destruct s as [|c' s']; [reflexivity|]. case_bool_decide; [|reflexivity].
    apply Hk. simpl. lia.
  - destruct s as [|c' s']; [reflexivity|]. destruct (line_terminator c'); [reflexivity|].
    apply Hk. simpl. lia.
  - apply IH1. intros s1 Hs1. apply IH2. intros s2 Hs2. apply Hk. lia.
  - rewrite (IH1 s k1 k2 Hk), (IH2 s k1 k2 Hk). reflexivity.
  - apply (RepeatMatcher_ext _ IH1). exact Hk.
  - apply IH1. intros s1 Hs1. apply (RepeatMatcher_ext _ IH1).
    intros s2 Hs2. apply Hk. lia.
  - rewrite (Hk s) by lia. erewrite (IH1 s); [reflexivity|].
    intros s1 Hs1. simpl.
    destruct (Nat.ltb_spec (String.length s1) (String.length s)); [|reflexivity].
    apply Hk. lia.
Qed.

Lemma match_regex_no_continuation (r : regex) (s : string) :
  match_regex r s (fun _ => None) = None.
Proof.
  destruct (match_regex r s (fun _ => None)) as [e|] eqn:H; [|reflexivity].
  apply match_regex_invokes in H as (s1 & _ & H). discriminate.
Qed.

(** More fuel than the length of the input changes nothing. *)
Lemma RepeatMatcher_fuel (r : regex) (n : nat) :
  forall s k fuel1 fuel2,
    String.length s <= n -> n <= fuel1 -> n <= fuel2 ->
    RepeatMatcher (match_regex r) fuel1 s k = RepeatMatcher (match_regex r) fuel2 s k.
Proof.
  induction n as [|n IH]; intros s k fuel1 fuel2 Hs H1 H2.
  - assert (Hzero : forall fuel, RepeatMatcher (match_regex r) fuel s k = k s).
    { intros [|fuel]; [reflexivity|]. simpl.
      erewrite match_regex_ext; [rewrite match_regex_no_continuation; reflexivity|].
      intros s1 Hs1. simpl.
      destruct (Nat.ltb_spec (String.length s1) (String.length s)); [lia|reflexivity]. }
    rewrite !Hzero. reflexivity.
  - destruct fuel1 as [|fuel1]; [lia|]. destruct fuel2 as [|fuel2]; [lia|]. simpl.
    erewrite match_regex_ext; [reflexivity|].
    intros s1 Hs1. simpl.
    destruct (Nat.ltb_spec (String.length s1) (String.length s)); [|reflexivity].
    apply IH; lia.
Qed.

Lemma match_here_shorter (r : regex) (s e : string) :
  match_here r s = Some e -> String.length e <= String.length s.
Proof.
  intros H. apply match_regex_invokes in H as (s1 & Hlen & H).
  injection H as <-. exact Hlen.
Qed.

Lemma exec_shorter (r : regex) (s b e : string) :
  RegExpBuiltinExec r s = Some (b, e) ->
  String.length b <= String.length s /\ String.length e <= String.length b.
Proof.
  induction s as [|c s IH]; simpl; intros H.
  - destruct (match_here r EmptyString) as [e'|] eqn:Hm; [|discriminate].
    injection H as <- <-. apply match_here_shorter in Hm. simpl in *. lia.
  - destruct (match_here r (String c s)) as [e'|] eqn:Hm.
    + injection H as <- <-. apply match_here_shorter in Hm. simpl in *. lia.
    + apply IH in H. simpl. lia.
Qed.

Lemma match_loop_fuel (r : regex) (n : nat) :
  forall s fuel1 fuel2,
    String.length s <= n -> n < fuel1 -> n < fuel2 ->
    match_loop fuel1 r s = match_loop fuel2 r s.
Proof.
  induction n as [n IH] using lt_wf_ind. intros s fuel1 fuel2 Hs H1 H2.
  destruct fuel1 as [|fuel1]; [lia|]. destruct fuel2 as [|fuel2]; [lia|]. simpl.
  destruct (RegExpBuiltinExec r s) as [[b e]|] eqn:Hexec; [|reflexivity].
  apply exec_shorter in Hexec as [Hb He]. f_equal.
  destruct (Nat.ltb_spec (String.length e) (String.length b)).
  - apply (IH (String.length e)); lia.
  - destruct e as [|c e']; [reflexivity|]. simpl in *.
    apply (IH (String.length e')); lia.
Qed.

End Adequacy.

(** ** The pattern engine on patterns with known answers *)

Section KnownAnswers.

#[local] Abbreviation count := Sample.count_matches.

Example count_literal_no_overlap : count "aa" "aaaaa" = Return 2.
Proof. reflexivity. Qed.

Example count_dot_skips_newline :
  count "." (String "a" (String (ascii_of_nat 10) "bc")) = Return 3.
Proof. reflexivity. Qed.

Example count_alternation_leftmost : count "a|ab" "abab" = Return 2.
Proof. reflexivity. Qed.

Example count_backtracks_into_group : count "(a|ab)(c|bcd)" "abcd" = Return 1.
Proof. reflexivity. Qed.

Example count_star_empty_matches : count "a*" "baac" = Return 4.
Proof. reflexivity. Qed.

Example count_optional : count "a?" "aab" = Return 4.
Proof. reflexivity. Qed.

Example count_plus_of_star : count "(a*)+" "b" = Return 2.
Proof. reflexivity. Qed.

Example count_empty_pattern : count EmptyString "abc" = Return 4.
Proof. reflexivity. Qed.

Example count_escaped_dot : count "\." "a.b" = Return 1.
Proof. reflexivity. Qed.

Example compile_unterminated_group : RegExp.compile strict "(" = Throw SyntaxError.
Proof. reflexivity. Qed.

Example compile_unmatched_paren : RegExp.compile strict "a)" = Throw SyntaxError.
Proof. reflexivity. Qed.

Example compile_nothing_to_repeat : RegExp.compile strict "a**" = Throw SyntaxError.
Proof. reflexivity. Qed.

Example compile_leading_quantifier : RegExp.compile strict "+1" = Throw SyntaxError.
Proof. reflexivity. Qed.

Example compile_trailing_backslash : RegExp.compile strict "a\" = Throw SyntaxError.
Proof. reflexivity. Qed.

Example parse_class_not_modelled :
  RegExp.parse "[a-z]" RegExp.empty_frame [] = RegExp.Unmodelled.
Proof. reflexivity. Qed.

End KnownAnswers.

(** ** The relevance score *)

Section Scoring.

Import Spec.

Lemma signal_add (b : bool) (w n : nat) : (if b then n + w else n) = n + signal b w.
Proof. destruct b; simpl; lia. Qed.

Lemma rule_score_safe (foreign : RegExp.engine) (q : string) (r : Rules.Rule)
    (t c : string) :
  pattern_safe (toLowerCase q) = true ->
  Rules.title r = Some t -> Rules.content r = Some c ->
  Rules.calculateSimilarity foreign q r = Return (rule_score (toLowerCase q) t c r).
Proof.
  intros Hq Ht Hc. unfold Rules.calculateSimilarity, rule_score.
  rewrite Ht, Hc. cbn [defined mbind completion_bind cbind].
  rewrite (compile_safe foreign _ Hq). cbn [cbind mbind completion_bind].
  rewrite match_count_literal, !signal_add.
  f_equal. unfold tag_matches.
  fold (signal (includes (toLowerCase t) (toLowerCase q)) 50). lia.
Qed.

Lemma memory_score_safe (foreign : RegExp.engine) (q : string) (m : Memory.MemoryEntry)
    (t c k : string) :
  pattern_safe (toLowerCase q) = true ->
  Memory.title m = Some t -> Memory.content m = Some c -> Memory.category m = Some k ->
  Memory.calculateSimilarity foreign q m = Return (memory_score (toLowerCase q) t c k m).
Proof.
  intros Hq Ht Hc Hk. unfold Memory.calculateSimilarity, memory_score, Memory.contextText.
  rewrite Ht, Hc, Hk. cbn [defined mbind completion_bind cbind].
  rewrite (compile_safe foreign _ Hq). cbn [cbind mbind completion_bind].
  rewrite match_count_literal, !signal_add.
  f_equal. unfold tag_matches.
  fold (signal (includes (toLowerCase t) (toLowerCase q)) 50). lia.
Qed.

(** A rule without its title or its content has no score, whatever the
    query. *)
Lemma rule_score_undefined (foreign : RegExp.engine) (q : string) (r : Rules.Rule) :
  Rules.title r = None \/ Rules.content r = None ->
  Rules.calculateSimilarity foreign q r = Throw TypeError.
Proof.
  intros H. unfold Rules.calculateSimilarity.
  destruct (Rules.title r) as [t|]; [|reflexivity].
  destruct (Rules.content r) as [c|]; [|reflexivity].
  destruct H; discriminate.
Qed.

(** A memory without its title or its content has no score, whatever the
    query. *)
Lemma memory_score_undefined (foreign : RegExp.engine) (q : string)
    (m : Memory.MemoryEntry) :
  Memory.title m = None \/ Memory.content m = None ->
  Memory.calculateSimilarity foreign q m = Throw TypeError.
Proof.
  intros H. unfold Memory.calculateSimilarity.
  destruct (Memory.title m) as [t|]; [|reflexivity].
  destruct (Memory.content m) as [c|]; [|reflexivity].
  destruct H; discriminate.
Qed.

(** A memory without its category has no score either, once the query has
    compiled. *)
Lemma memory_score_uncategorised (foreign : RegExp.engine) (q : string)
    (m : Memory.MemoryEntry) (re : RegExp.RegExpObject) :
  RegExp.compile foreign (toLowerCase q) = Return re ->
  Memory.category m = None ->
  Memory.calculateSimilarity foreign q m = Throw TypeError.
Proof.
  intros Hq Hk. unfold Memory.calculateSimilarity.
  destruct (Memory.title m) as [t|]; [|reflexivity].
  destruct (Memory.content m) as [c|]; [|reflexivity].
  cbn [defined mbind completion_bind cbind]. rewrite Hq, Hk. reflexivity.
Qed.

End Scoring.

(** C1, as stated, fails: the query is compiled as a pattern, so [.] is
    found twice in the content [ab], where the text [.] does not occur,
    and [(] yields no score at all. *)
Lemma score_counts_pattern_matches :
  Rules.calculateSimilarity strict "." rule_ab = Return 30
  /\ Spec.rule_score (toLowerCase ".") "Naming" "ab" rule_ab = 0
  /\ Rules.calculateSimilarity strict "(" rule_ab = Throw SyntaxError.
Proof. repeat split; reflexivity. Qed.

(** The same whatever the engine does outside the modelled syntax. *)
Lemma score_counts_pattern_matches_any_engine (foreign : RegExp.engine) :
  Rules.calculateSimilarity foreign "." rule_ab = Return 30
  /\ Rules.calculateSimilarity foreign "(" rule_ab = Throw SyntaxError.
Proof. split; reflexivity. Qed.

(** C1, amended: for a query whose lowercased text has no pattern syntax
    character, the score of a record whose scored text fields are defined
    (title and content of a rule; title, content and category of a
    memory) is the sum of its signals: 50 for the title, 40 / 30 per
    matching tag, 30 / 25 for the category, 15 / 20 per non-overlapping
    occurrence in the content, 25 for the description or the joined
    context values, and 10 per matching example of a rule. For such a
    query a record stored without one of these fields has no score:
    scoring it throws a [TypeError]. *)
Theorem score_is_sum_of_signals (foreign : RegExp.engine) (q : string) :
  Spec.pattern_safe (toLowerCase q) = true ->
  (forall (r : Rules.Rule) (t c : string),
      Rules.title r = Some t -> Rules.content r = Some c ->
      Rules.calculateSimilarity foreign q r
      = Return (Spec.rule_score (toLowerCase q) t c r))
  /\ (forall (m : Memory.MemoryEntry) (t c k : string),
      Memory.title m = Some t -> Memory.content m = Some c ->
      Memory.category m = Some k ->
      Memory.calculateSimilarity foreign q m
      = Return (Spec.memory_score (toLowerCase q) t c k m))
  /\ (forall r : Rules.Rule,
      Rules.title r = None \/ Rules.content r = None ->
      Rules.calculateSimilarity foreign q r = Throw TypeError)
  /\ (forall m : Memory.MemoryEntry,
      Memory.title m = None \/ Memory.content m = None \/ Memory.category m = None ->
      Memory.calculateSimilarity foreign q m = Throw TypeError).
Proof.
  intros Hq. split; [|split; [|split]].
  - intros r t c. apply rule_score_safe. exact Hq.
  - intros m t c k. apply memory_score_safe. exact Hq.
  - intros r. apply rule_score_undefined.
  - intros m [Ht|[Hc|Hk]].
    + apply memory_score_undefined. left. exact Ht.
    + apply memory_score_undefined. right. exact Hc.
    + apply (memory_score_uncategorised foreign q m _ (compile_safe foreign _ Hq) Hk).
Qed.

Lemma score_is_sum_of_signals_witness :
  Spec.pattern_safe (toLowerCase "Git") = true
  /\ Rules.calculateSimilarity strict "Git" rule_git = Return 100
  /\ Memory.calculateSimilarity strict "Git" memory_git = Return 120
  /\ Rules.calculateSimilarity strict "Git" rule_untitled = Throw TypeError
  /\ Memory.calculateSimilarity strict "Git" memory_untitled = Throw TypeError
  /\ Memory.calculateSimilarity strict "Git" memory_uncategorised = Throw TypeError.
Proof.
  split; [reflexivity|].
  destruct (score_is_sum_of_signals strict "Git" eq_refl) as (Hr & Hm & Hr' & Hm').
  split; [|split; [|split; [|split]]].
  - rewrite (Hr rule_git _ _ eq_refl eq_refl). reflexivity.
  - rewrite (Hm memory_git _ _ _ eq_refl eq_refl eq_refl). reflexivity.
  - apply Hr'. left. reflexivity.
  - apply Hm'. left. reflexivity.
  - apply Hm'. right. right. reflexivity.
Defined.

(** ** A query that is not a pattern *)

Section PatternErrors.

Context (foreign : RegExp.engine).

Lemma slice0_nil {A} (limit_ : Z) : JsArray.slice0 (@nil A) limit_ = [].
Proof. unfold JsArray.slice0. destruct (limit_ <? 0)%Z; apply take_nil. Qed.

Lemma rule_score_throws (q : string) (r : Rules.Rule) :
  RegExp.compile foreign (toLowerCase q) = Throw SyntaxError ->
  Rules.calculateSimilarity foreign q r
  = Throw (Spec.scoring_error (Rules.title r) (Rules.content r)).
Proof.
  intros Hq. unfold Rules.calculateSimilarity.
  destruct (Rules.title r) as [t|]; [|reflexivity].
  destruct (Rules.content r) as [c|]; [|reflexivity].
  cbn [defined mbind completion_bind cbind]. rewrite Hq. reflexivity.
Qed.

Lemma memory_score_throws (q : string) (m : Memory.MemoryEntry) :
  RegExp.compile foreign (toLowerCase q) = Throw SyntaxError ->
  Memory.calculateSimilarity foreign q m
  = Throw (Spec.scoring_error (Memory.title m) (Memory.content m)).
Proof.
  intros Hq. unfold Memory.calculateSimilarity.
  destruct (Memory.title m) as [t|]; [|reflexivity].
  destruct (Memory.content m) as [c|]; [|reflexivity].
  cbn [defined mbind completion_bind cbind]. rewrite Hq. reflexivity.
Qed.

(** A filter whose test reads a property that may be undefined throws
    nothing but a [TypeError]. *)
Lemma filter_completion_Throw {A} (p : A -> completion bool) (xs : list A) (e : JsError) :
  (forall x e', p x = Throw e' -> e' = TypeError) ->
  filter_completion p xs = Throw e -> e = TypeError.
Proof.
  intros Hp. induction xs as [|x xs IH]; simpl; [discriminate|].
  destruct (p x) as [keep|e'] eqn:Hx; simpl.
  - destruct (filter_completion p xs) as [ys|e'']; simpl; [discriminate|].
    intros H. apply IH. exact H.
  - intros H. injection H as <-. apply (Hp x). exact Hx.
Qed.

Lemma defined_test_Throw {A} (get : A -> option string) (test : string -> bool)
    (x : A) (e : JsError) :
  (own ← defined (get x); Return (test own)) = Throw e -> e = TypeError.
Proof.
  destruct (get x); cbn [defined mbind completion_bind cbind]; [discriminate|].
  intros H. injection H as <-. reflexivity.
Qed.

(** The filters of [searchMemories] throw nothing but a [TypeError]. *)
Lemma filteredMemories_Throw (memories : list Memory.MemoryEntry)
    (args : Memory.SearchArgs) (e : JsError) :
  Memory.filteredMemories memories args = Throw e -> e = TypeError.
Proof.
  unfold Memory.filteredMemories, Memory.filter_project, Memory.filter_category.
  destruct (truthy (Memory.arg_filter_project args)) as [p|].
  - destruct (filter_completion _ memories) as [ms|e'] eqn:Hp;
      cbn [mbind completion_bind cbind].
    + destruct (truthy (Memory.arg_filter_category args)) as [c|];
        [|discriminate].
      destruct (filter_completion _ ms) as [ms'|e'] eqn:Hc;
        cbn [mbind completion_bind cbind]; [discriminate|].
      intros H. injection H as <-.
      apply (filter_completion_Throw _ _ _
               (fun x e' => defined_test_Throw Memory.category _ x e') Hc).
    + intros H. injection H as <-.
      apply (filter_completion_Throw _ _ _
               (fun x e' => defined_test_Throw Memory.project _ x e') Hp).
  - cbn [mbind completion_bind cbind].
    destruct (truthy (Memory.arg_filter_category args)) as [c|]; [|discriminate].
    destruct (filter_completion _ memories) as [ms'|e'] eqn:Hc;
      cbn [mbind completion_bind cbind]; [discriminate|].
    intros H. injection H as <-.
    apply (filter_completion_Throw _ _ _
             (fun x e' => defined_test_Throw Memory.category _ x e') Hc).
Qed.

End PatternErrors.

(** C2, as stated, fails: with the query [(] the search over a store with
    one record throws the [SyntaxError] of [new RegExp] and returns no
    result, in the rule store and in the memory store alike. *)
Lemma search_throws_on_open_paren :
  RegExp.compile strict (toLowerCase "(") = Throw SyntaxError
  /\ Rules.searchRules strict (Rules.mkServer [rule_git] [] None None true)
       (Rules.mkSearchArgs "(" None None None) = Throw SyntaxError
  /\ Memory.searchMemories strict [memory_git]
       (Memory.mkSearchArgs "(" None None None None) = Throw SyntaxError.
Proof. repeat split; reflexivity. Qed.

(** The same whatever the engine does outside the modelled syntax. *)
Lemma search_throws_on_open_paren_any_engine (foreign : RegExp.engine) :
  Rules.searchRules foreign (Rules.mkServer [rule_git] [] None None true)
    (Rules.mkSearchArgs "(" None None None) = Throw SyntaxError
  /\ Memory.searchMemories foreign [memory_git]
       (Memory.mkSearchArgs "(" None None None None) = Throw SyntaxError.
Proof. split; reflexivity. Qed.

(** C2, amended: for a query whose lowercased text is not a valid
    pattern, the search throws as soon as one record passes the filters:
    the error is that of the first such record, the [SyntaxError] of
    [new RegExp] when its title and content are defined and the
    [TypeError] of reading them otherwise, and nothing is scored, ranked
    or returned. In the memory store the filters can throw before that,
    and then a [TypeError], which the search throws in turn. Only when the
    filters return and no record passes them does the search return, and
    then the empty result. *)
Theorem invalid_pattern_aborts_search (foreign : RegExp.engine) (q : string) :
  RegExp.compile foreign (toLowerCase q) = Throw SyntaxError ->
  (forall (this : Rules.Server) (args : Rules.SearchArgs),
      Rules.query args = q ->
      (Rules.filteredRules this args = [] -> Rules.searchRules foreign this args = Return [])
      /\ (forall (r : Rules.Rule) (rest : list Rules.Rule),
          Rules.filteredRules this args = r :: rest ->
          Rules.searchRules foreign this args
          = Throw (Spec.scoring_error (Rules.title r) (Rules.content r))))
  /\ (forall (memories : list Memory.MemoryEntry) (args : Memory.SearchArgs),
      Memory.query args = q ->
      (Memory.filteredMemories memories args = Return [] ->
       Memory.searchMemories foreign memories args = Return [])
      /\ (forall (m : Memory.MemoryEntry) (rest : list Memory.MemoryEntry),
          Memory.filteredMemories memories args = Return (m :: rest) ->
          Memory.searchMemories foreign memories args
          = Throw (Spec.scoring_error (Memory.title m) (Memory.content m)))
      /\ (forall e : JsError,
          Memory.filteredMemories memories args = Throw e ->
          e = TypeError
          /\ Memory.searchMemories foreign memories args = Throw TypeError)).
Proof.
  intros Hq. split.
  - intros this args <-. unfold Rules.searchRules. split.
    + intros ->. cbn [map_completion mbind completion_bind cbind filter list_filter].
      change (JsArray.sort _ []) with (@nil Rules.SearchResult).
      rewrite slice0_nil. reflexivity.
    + intros r rest ->.
      cbn [map_completion mbind completion_bind cbind].
      rewrite (rule_score_throws foreign _ r Hq). reflexivity.
  - intros memories args <-. unfold Memory.searchMemories. split; [|split].
    + intros ->. cbn [map_completion mbind completion_bind cbind filter list_filter].
      change (JsArray.sort _ []) with (@nil Memory.SearchResult).
      rewrite slice0_nil. reflexivity.
    + intros m rest ->. cbn [map_completion mbind completion_bind cbind].
      unfold Memory.score_entry. cbn [mbind completion_bind cbind].
      rewrite (memory_score_throws foreign _ m Hq). reflexivity.
    + intros e He. pose proof (filteredMemories_Throw _ _ _ He) as ->.
      split; [reflexivity|]. rewrite He. reflexivity.
Qed.

Lemma invalid_pattern_aborts_search_witness :
  RegExp.compile strict (toLowerCase "a**") = Throw SyntaxError
  /\ Rules.searchRules strict (Rules.mkServer [rule_git; rule_ab] [] None None true)
       (Rules.mkSearchArgs "a**" (Some "git") None (Some 3%Z)) = Throw SyntaxError
  /\ Rules.searchRules strict (Rules.mkServer [rule_untitled; rule_git] [] None None true)
       (Rules.mkSearchArgs "a**" (Some "git") None (Some 3%Z)) = Throw TypeError
  /\ Rules.searchRules strict (Rules.mkServer [rule_git; rule_ab] [] None None true)
       (Rules.mkSearchArgs "a**" (Some "testing") None (Some 3%Z)) = Return []
  /\ Memory.searchMemories strict [memory_git; memory_untitled]
       (Memory.mkSearchArgs "a**" None None None None) = Throw SyntaxError
  /\ Memory.searchMemories strict [memory_untitled; memory_git]
       (Memory.mkSearchArgs "a**" None None None None) = Throw TypeError
  /\ Memory.searchMemories strict [memory_git]
       (Memory.mkSearchArgs "a**" (Some "blog") None None None) = Return []
  /\ Memory.searchMemories strict [memory_git; memory_uncategorised]
       (Memory.mkSearchArgs "a**" None (Some "notes") None None) = Throw TypeError.
Proof.
  split; [reflexivity|].
  destruct (invalid_pattern_aborts_search strict "a**" eq_refl) as [Hr Hm].
  split; [|split; [|split; [|split; [|split; [|split]]]]].
  - apply (proj2 (Hr (Rules.mkServer [rule_git; rule_ab] [] None None true)
                     (Rules.mkSearchArgs "a**" (Some "git") None (Some 3%Z)) eq_refl)
             rule_git []).
    reflexivity.
  - apply (proj2 (Hr (Rules.mkServer [rule_untitled; rule_git] [] None None true)
                     (Rules.mkSearchArgs "a**" (Some "git") None (Some 3%Z)) eq_refl)
             rule_untitled [rule_git]).
    reflexivity.
  - apply (Hr (Rules.mkServer [rule_git; rule_ab] [] None None true)
              (Rules.mkSearchArgs "a**" (Some "testing") None (Some 3%Z)) eq_refl).
    reflexivity.
  - apply (proj1 (proj2 (Hm [memory_git; memory_untitled]
                            (Memory.mkSearchArgs "a**" None None None None) eq_refl))
             memory_git [memory_untitled]).
    reflexivity.
  - apply (proj1 (proj2 (Hm [memory_untitled; memory_git]
                            (Memory.mkSearchArgs "a**" None None None None) eq_refl))
             memory_untitled [memory_git]).
    reflexivity.
  - apply (Hm [memory_git] (Memory.mkSearchArgs "a**" (Some "blog") None None None) eq_refl).
    reflexivity.
  - apply (proj2 (proj2 (Hm [memory_git; memory_uncategorised]
                            (Memory.mkSearchArgs "a**" None (Some "notes") None None)
                            eq_refl)) TypeError).
    reflexivity.
Defined.

(** ** The tags filter *)

Section TagsFilter.

Lemma some_Exists {A} (p : A -> bool) (xs : list A) :
  JsArray.some p xs <-> Exists (fun x => p x) xs.
Proof.
  unfold JsArray.some. induction xs as [|x xs IH]; simpl.
  - split; [intros []|intros H; inversion H].
  - rewrite Exists_cons, <- IH. destruct (p x); simpl; tauto.
Qed.

Lemma one_way_tag_filter_some (requested recordTags : list string) :
  JsArray.some (fun tag =>
    JsArray.some (fun recordTag => includes (toLowerCase recordTag) (toLowerCase tag))
                 recordTags) requested
  <-> Spec.one_way_tag_filter requested recordTags.
Proof.
  unfold Spec.one_way_tag_filter. rewrite some_Exists.
  apply Exists_proper; [|reflexivity]. intros Q. apply some_Exists.
Qed.

End TagsFilter.

(** C3, as stated, fails: a record tagged [auth] is dropped when the
    requested tag is [authentication], although the record tag is a
    substring of the requested one. *)
Lemma tags_filter_not_symmetric :
  Spec.symmetric_tag_filter ["authentication"] ["auth"]
  /\ Rules.filter_tags (Some ["authentication"])
       [Rules.mkRule "sec-001" (Some "Login") "security" "d" (Some "c") ["auth"] [] []
          "t0" "1.0.0"] = []
  /\ Memory.filter_tags (Some ["authentication"])
       [Memory.mkMemory "mem_1" (Some "site") (Some "security") (Some "Login") (Some "c")
          ["auth"] "t0" []] = [].
Proof.
  split; [|split; reflexivity].
  unfold Spec.symmetric_tag_filter. apply Exists_cons_hd, Exists_cons_hd.
  vm_compute. exact I.
Qed.

(** C3, amended: for a non-empty list of requested tags, the tags filter
    keeps, in order, exactly the records with a tag T and a requested tag
    Q such that lowercased Q is a substring of lowercased T; a record tag
    that is only a substring of a requested tag does not count. *)
Theorem tags_filter_one_way (requested : list string) :
  requested <> [] ->
  (forall rs : list Rules.Rule,
      Rules.filter_tags (Some requested) rs
      = filter (fun r => Spec.one_way_tag_filter requested (Rules.tags r)) rs)
  /\ (forall ms : list Memory.MemoryEntry,
      Memory.filter_tags (Some requested) ms
      = filter (fun m => Spec.one_way_tag_filter requested (Memory.tags m)) ms)
  /\ (forall recordTags : list string,
      Spec.one_way_tag_filter requested recordTags
      <-> exists Q T, Q ∈ requested /\ T ∈ recordTags
                      /\ includes (toLowerCase T) (toLowerCase Q) = true).
Proof.
  intros Hne. destruct requested as [|t ts]; [congruence|]. split; [|split].
  - intros rs. unfold Rules.filter_tags. apply list_filter_iff.
    intros r. apply one_way_tag_filter_some.
  - intros ms. unfold Memory.filter_tags. apply list_filter_iff.
    intros m. apply one_way_tag_filter_some.
  - intros recordTags. unfold Spec.one_way_tag_filter. rewrite Exists_exists. split.
    + intros (Q & HQ & HT). apply Exists_exists in HT as (T & HT & Hin).
      exists Q, T. repeat split; auto. apply Is_true_true. exact Hin.
    + intros (Q & T & HQ & HT & Hin). exists Q. split; [exact HQ|].
      apply Exists_exists. exists T. split; [exact HT|]. apply Is_true_true. exact Hin.
Qed.

Lemma tags_filter_one_way_witness :
  Rules.filter_tags (Some ["COMMIT"; "auth"]) [rule_ab; rule_git; rule_ab] = [rule_git].
Proof.
  destruct (tags_filter_one_way ["COMMIT"; "auth"] ltac:(discriminate)) as [Hr _].
  rewrite Hr. vm_compute. reflexivity.
Defined.

(** ** The id allocator *)

Section IdAllocator.

Lemma toString_length_1 (n : nat) : n < 10 -> String.length (toString n) = 1.
Proof.
  intros H. do 10 (destruct n as [|n]; [reflexivity|]). lia.
Qed.

Lemma toString_length_2 (n : nat) : 10 <= n -> n < 100 -> String.length (toString n) = 2.
Proof.
  intros H1 H2. do 10 (destruct n as [|n]; [lia|]).
  do 90 (destruct n as [|n]; [reflexivity|]). lia.
Qed.

Lemma nil_zero_length (d : Decimal.uint) :
  d <> Decimal.Nil ->
  String.length (NilZero.string_of_uint d) = Decimal.nb_digits d.
Proof.
  intros Hd. destruct d; [congruence|..]; simpl; f_equal;
    match goal with |- _ = Decimal.nb_digits ?u => clear Hd; induction u; simpl; auto end.
Qed.

Lemma two_digits_below_100 (d : Decimal.uint) :
  Decimal.nb_digits d <= 2 -> Nat.of_uint d < 100.
Proof.
  intros H. destruct d as [|d|d|d|d|d|d|d|d|d|d]; [vm_compute; lia|..];
    (destruct d as [|d|d|d|d|d|d|d|d|d|d]; [vm_compute; lia|..];
     (destruct d; [vm_compute; lia|..]; simpl in H; lia)).
Qed.

Lemma toString_length_3 (n : nat) : 100 <= n -> 3 <= String.length (toString n).
Proof.
  intros H. unfold toString.
  destruct (Nat.to_uint n) as [| | | | | | | | | |] eqn:Hnil.
  1: { pose proof (DecimalNat.Unsigned.of_to n) as Hn. rewrite Hnil in Hn.
       vm_compute in Hn. lia. }
  all: rewrite <- Hnil; assert (Hne : Nat.to_uint n <> Decimal.Nil) by (rewrite Hnil; discriminate);
    clear Hnil; rewrite nil_zero_length by exact Hne;
    destruct (le_lt_dec (Decimal.nb_digits (Nat.to_uint n)) 2) as [Hle|Hgt]; [|lia];
    apply two_digits_below_100 in Hle;
    rewrite DecimalNat.Unsigned.of_to in Hle; lia.
Qed.

(** [padStart(3, "0")] of a decimal numeral is its zero padding to width 3. *)
Lemma padStart_zero_padded (n : nat) :
  padStart (toString n) 3 "0" = Spec.zero_padded_3 n.
Proof.
  unfold padStart, Spec.zero_padded_3.
  destruct (Nat.ltb_spec n 10) as [H10|H10].
  - rewrite toString_length_1 by exact H10. reflexivity.
  - destruct (Nat.ltb_spec n 100) as [H100|H100].
    + rewrite toString_length_2 by assumption. reflexivity.
    + pose proof (toString_length_3 n H100) as Hlen.
      replace (3 - String.length (toString n)) with 0 by lia. reflexivity.
Qed.

Lemma createRule_appends (now : string) (args : Rules.CreateArgs) (this : Rules.Server)
    (C : string) :
  Rules.arg_category args = Some C ->
  exists rule,
    Rules.this_rules (snd (Rules.createRule now args this))
    = (Rules.this_rules this ++ [rule])%list
    /\ Rules.this_categories (snd (Rules.createRule now args this))
       = Rules.add_member (Rules.this_categories this) C (Rules.id rule)
    /\ rule = Rules.mkRule (Rules.generateId this C) (Rules.arg_title args) C
                (or_string (Rules.arg_description args) EmptyString)
                (Rules.arg_content args)
                (or_array (Rules.arg_tags args) []) (or_array (Rules.arg_examples args) [])
                [] now "1.0.0"
    /\ (Rules.writable this = true ->
        fst (Rules.createRule now args this) = Return rule
        /\ Rules.rulesFile (snd (Rules.createRule now args this))
           = Some (Rules.this_rules this ++ [rule])%list
        /\ Rules.categoriesFile (snd (Rules.createRule now args this))
           = Some (Rules.add_member (Rules.this_categories this) C (Rules.id rule)))
    /\ (Rules.writable this = false ->
        fst (Rules.createRule now args this) = Throw (Error "Failed to save rules")
        /\ Rules.rulesFile (snd (Rules.createRule now args this)) = Rules.rulesFile this
        /\ Rules.categoriesFile (snd (Rules.createRule now args this))
           = Rules.categoriesFile this).
Proof.
  intros HC. unfold Rules.createRule, Rules.saveRules. rewrite HC.
  eexists. cbn [Rules.writable Rules.this_rules Rules.this_categories Rules.id].
  destruct (Rules.writable this); cbn; repeat split; try reflexivity; discriminate.
Qed.

End IdAllocator.

(** C4: two creates in the categories [git] and [github], from the empty
    store, hand out the same id twice; the records of the store no longer
    have pairwise distinct ids. *)
Theorem generateId_collides_across_categories :
  Rules.id <$> Rules.this_rules store_git_github = ["git-001"; "git-001"]
  /\ Rules.category <$> Rules.this_rules store_git_github = ["git"; "github"]
  /\ ~ NoDup (Rules.id <$> Rules.this_rules store_git_github).
Proof.
  assert (Hids : Rules.id <$> Rules.this_rules store_git_github = ["git-001"; "git-001"])
    by reflexivity.
  split; [exact Hids|]. split; [reflexivity|].
  rewrite Hids. intros Hnd. apply NoDup_cons in Hnd as [Hnotin _].
  apply Hnotin. constructor.
Qed.

(** C5: the id minted for a new rule in category C is the first three
    characters of C lowercased, a hyphen, and the decimal value, zero
    padded to width 3, of one more than the number of stored rules whose
    category is exactly C; and after the deletion of a rule in C the next
    create in C hands out an id that was assigned before. *)
Theorem generateId_counts_category :
  (forall (now : string) (args : Rules.CreateArgs) (this : Rules.Server) (C : string),
      Rules.arg_category args = Some C ->
      exists rule,
        Rules.this_rules (snd (Rules.createRule now args this))
        = (Rules.this_rules this ++ [rule])%list
        /\ Rules.id rule
           = toLowerCase (substring 0 3 C) +:+ "-" +:+
             Spec.zero_padded_3
               (length (filter (fun r => Rules.category r = C) (Rules.this_rules this)) + 1))
  /\ (Rules.id <$> Rules.this_rules store_three_git = ["git-001"; "git-002"; "git-003"]
      /\ Rules.id <$> Rules.this_rules store_recreated = ["git-001"; "git-003"; "git-003"]).
Proof.
  split.
  - intros now args this C HC.
    destruct (createRule_appends now args this C HC) as (rule & Hrules & _ & Hrule & _).
    exists rule. split; [exact Hrules|].
    rewrite Hrule. cbn [Rules.id]. unfold Rules.generateId.
    rewrite padStart_zero_padded. reflexivity.
  - split; reflexivity.
Qed.

Lemma generateId_counts_category_witness :
  exists rule,
    Rules.this_rules (snd (Rules.createRule "t3" (args_in "Security") store_three_git))
    = (Rules.this_rules store_three_git ++ [rule])%list
    /\ Rules.id rule = "sec-001".
Proof.
  destruct (proj1 generateId_counts_category "t3" (args_in "Security") store_three_git
              "Security" eq_refl) as (rule & Hrules & Hid).
  exists rule. split; [exact Hrules|]. rewrite Hid. reflexivity.
Defined.

(** ** The mutating handlers *)

Section Handlers.

(** [findIndex] returns the first index whose rule has the id. *)
Lemma findIndex_first (rs : list Rules.Rule) (id_ : string) (i : nat) (r : Rules.Rule) :
  rs !! i = Some r -> Rules.id r = id_ ->
  (forall j r0, rs !! j = Some r0 -> j < i -> Rules.id r0 <> id_) ->
  list_find (fun r0 => Rules.id r0 = id_) rs = Some (i, r).
Proof. intros Hi Hid Hfirst. apply list_find_Some. auto. Qed.

Lemma saveRules_memory (this : Rules.Server) :
  Rules.this_rules (snd (Rules.saveRules this)) = Rules.this_rules this
  /\ Rules.this_categories (snd (Rules.saveRules this)) = Rules.this_categories this.
Proof. unfold Rules.saveRules. destruct (Rules.writable this); split; reflexivity. Qed.

Lemma updateRule_state (now id_ : string) (updates : Rules.Updates) (this : Rules.Server)
    (i : nat) (r : Rules.Rule) :
  list_find (fun r0 => Rules.id r0 = id_) (Rules.this_rules this) = Some (i, r) ->
  Rules.this_rules (snd (Rules.updateRule now id_ updates this))
  = <[i := Rules.merge r updates now]> (Rules.this_rules this)
  /\ Rules.this_categories (snd (Rules.updateRule now id_ updates this))
     = Rules.this_categories this
  /\ (Rules.writable this = true ->
      fst (Rules.updateRule now id_ updates this) = Return tt).
Proof.
  intros Hfind. unfold Rules.updateRule. rewrite Hfind.
  unfold Rules.saveRules. cbn [Rules.writable Rules.this_rules Rules.this_categories].
  destruct (Rules.writable this); repeat split; try reflexivity; discriminate.
Qed.

Lemma deleteRule_state (id_ : string) (this : Rules.Server) (i : nat) (r : Rules.Rule) :
  list_find (fun r0 => Rules.id r0 = id_) (Rules.this_rules this) = Some (i, r) ->
  Rules.this_rules (snd (Rules.deleteRule id_ this)) = delete i (Rules.this_rules this)
  /\ Rules.this_categories (snd (Rules.deleteRule id_ this))
     = Rules.remove_member (Rules.this_categories this) (Rules.category r) id_.
Proof.
  intros Hfind. unfold Rules.deleteRule. rewrite Hfind.
  unfold Rules.saveRules. cbn [Rules.writable Rules.this_rules Rules.this_categories].
  destruct (Rules.writable this); split; reflexivity.
Qed.

Lemma add_member_spec (cats : list Rules.RuleCategory) (C ruleId : string) :
  exists cat, cat ∈ Rules.add_member cats C ruleId
              /\ Rules.name cat = C /\ ruleId ∈ Rules.rules cat.
Proof.
  unfold Rules.add_member.
  destruct (list_find _ cats) as [[i c]|] eqn:Hfind.
  - apply list_find_Some in Hfind as (Hi & Hname & _).
    eexists. split; [|split].
    + eapply list_elem_of_lookup_2. apply list_lookup_insert_eq.
      eapply lookup_lt_Some, Hi.
    + exact Hname.
    + cbn. apply elem_of_app. right. constructor.
  - eexists. split; [|split].
    + apply elem_of_app. right. constructor.
    + reflexivity.
    + constructor.
Qed.

Lemma remove_member_spec (cats : list Rules.RuleCategory) (C ruleId : string) (j : nat)
    (cat : Rules.RuleCategory) :
  list_find (fun c => Rules.name c = C) cats = Some (j, cat) ->
  exists cat', Rules.remove_member cats C ruleId !! j = Some cat'
               /\ Rules.name cat' = Rules.name cat /\ ruleId ∉ Rules.rules cat'.
Proof.
  intros Hfind. unfold Rules.remove_member. rewrite Hfind.
  apply list_find_Some in Hfind as (Hj & _ & _).
  eexists. split; [|split].
  - apply list_lookup_insert_eq. eapply lookup_lt_Some, Hj.
  - reflexivity.
  - cbn. intros Hin. apply list_elem_of_filter in Hin as [Hne _]. congruence.
Qed.

End Handlers.

(** C8: an update of an existing rule keeps its id, stamps it with the
    current instant, replaces the fields that were supplied by the
    supplied values, and leaves the other fields of the record, the other
    records, and the length of the store as they were. The record that
    [findIndex] designates is the first one with the id. *)
Theorem updateRule_merges_in_place (now id_ : string) (updates : Rules.Updates)
    (this : Rules.Server) (i : nat) (r : Rules.Rule) :
  Rules.this_rules this !! i = Some r ->
  Rules.id r = id_ ->
  (forall j r0, Rules.this_rules this !! j = Some r0 -> j < i -> Rules.id r0 <> id_) ->
  exists r',
    Rules.this_rules (snd (Rules.updateRule now id_ updates this)) !! i = Some r'
    /\ Rules.id r' = Rules.id r
    /\ Rules.timestamp r' = now
    /\ Rules.title r' = from_option Some (Rules.title r) (Rules.upd_title updates)
    /\ Rules.category r' = default (Rules.category r) (Rules.upd_category updates)
    /\ Rules.description r' = default (Rules.description r) (Rules.upd_description updates)
    /\ Rules.content r' = from_option Some (Rules.content r) (Rules.upd_content updates)
    /\ Rules.tags r' = default (Rules.tags r) (Rules.upd_tags updates)
    /\ Rules.examples r' = default (Rules.examples r) (Rules.upd_examples updates)
    /\ Rules.relatedRules r'
       = default (Rules.relatedRules r) (Rules.upd_relatedRules updates)
    /\ Rules.version r' = default (Rules.version r) (Rules.upd_version updates)
    /\ length (Rules.this_rules (snd (Rules.updateRule now id_ updates this)))
       = length (Rules.this_rules this)
    /\ (forall j, j <> i ->
        Rules.this_rules (snd (Rules.updateRule now id_ updates this)) !! j
        = Rules.this_rules this !! j)
    /\ (Rules.writable this = true ->
        fst (Rules.updateRule now id_ updates this) = Return tt).
Proof.
  intros Hi Hid Hfirst.
  pose proof (findIndex_first _ _ _ _ Hi Hid Hfirst) as Hfind.
  destruct (updateRule_state now id_ updates this i r Hfind) as (Hrules & _ & Hret).
  exists (Rules.merge r updates now). rewrite Hrules.
  split; [apply list_lookup_insert_eq; eapply lookup_lt_Some, Hi|].
  do 10 (split; [reflexivity|]).
  split; [apply length_insert|]. split; [|exact Hret].
  intros j Hj. apply list_lookup_insert_ne. congruence.
Qed.

Lemma updateRule_merges_in_place_witness :
  exists r',
    Rules.this_rules (snd (Rules.updateRule "t9" "git-002" updates_move store_three_git))
      !! 1 = Some r'
    /\ Rules.id r' = "git-002" /\ Rules.timestamp r' = "t9"
    /\ Rules.title r' = Some "Moved" /\ Rules.content r' = Some "Do this.".
Proof.
  destruct (updateRule_merges_in_place "t9" "git-002" updates_move store_three_git 1
              (Rules.mkRule "git-002" (Some "A rule") "git" EmptyString (Some "Do this.")
                 [] [] [] "t1" "1.0.0"))
    as (r' & Hl & H1 & H2 & H3 & _ & _ & H4 & _).
  - reflexivity.
  - reflexivity.
  - intros j r0 Hj Hlt. destruct j as [|[|j]]; [|lia|lia].
    vm_compute in Hj. injection Hj as <-. vm_compute. discriminate.
  - exists r'. repeat split; assumption.
Defined.

(** C9, as stated, fails: a create request with a category and neither
    title nor content is not rejected; the record is appended, its title
    and content undefined. *)
Lemma createRule_accepts_missing_fields :
  fst (Rules.createRule "t0" args_bare store_empty)
  = Return (Rules.mkRule "git-001" None "git" EmptyString None [] [] [] "t0" "1.0.0")
  /\ Rules.this_rules (snd (Rules.createRule "t0" args_bare store_empty))
     = [Rules.mkRule "git-001" None "git" EmptyString None [] [] [] "t0" "1.0.0"].
Proof. split; reflexivity. Qed.

(** C9, amended: the create operation checks nothing. Without a category
    it fails with a [TypeError] before anything is appended; with a
    category, whether or not title and content are there, it mints the
    id, stamps the timestamp, appends the record and, the backing
    directory accepting the write, persists both arrays. *)
Theorem createRule_outcomes (now : string) (args : Rules.CreateArgs) (this : Rules.Server) :
  (Rules.arg_category args = None ->
   Rules.createRule now args this = (Throw TypeError, this))
  /\ (forall C : string,
      Rules.arg_category args = Some C -> Rules.writable this = true ->
      exists rule this',
        Rules.createRule now args this = (Return rule, this')
        /\ Rules.this_rules this' = (Rules.this_rules this ++ [rule])%list
        /\ Rules.id rule = Rules.generateId this C
        /\ Rules.timestamp rule = now
        /\ Rules.title rule = Rules.arg_title args
        /\ Rules.category rule = C
        /\ Rules.content rule = Rules.arg_content args
        /\ Rules.rulesFile this' = Some (Rules.this_rules this')
        /\ Rules.categoriesFile this' = Some (Rules.this_categories this')).
Proof.
  split.
  - intros HC. unfold Rules.createRule. rewrite HC. reflexivity.
  - intros C HC Hw.
    destruct (createRule_appends now args this C HC)
      as (rule & Hrules & Hcats & Hrule & Hok & _).
    destruct (Hok Hw) as (Hret & Hf1 & Hf2).
    exists rule, (snd (Rules.createRule now args this)).
    split; [rewrite <- Hret; apply surjective_pairing|].
    split; [exact Hrules|].
    rewrite Hrule at 1 2 3 4 5. cbn [Rules.id Rules.timestamp Rules.title Rules.category
                                      Rules.content].
    do 5 (split; [reflexivity|]).
    rewrite Hrules, Hcats. split; assumption.
Qed.

Lemma createRule_outcomes_witness :
  Rules.createRule "t0" args_no_category store_three_git = (Throw TypeError, store_three_git)
  /\ exists rule this',
      Rules.createRule "t3" (args_in "git") store_three_git = (Return rule, this')
      /\ Rules.id rule = "git-004"
      /\ Rules.rulesFile this' = Some (Rules.this_rules this').
Proof.
  split.
  - apply (proj1 (createRule_outcomes "t0" args_no_category store_three_git)). reflexivity.
  - destruct (proj2 (createRule_outcomes "t3" (args_in "git") store_three_git)
                "git" eq_refl eq_refl)
      as (rule & this' & Hrun & _ & Hid & _ & _ & _ & _ & Hfile & _).
    exists rule, this'. split; [exact Hrun|]. split; [|exact Hfile].
    rewrite Hid. reflexivity.
Defined.

(** C10: an update that supplies a category changes the category of the
    record and nothing in the category index, so the member lists keep
    the id where create had put it; create does enter the new id in the
    member list of its category, and delete does take the id out of the
    member list of the category of the deleted record. *)
Theorem updateRule_leaves_category_index :
  (forall (now id_ : string) (updates : Rules.Updates) (this : Rules.Server)
          (i : nat) (r : Rules.Rule) (C : string),
      Rules.this_rules this !! i = Some r ->
      Rules.id r = id_ ->
      (forall j r0, Rules.this_rules this !! j = Some r0 -> j < i -> Rules.id r0 <> id_) ->
      Rules.upd_category updates = Some C ->
      Rules.this_categories (snd (Rules.updateRule now id_ updates this))
      = Rules.this_categories this
      /\ exists r',
          Rules.this_rules (snd (Rules.updateRule now id_ updates this)) !! i = Some r'
          /\ Rules.id r' = id_ /\ Rules.category r' = C)
  /\ (forall (now : string) (args : Rules.CreateArgs) (this : Rules.Server) (C : string),
      Rules.arg_category args = Some C ->
      exists cat,
        cat ∈ Rules.this_categories (snd (Rules.createRule now args this))
        /\ Rules.name cat = C /\ Rules.generateId this C ∈ Rules.rules cat)
  /\ (forall (id_ : string) (this : Rules.Server) (i : nat) (r : Rules.Rule)
             (j : nat) (cat : Rules.RuleCategory),
      Rules.this_rules this !! i = Some r ->
      Rules.id r = id_ ->
      (forall j r0, Rules.this_rules this !! j = Some r0 -> j < i -> Rules.id r0 <> id_) ->
      list_find (fun c => Rules.name c = Rules.category r) (Rules.this_categories this)
      = Some (j, cat) ->
      exists cat',
        Rules.this_categories (snd (Rules.deleteRule id_ this)) !! j = Some cat'
        /\ Rules.name cat' = Rules.name cat /\ id_ ∉ Rules.rules cat').
Proof.
  split; [|split].
  - intros now id_ updates this i r C Hi Hid Hfirst HC.
    pose proof (findIndex_first _ _ _ _ Hi Hid Hfirst) as Hfind.
    destruct (updateRule_state now id_ updates this i r Hfind) as (Hrules & Hcats & _).
    split; [exact Hcats|].
    exists (Rules.merge r updates now). rewrite Hrules.
    split; [apply list_lookup_insert_eq; eapply lookup_lt_Some, Hi|].
    split; [exact Hid|]. cbn. rewrite HC. reflexivity.
  - intros now args this C HC.
    destruct (createRule_appends now args this C HC) as (rule & _ & Hcats & Hrule & _).
    rewrite Hcats.
    replace (Rules.generateId this C) with (Rules.id rule) by (rewrite Hrule; reflexivity).
    apply add_member_spec.
  - intros id_ this i r j cat Hi Hid Hfirst Hcat.
    pose proof (findIndex_first _ _ _ _ Hi Hid Hfirst) as Hfind.
    destruct (deleteRule_state id_ this i r Hfind) as (_ & Hcats).
    rewrite Hcats. apply remove_member_spec. exact Hcat.
Qed.

Lemma updateRule_leaves_category_index_witness :
  Rules.this_categories (snd (Rules.updateRule "t9" "git-002" updates_move store_three_git))
  = [Rules.mkCategory "git" "Rules for git" ["git-001"; "git-002"; "git-003"]]
  /\ exists r',
      Rules.this_rules (snd (Rules.updateRule "t9" "git-002" updates_move store_three_git))
        !! 1 = Some r'
      /\ Rules.id r' = "git-002" /\ Rules.category r' = "testing".
Proof.
  destruct (proj1 updateRule_leaves_category_index "t9" "git-002" updates_move
              store_three_git 1
              (Rules.mkRule "git-002" (Some "A rule") "git" EmptyString (Some "Do this.")
                 [] [] [] "t1" "1.0.0") "testing") as [Hcats Hrule].
  - reflexivity.
  - reflexivity.
  - intros j r0 Hj Hlt. destruct j as [|[|j]]; [|lia|lia].
    vm_compute in Hj. injection Hj as <-. vm_compute. discriminate.
  - reflexivity.
  - split; [rewrite Hcats; reflexivity|exact Hrule].
Defined.

(** ** Ranking: [filter], [sort], [slice] *)

Section StronglySortedFacts.

Context {A : Type} (R : A -> A -> Prop).

Lemma StronglySorted_take (n : nat) (l : list A) :
  StronglySorted R l -> StronglySorted R (take n l).
Proof.
  intros H. revert n. induction H as [|x l Hl IH Hx]; intros [|n]; simpl;
    try constructor; auto.
  apply Forall_take. exact Hx.
Qed.

Lemma StronglySorted_filter (P : A -> Prop) `{forall x, Decision (P x)} (l : list A) :
  StronglySorted R l -> StronglySorted R (filter P l).
Proof.
  induction 1 as [|x l Hl IH Hx]; [constructor|].
  rewrite filter_cons. destruct (decide (P x)); [|exact IH].
  constructor; [exact IH|]. rewrite Forall_forall in Hx |- *.
  intros y Hy. apply list_elem_of_filter in Hy as [_ Hy]. auto.
Qed.

Lemma StronglySorted_lookup (l : list A) (p1 p2 : nat) (a b : A) :
  StronglySorted R l -> p1 < p2 -> l !! p1 = Some a -> l !! p2 = Some b -> R a b.
Proof.
  intros H. revert p1 p2. induction H as [|x l Hl IH Hx]; intros p1 p2 Hlt H1 H2.
  - rewrite lookup_nil in H1. discriminate.
  - destruct p2 as [|p2]; [lia|]. destruct p1 as [|p1]; simpl in *.
    + injection H1 as <-. rewrite Forall_forall in Hx. apply Hx.
      eapply list_elem_of_lookup_2, H2.
    + apply (IH p1 p2); auto. lia.
Qed.

End StronglySortedFacts.

Section Sorting.

Context {A : Type} (key : A -> nat).

(** The comparator of the source on a record with score [key]. *)
#[local] Abbreviation descending :=
  (fun a b : A => (Z.of_nat (key b) - Z.of_nat (key a))%Z).

Lemma insert_sorted_Permutation (x : A) (l : list A) :
  JsArray.insert_sorted descending x l ≡ₚ x :: l.
Proof.
  induction l as [|y l IH]; simpl; [reflexivity|].
  destruct (_ <=? 0)%Z; [reflexivity|].
  rewrite IH. apply Permutation_swap.
Qed.

Lemma sort_Permutation (l : list A) : JsArray.sort descending l ≡ₚ l.
Proof.
  induction l as [|x l IH]; simpl; [reflexivity|].
  unfold JsArray.sort in *. simpl. rewrite insert_sorted_Permutation, IH. reflexivity.
Qed.

Lemma insert_sorted_descending (x : A) (l : list A) :
  StronglySorted (fun a b => key b <= key a) l ->
  StronglySorted (fun a b => key b <= key a) (JsArray.insert_sorted descending x l).
Proof.
  induction 1 as [|y l Hl IH Hy]; simpl; [repeat constructor|].
  destruct (Z.leb_spec (Z.of_nat (key y) - Z.of_nat (key x)) 0) as [Hle|Hgt].
  - constructor; [constructor; assumption|].
    constructor; [lia|]. eapply Forall_impl; [exact Hy|]. simpl. intros z Hz. lia.
  - constructor; [exact IH|].
    rewrite insert_sorted_Permutation. constructor; [lia|exact Hy].
Qed.

(** The sorted array is in non-increasing order of score. *)
Lemma sort_descending (l : list A) :
  StronglySorted (fun a b => key b <= key a) (JsArray.sort descending l).
Proof.
  induction l as [|x l IH]; [constructor|].
  unfold JsArray.sort in *. simpl. apply insert_sorted_descending. exact IH.
Qed.

Context (pos : A -> nat).

Lemma insert_sorted_ties (x : A) (l : list A) :
  Forall (fun y => pos x < pos y) l ->
  StronglySorted (fun a b => key a = key b -> pos a < pos b) l ->
  StronglySorted (fun a b => key a = key b -> pos a < pos b)
    (JsArray.insert_sorted descending x l).
Proof.
  intros Hx Hl. induction Hl as [|y l Hl IH Hy]; simpl; [repeat constructor|].
  destruct (Z.leb_spec (Z.of_nat (key y) - Z.of_nat (key x)) 0) as [Hle|Hgt].
  - constructor; [constructor; assumption|].
    eapply Forall_impl; [exact Hx|]. simpl. auto.
  - apply Forall_cons in Hx as [_ Hx]. constructor; [apply IH; exact Hx|].
    rewrite insert_sorted_Permutation. constructor; [intros Heq; lia|exact Hy].
Qed.

(** The sort is stable: elements of equal score stay in the order of
    their positions [pos] in the input. *)
Lemma sort_ties (l : list A) :
  StronglySorted (fun a b => pos a < pos b) l ->
  StronglySorted (fun a b => key a = key b -> pos a < pos b) (JsArray.sort descending l).
Proof.
  induction 1 as [|x l Hl IH Hx]; [constructor|].
  unfold JsArray.sort in *. simpl. apply insert_sorted_ties; [|exact IH].
  fold (JsArray.sort descending l). rewrite sort_Permutation. exact Hx.
Qed.

End Sorting.

Section StableSort.

Context {A : Type} (key : A -> nat).

#[local] Abbreviation descending_by :=
  (fun a b : A => (Z.of_nat (key b) - Z.of_nat (key a))%Z).

Lemma insert_sorted_class (v : nat) (x : A) (l : list A) :
  filter (fun y => key y = v) (JsArray.insert_sorted descending_by x l)
  = filter (fun y => key y = v) (x :: l).
Proof.
  induction l as [|y l IH]; simpl; [reflexivity|].
  destruct (Z.leb_spec (Z.of_nat (key y) - Z.of_nat (key x)) 0) as [Hle|Hgt]; [reflexivity|].
  rewrite (filter_cons _ y), IH, !filter_cons.
  destruct (decide (key y = v)), (decide (key x = v)); try reflexivity. lia.
Qed.

(** Sorting keeps, score by score, the records in the order of the input. *)
Lemma sort_class (v : nat) (l : list A) :
  filter (fun y => key y = v) (JsArray.sort descending_by l)
  = filter (fun y => key y = v) l.
Proof.
  induction l as [|x l IH]; [reflexivity|].
  change (JsArray.sort descending_by (x :: l))
    with (JsArray.insert_sorted descending_by x (JsArray.sort descending_by l)).
  rewrite insert_sorted_class, !filter_cons, IH. reflexivity.
Qed.

Lemma descending_unique (l1 l2 : list A) :
  StronglySorted (fun a b => key b <= key a) l1 ->
  StronglySorted (fun a b => key b <= key a) l2 ->
  (forall v, filter (fun y => key y = v) l1 = filter (fun y => key y = v) l2) ->
  l1 = l2.
Proof.
  intros H1. revert l2. induction H1 as [|x l1 Hl1 IH Hx]; intros l2 H2 Hc.
  - destruct l2 as [|y l2]; [reflexivity|].
    specialize (Hc (key y)). rewrite filter_cons_True in Hc by reflexivity. discriminate.
  - destruct H2 as [|y l2 Hl2 Hy].
    { specialize (Hc (key x)). rewrite filter_cons_True in Hc by reflexivity.
      discriminate. }
    assert (Hxy : key x = key y).
    { apply Nat.le_antisymm.
      - assert (Hin : x ∈ y :: l2).
        { pose proof (Hc (key x)) as Hcx. rewrite filter_cons_True in Hcx by reflexivity.
          assert (Hin : x ∈ filter (fun z => key z = key x) (y :: l2))
            by (rewrite <- Hcx; constructor).
          apply list_elem_of_filter in Hin. tauto. }
        apply elem_of_cons in Hin as [->|Hin]; [lia|].
        rewrite Forall_forall in Hy. apply Hy. exact Hin.
      - assert (Hin : y ∈ x :: l1).
        { pose proof (Hc (key y)) as Hcy.
          rewrite (filter_cons_True _ y) in Hcy by reflexivity.
          assert (Hin : y ∈ filter (fun z => key z = key y) (x :: l1))
            by (rewrite Hcy; constructor).
          apply list_elem_of_filter in Hin. tauto. }
        apply elem_of_cons in Hin as [->|Hin]; [lia|].
        rewrite Forall_forall in Hx. apply Hx. exact Hin. }
    assert (Heq : x = y /\ forall v, filter (fun z => key z = v) l1
                                     = filter (fun z => key z = v) l2).
    { split.
      - specialize (Hc (key x)).
        rewrite filter_cons_True in Hc by reflexivity.
        rewrite (filter_cons_True _ y) in Hc by (symmetry; exact Hxy).
        congruence.
      - intros v. specialize (Hc v). rewrite !filter_cons in Hc.
        destruct (decide (key x = v)), (decide (key y = v)); try congruence. }
    destruct Heq as [<- Htl]. f_equal. apply IH; assumption.
Qed.

(** Any list in non-increasing order of score that keeps, score by score,
    the records of [l] in their order is the result of [sort]: the
    outcome of a stable sort does not depend on the algorithm. *)
Lemma sort_is_the_stable_sort (l l' : list A) :
  StronglySorted (fun a b => key b <= key a) l' ->
  (forall v, filter (fun y => key y = v) l' = filter (fun y => key y = v) l) ->
  l' = JsArray.sort descending_by l.
Proof.
  intros Hsorted Hclass. apply descending_unique; [exact Hsorted|apply sort_descending|].
  intros v. rewrite sort_class. apply Hclass.
Qed.

End StableSort.


Section Naturality.

Context {A B : Type} (f : B -> A).

Lemma insert_sorted_fmap (compareFn : A -> A -> Z) (x : B) (l : list B) :
  f <$> JsArray.insert_sorted (fun a b => compareFn (f a) (f b)) x l
  = JsArray.insert_sorted compareFn (f x) (f <$> l).
Proof.
  induction l as [|y l IH]; simpl; [reflexivity|].
  destruct (_ <=? 0)%Z; simpl; [reflexivity|]. f_equal. exact IH.
Qed.

Lemma sort_fmap (compareFn : A -> A -> Z) (l : list B) :
  f <$> JsArray.sort (fun a b => compareFn (f a) (f b)) l
  = JsArray.sort compareFn (f <$> l).
Proof.
  induction l as [|x l IH]; [reflexivity|].
  change (f <$> JsArray.insert_sorted (fun a b => compareFn (f a) (f b)) x
                  (JsArray.sort (fun a b => compareFn (f a) (f b)) l)
          = JsArray.insert_sorted compareFn (f x) (JsArray.sort compareFn (f <$> l))).
  rewrite insert_sorted_fmap, IH. reflexivity.
Qed.

Lemma filter_fmap (P : A -> Prop) `{forall x, Decision (P x)} (l : list B) :
  f <$> filter (fun x => P (f x)) l = filter P (f <$> l).
Proof.
  induction l as [|x l IH]; [reflexivity|].
  rewrite fmap_cons, !filter_cons. destruct (decide (P (f x))); [|exact IH].
  rewrite fmap_cons. f_equal. exact IH.
Qed.

Lemma slice0_fmap (l : list B) (end_ : Z) :
  f <$> JsArray.slice0 l end_ = JsArray.slice0 (f <$> l) end_.
Proof.
  unfold JsArray.slice0. rewrite length_fmap.
  destruct (end_ <? 0)%Z; apply fmap_take.
Qed.

End Naturality.

Section Ranking.

Context {A : Type} (key : A -> nat).

#[local] Abbreviation by_key :=
  (fun a b : A => (Z.of_nat (key b) - Z.of_nat (key a))%Z).

(** The tail of [searchRules] and [searchMemories] on the scored records. *)
#[local] Abbreviation rank l limit_ :=
  (JsArray.slice0 (JsArray.sort by_key (filter (fun x => 0 < key x) l)) limit_).

Lemma slice0_is_take {B} (l : list B) (end_ : Z) :
  exists n, JsArray.slice0 l end_ = take n l.
Proof. unfold JsArray.slice0. destruct (end_ <? 0)%Z; eexists; reflexivity. Qed.

Lemma slice0_length {B} (l : list B) (end_ : Z) :
  (0 <= end_)%Z -> (Z.of_nat (length (JsArray.slice0 l end_)) <= end_)%Z.
Proof.
  intros H. unfold JsArray.slice0.
  destruct (Z.ltb_spec end_ 0) as [Hneg|_]; [lia|].
  rewrite length_take. lia.
Qed.

Lemma rank_elem_of (l : list A) (limit_ : Z) (x : A) :
  x ∈ rank l limit_ -> x ∈ l /\ 0 < key x.
Proof.
  destruct (slice0_is_take (JsArray.sort by_key (filter (fun x => 0 < key x) l)) limit_)
    as [n ->].
  intros Hx. apply subseteq_take in Hx. rewrite sort_Permutation in Hx.
  apply list_elem_of_filter in Hx. tauto.
Qed.

Lemma rank_descending (l : list A) (limit_ : Z) :
  StronglySorted (fun a b => key b <= key a) (rank l limit_).
Proof.
  destruct (slice0_is_take (JsArray.sort by_key (filter (fun x => 0 < key x) l)) limit_)
    as [n ->].
  apply StronglySorted_take, sort_descending.
Qed.

(** The records of [l], each with its index in [l]. *)
Lemma indexed_snd (l : list A) : (zip (seq 0 (length l)) l).*2 = l.
Proof. apply snd_zip. rewrite length_seq. lia. Qed.

Lemma indexed_lookup (l : list A) (i : nat) (x : A) :
  (i, x) ∈ zip (seq 0 (length l)) l -> l !! i = Some x.
Proof.
  intros Hin. apply list_elem_of_lookup_1 in Hin as [p Hp].
  apply lookup_zip_Some in Hp as [Hseq Hl].
  apply lookup_seq in Hseq as [-> _]. exact Hl.
Qed.

Lemma indexed_increasing (l : list A) (n : nat) :
  StronglySorted (fun a b : nat * A => a.1 < b.1) (zip (seq n (length l)) l).
Proof.
  revert n. induction l as [|x l IH]; intros n; [constructor|].
  simpl. constructor; [apply IH|].
  apply Forall_forall. intros [i y] Hin. apply elem_of_zip_l in Hin.
  apply elem_of_seq in Hin. simpl. lia.
Qed.

(** The ranked records come with their positions in the scored list: the
    record at a position is the ranked one, and of two ranked records with
    the same score the one ranked first has the smaller position. *)
Lemma rank_stable (l : list A) (limit_ : Z) :
  exists positions : list nat,
    length positions = length (rank l limit_)
    /\ (forall p i x, positions !! p = Some i -> rank l limit_ !! p = Some x ->
                      l !! i = Some x)
    /\ (forall p1 p2 i1 i2 a b,
           p1 < p2 ->
           positions !! p1 = Some i1 -> positions !! p2 = Some i2 ->
           rank l limit_ !! p1 = Some a -> rank l limit_ !! p2 = Some b ->
           key a = key b -> i1 < i2).
Proof.
  set (T := zip (seq 0 (length l)) l).
  set (PT := JsArray.slice0
               (JsArray.sort (fun a b : nat * A => by_key a.2 b.2)
                  (filter (fun p : nat * A => 0 < key p.2) T)) limit_).
  assert (Hsnd : PT.*2 = rank l limit_).
  { unfold PT. rewrite slice0_fmap, (sort_fmap snd by_key).
    pose proof (filter_fmap (@snd nat A) (fun x => 0 < key x) T) as Hf.
    cbn beta in Hf. rewrite Hf.
    unfold T. rewrite indexed_snd. reflexivity. }
  assert (Hin : forall i x, (i, x) ∈ PT -> l !! i = Some x).
  { intros i x Hx. unfold PT in Hx.
    destruct (slice0_is_take
                (JsArray.sort (fun a b : nat * A => by_key a.2 b.2)
                   (filter (fun p : nat * A => 0 < key p.2) T)) limit_) as [n Hn].
    rewrite Hn in Hx. apply subseteq_take in Hx.
    rewrite (sort_Permutation (fun p : nat * A => key p.2)) in Hx.
    apply list_elem_of_filter in Hx as [_ Hx]. apply indexed_lookup. exact Hx. }
  assert (Hties : StronglySorted
                    (fun a b : nat * A => key a.2 = key b.2 -> a.1 < b.1) PT).
  { unfold PT.
    destruct (slice0_is_take
                (JsArray.sort (fun a b : nat * A => by_key a.2 b.2)
                   (filter (fun p : nat * A => 0 < key p.2) T)) limit_) as [n ->].
    apply StronglySorted_take.
    apply (sort_ties (fun p : nat * A => key p.2) fst).
    apply StronglySorted_filter, indexed_increasing. }
  exists (PT.*1). rewrite <- Hsnd. split; [rewrite !length_fmap; reflexivity|]. split.
  - intros p i x Hp Hx. rewrite list_lookup_fmap in Hp. rewrite list_lookup_fmap in Hx.
    destruct (PT !! p) as [[i' x']|] eqn:Hlk; simpl in *; [|discriminate].
    injection Hp as <-. injection Hx as <-.
    apply Hin. eapply list_elem_of_lookup_2, Hlk.
  - intros p1 p2 i1 i2 a b Hlt H1 H2 Ha Hb Hkey.
    rewrite list_lookup_fmap in H1. rewrite list_lookup_fmap in H2.
    rewrite list_lookup_fmap in Ha. rewrite list_lookup_fmap in Hb.
    destruct (PT !! p1) as [[j1 a']|] eqn:Hlk1; simpl in *; [|discriminate].
    destruct (PT !! p2) as [[j2 b']|] eqn:Hlk2; simpl in *; [|discriminate].
    injection H1 as <-. injection H2 as <-. injection Ha as <-. injection Hb as <-.
    apply (StronglySorted_lookup _ PT p1 p2 (j1, a') (j2, b') Hties Hlt Hlk1 Hlk2 Hkey).
Qed.

End Ranking.

Section Search.

Context (foreign : RegExp.engine).

Lemma map_completion_Return {A B} (f : A -> completion B) (xs : list A) (ys : list B) :
  map_completion f xs = Return ys -> Forall2 (fun x y => f x = Return y) xs ys.
Proof.
  revert ys. induction xs as [|x xs IH]; intros ys H; simpl in H.
  - injection H as <-. constructor.
  - destruct (f x) as [y|] eqn:Hx; simpl in H; try discriminate.
    destruct (map_completion f xs) as [ys'|]; simpl in H; try discriminate.
    injection H as <-. constructor; auto.
Qed.

Lemma map_completion_total {A B} (f : A -> completion B) (xs : list A) :
  Forall (fun x => exists y, f x = Return y) xs ->
  exists ys, map_completion f xs = Return ys.
Proof.
  induction 1 as [|x xs [y Hy] _ [ys IH]]; simpl; [eexists; reflexivity|].
  rewrite Hy, IH. eexists; reflexivity.
Qed.

(** What [searchRules] returns is the ranking of the scored filter output. *)
Lemma searchRules_Return (this : Rules.Server) (args : Rules.SearchArgs)
    (results : list Rules.SearchResult) :
  Rules.searchRules foreign this args = Return results ->
  exists scored,
    Forall2 (fun r y => Rules.rule y = r
                        /\ Rules.calculateSimilarity foreign (Rules.query args) r
                           = Return (Rules.similarity y))
            (Rules.filteredRules this args) scored
    /\ results = JsArray.slice0
                   (JsArray.sort Rules.by_similarity
                      (filter (fun y => 0 < Rules.similarity y) scored))
                   (default 5%Z (Rules.limit args)).
Proof.
  unfold Rules.searchRules. intros H.
  destruct (map_completion _ (Rules.filteredRules this args)) as [scored|] eqn:Hmap;
    cbn [mbind completion_bind cbind] in H; try discriminate.
  injection H as <-. exists scored. split; [|reflexivity].
  apply map_completion_Return in Hmap.
  eapply Forall2_impl; [exact Hmap|]. intros r y Hy. cbn beta in Hy.
  destruct (Rules.calculateSimilarity foreign (Rules.query args) r) as [s|];
    cbn [mbind completion_bind cbind] in Hy; try discriminate.
  injection Hy as <-. split; reflexivity.
Qed.

Lemma searchMemories_Return (memories : list Memory.MemoryEntry) (args : Memory.SearchArgs)
    (results : list Memory.SearchResult) :
  Memory.searchMemories foreign memories args = Return results ->
  exists passed scored,
    Memory.filteredMemories memories args = Return passed
    /\ Forall2 (fun m y => Memory.entry y = m
                           /\ Memory.calculateSimilarity foreign (Memory.query args) m
                              = Return (Memory.similarity y))
               passed scored
    /\ results = JsArray.slice0
                   (JsArray.sort Memory.by_similarity
                      (filter (fun y => 0 < Memory.similarity y) scored))
                   (default 5%Z (Memory.limit args)).
Proof.
  unfold Memory.searchMemories. intros H.
  destruct (Memory.filteredMemories memories args) as [passed|];
    cbn [mbind completion_bind cbind] in H; try discriminate.
  destruct (map_completion _ passed) as [scored|] eqn:Hmap;
    cbn [mbind completion_bind cbind] in H; try discriminate.
  injection H as <-. exists passed, scored. split; [reflexivity|]. split; [|reflexivity].
  apply map_completion_Return in Hmap.
  eapply Forall2_impl; [exact Hmap|]. intros m y Hy.
  unfold Memory.score_entry in Hy.
  destruct (Memory.calculateSimilarity foreign (Memory.query args) m) as [s|];
    cbn [mbind completion_bind cbind] in Hy; try discriminate.
  injection Hy as <-. split; reflexivity.
Qed.

(** The filters keep the records in the order of the store. *)
Lemma filteredRules_sublist (this : Rules.Server) (args : Rules.SearchArgs) :
  Rules.filteredRules this args `sublist_of` Rules.this_rules this.
Proof.
  unfold Rules.filteredRules, Rules.filter_tags, Rules.filter_category.
  destruct (Rules.arg_filter_tags args) as [[|t ts]|],
           (truthy (Rules.arg_filter_category args));
    repeat first [reflexivity | apply sublist_filter
                 | (etrans; [apply sublist_filter|])].
Qed.

(** What a filter that can throw returns is what the filter keeps when
    every test is read as its result. *)
Lemma filter_completion_Return {A} (p : A -> completion bool) (xs ys : list A) :
  filter_completion p xs = Return ys ->
  Forall (fun x => exists keep, p x = Return keep) xs
  /\ ys = filter (fun x => returned_true (p x)) xs.
Proof.
  revert ys. induction xs as [|x xs IH]; intros ys H; simpl in H.
  - injection H as <-. split; [constructor|reflexivity].
  - destruct (p x) as [keep|] eqn:Hx; simpl in H; try discriminate.
    destruct (filter_completion p xs) as [ys'|]; simpl in H; try discriminate.
    injection H as <-. destruct (IH ys' eq_refl) as [Hall ->].
    split; [constructor; [exists keep; exact Hx|exact Hall]|].
    destruct keep.
    + rewrite filter_cons_True by (rewrite Hx; exact I). reflexivity.
    + rewrite filter_cons_False by (rewrite Hx; intros []). reflexivity.
Qed.

Lemma filter_completion_total {A} (p : A -> completion bool) (xs : list A) :
  Forall (fun x => exists keep, p x = Return keep) xs ->
  exists ys, filter_completion p xs = Return ys.
Proof.
  induction 1 as [|x xs [keep Hx] _ [ys IH]]; simpl; [eexists; reflexivity|].
  rewrite Hx, IH. eexists; reflexivity.
Qed.

Lemma filter_completion_sublist {A} (p : A -> completion bool) (xs ys : list A) :
  filter_completion p xs = Return ys -> ys `sublist_of` xs.
Proof.
  intros H. apply filter_completion_Return in H as [_ ->]. apply sublist_filter.
Qed.

Lemma sublist_Forall {A} (P : A -> Prop) (l k : list A) :
  l `sublist_of` k -> Forall P k -> Forall P l.
Proof.
  intros Hs Hk. apply Forall_forall. intros x Hx.
  eapply (proj1 (Forall_forall P k) Hk), (sublist_subseteq _ _ Hs), Hx.
Qed.

Lemma filteredMemories_sublist (memories passed : list Memory.MemoryEntry)
    (args : Memory.SearchArgs) :
  Memory.filteredMemories memories args = Return passed ->
  passed `sublist_of` memories.
Proof.
  unfold Memory.filteredMemories. intros H.
  destruct (Memory.filter_project _ memories) as [ms1|] eqn:H1;
    cbn [mbind completion_bind cbind] in H; try discriminate.
  destruct (Memory.filter_category _ ms1) as [ms2|] eqn:H2;
    cbn [mbind completion_bind cbind] in H; try discriminate.
  injection H as <-.
  assert (Hs1 : ms1 `sublist_of` memories).
  { unfold Memory.filter_project in H1.
    destruct (truthy (Memory.arg_filter_project args)).
    - eapply filter_completion_sublist, H1.
    - injection H1 as <-. reflexivity. }
  assert (Hs2 : ms2 `sublist_of` ms1).
  { unfold Memory.filter_category in H2.
    destruct (truthy (Memory.arg_filter_category args)).
    - eapply filter_completion_sublist, H2.
    - injection H2 as <-. reflexivity. }
  etrans; [|exact Hs1]. etrans; [|exact Hs2].
  unfold Memory.filter_tags.
  destruct (Memory.arg_filter_tags args) as [[|t ts]|];
    first [reflexivity | apply sublist_filter].
Qed.

(** The filters return on a store whose memories have their project and
    category. *)
Lemma filteredMemories_returns (memories : list Memory.MemoryEntry)
    (args : Memory.SearchArgs) :
  Forall (fun m => is_Some (Memory.project m) /\ is_Some (Memory.category m)) memories ->
  exists passed, Memory.filteredMemories memories args = Return passed.
Proof.
  intros Hwf. unfold Memory.filteredMemories.
  assert (H1 : exists ms1, Memory.filter_project (Memory.arg_filter_project args) memories
                           = Return ms1).
  { unfold Memory.filter_project.
    destruct (truthy (Memory.arg_filter_project args)); [|eexists; reflexivity].
    apply filter_completion_total. eapply Forall_impl; [exact Hwf|].
    intros m [[p ->] _]. eexists; reflexivity. }
  destruct H1 as [ms1 H1]. rewrite H1. cbn [mbind completion_bind cbind].
  assert (Hs1 : ms1 `sublist_of` memories).
  { unfold Memory.filter_project in H1.
    destruct (truthy (Memory.arg_filter_project args)).
    - eapply filter_completion_sublist, H1.
    - injection H1 as <-. reflexivity. }
  assert (H2 : exists ms2, Memory.filter_category (Memory.arg_filter_category args) ms1
                           = Return ms2).
  { unfold Memory.filter_category.
    destruct (truthy (Memory.arg_filter_category args)); [|eexists; reflexivity].
    apply filter_completion_total. eapply Forall_impl.
    - eapply sublist_Forall; [exact Hs1|exact Hwf].
    - intros m [_ [c ->]]. eexists; reflexivity. }
  destruct H2 as [ms2 ->]. eexists; reflexivity.
Qed.

Lemma rule_score_returns (q : string) (r : Rules.Rule) :
  (exists re, RegExp.compile foreign (toLowerCase q) = Return re) ->
  is_Some (Rules.title r) -> is_Some (Rules.content r) ->
  exists score, Rules.calculateSimilarity foreign q r = Return score.
Proof.
  intros [re Hre] [t Ht] [c Hc]. unfold Rules.calculateSimilarity.
  rewrite Ht, Hc. cbn [defined mbind completion_bind cbind].
  rewrite Hre. eexists; reflexivity.
Qed.

Lemma memory_score_returns (q : string) (m : Memory.MemoryEntry) :
  (exists re, RegExp.compile foreign (toLowerCase q) = Return re) ->
  is_Some (Memory.title m) -> is_Some (Memory.content m) ->
  is_Some (Memory.category m) ->
  exists score, Memory.calculateSimilarity foreign q m = Return score.
Proof.
  intros [re Hre] [t Ht] [c Hc] [k Hk]. unfold Memory.calculateSimilarity.
  rewrite Ht, Hc, Hk. cbn [defined mbind completion_bind cbind].
  rewrite Hre. eexists; reflexivity.
Qed.

(** The search returns whenever the query compiles and the rules that
    pass the filters have their title and content. *)
Lemma searchRules_returns (this : Rules.Server) (args : Rules.SearchArgs) :
  (exists re, RegExp.compile foreign (toLowerCase (Rules.query args)) = Return re) ->
  Forall (fun r => is_Some (Rules.title r) /\ is_Some (Rules.content r))
         (Rules.filteredRules this args) ->
  exists results, Rules.searchRules foreign this args = Return results.
Proof.
  intros Hq Hwf. unfold Rules.searchRules.
  destruct (map_completion_total
              (fun r => s ← Rules.calculateSimilarity foreign (Rules.query args) r;
                        Return (Rules.mkResult r s))
              (Rules.filteredRules this args)) as [scored Hs].
  - eapply Forall_impl; [exact Hwf|]. intros r [Ht Hc].
    destruct (rule_score_returns _ r Hq Ht Hc) as [score ->]. eexists; reflexivity.
  - rewrite Hs. eexists; reflexivity.
Qed.

(** The search returns whenever the query compiles and the memories of
    the store have their project, category, title and content. *)
Lemma searchMemories_returns (memories : list Memory.MemoryEntry)
    (args : Memory.SearchArgs) :
  (exists re, RegExp.compile foreign (toLowerCase (Memory.query args)) = Return re) ->
  Forall (fun m => (is_Some (Memory.project m) /\ is_Some (Memory.category m))
                   /\ is_Some (Memory.title m) /\ is_Some (Memory.content m))
         memories ->
  exists results, Memory.searchMemories foreign memories args = Return results.
Proof.
  intros Hq Hwf. unfold Memory.searchMemories.
  destruct (filteredMemories_returns memories args) as [passed Hp].
  { eapply Forall_impl; [exact Hwf|]. intros m [H _]. exact H. }
  rewrite Hp. cbn [mbind completion_bind cbind].
  destruct (map_completion_total (Memory.score_entry foreign (Memory.query args))
              passed) as [scored Hs].
  - eapply Forall_impl.
    + eapply sublist_Forall; [eapply filteredMemories_sublist, Hp|exact Hwf].
    + intros m [[_ Hk] [Ht Hc]]. unfold Memory.score_entry.
      destruct (memory_score_returns _ m Hq Ht Hc Hk) as [score ->]. eexists; reflexivity.
  - rewrite Hs. eexists; reflexivity.
Qed.

End Search.

(** C6: what a search returns is in non-increasing order of score, and of
    two returned entries with the same score the one returned first is
    the one that comes first in the output of the filters. *)
Theorem search_sorted_stable (foreign : RegExp.engine) :
  (forall (this : Rules.Server) (args : Rules.SearchArgs)
          (results : list Rules.SearchResult),
      Rules.searchRules foreign this args = Return results ->
      StronglySorted (fun a b => Rules.similarity b <= Rules.similarity a) results
      /\ exists positions : list nat,
          length positions = length results
          /\ (forall p i res,
                 positions !! p = Some i -> results !! p = Some res ->
                 Rules.filteredRules this args !! i = Some (Rules.rule res))
          /\ (forall p1 p2 i1 i2 a b,
                 p1 < p2 ->
                 positions !! p1 = Some i1 -> positions !! p2 = Some i2 ->
                 results !! p1 = Some a -> results !! p2 = Some b ->
                 Rules.similarity a = Rules.similarity b -> i1 < i2))
  /\ (forall (memories : list Memory.MemoryEntry) (args : Memory.SearchArgs)
             (results : list Memory.SearchResult),
      Memory.searchMemories foreign memories args = Return results ->
      exists passed : list Memory.MemoryEntry,
        Memory.filteredMemories memories args = Return passed
        /\ StronglySorted (fun a b => Memory.similarity b <= Memory.similarity a) results
        /\ exists positions : list nat,
            length positions = length results
            /\ (forall p i res,
                   positions !! p = Some i -> results !! p = Some res ->
                   passed !! i = Some (Memory.entry res))
            /\ (forall p1 p2 i1 i2 a b,
                   p1 < p2 ->
                   positions !! p1 = Some i1 -> positions !! p2 = Some i2 ->
                   results !! p1 = Some a -> results !! p2 = Some b ->
                   Memory.similarity a = Memory.similarity b -> i1 < i2)).
Proof.
  split.
  - intros this args results H.
    apply searchRules_Return in H as (scored & Hscored & ->).
    split; [apply (rank_descending Rules.similarity)|].
    destruct (rank_stable Rules.similarity scored (default 5%Z (Rules.limit args)))
      as (positions & Hlen & Hpos & Hties).
    exists positions. split; [exact Hlen|]. split; [|exact Hties].
    intros p i res Hp Hres. specialize (Hpos p i res Hp Hres).
    destruct (Forall2_lookup_r _ _ _ _ _ Hscored Hpos) as (r & Hr & <- & _). exact Hr.
  - intros memories args results H.
    apply searchMemories_Return in H as (passed & scored & Hpassed & Hscored & ->).
    exists passed. split; [exact Hpassed|].
    split; [apply (rank_descending Memory.similarity)|].
    destruct (rank_stable Memory.similarity scored (default 5%Z (Memory.limit args)))
      as (positions & Hlen & Hpos & Hties).
    exists positions. split; [exact Hlen|]. split; [|exact Hties].
    intros p i res Hp Hres. specialize (Hpos p i res Hp Hres).
    destruct (Forall2_lookup_r _ _ _ _ _ Hscored Hpos) as (m & Hm & <- & _). exact Hm.
Qed.

Lemma search_sorted_stable_witness :
  exists results,
    Rules.searchRules strict store_search (search_git None) = Return results
    /\ Rules.rule <$> results = [rule_git; rule_git_b; rule_hooks]
    /\ Rules.similarity <$> results = [100; 100; 15]
    /\ StronglySorted (fun a b => Rules.similarity b <= Rules.similarity a) results.
Proof.
  eexists. split; [reflexivity|]. split; [reflexivity|]. split; [reflexivity|].
  apply (proj1 (search_sorted_stable strict) store_search (search_git None) _ eq_refl).
Defined.

(** C7, as stated, fails: with the limit -1 the search over four rules,
    three of which score, returns two entries, which is more than the
    limit: [slice(0, -1)] drops the last entry of the ranking. *)
Lemma search_negative_limit :
  exists results,
    Rules.searchRules strict store_search (search_git (Some (-1)%Z)) = Return results
    /\ Rules.rule <$> results = [rule_git; rule_git_b]
    /\ ~ (Z.of_nat (length results) <= -1)%Z.
Proof.
  eexists. split; [reflexivity|]. split; [reflexivity|]. simpl. lia.
Qed.

(** The same whatever the engine does outside the modelled syntax. *)
Lemma search_negative_limit_any_engine (foreign : RegExp.engine) :
  Rules.searchRules foreign store_search (search_git (Some (-1)%Z))
  = Return [Rules.mkResult rule_git 100; Rules.mkResult rule_git_b 100].
Proof. reflexivity. Qed.

(** C7, amended: for a limit that is not negative (5 when none is given)
    a search returns at most that many entries; and for every limit each
    returned record is in the output of the filters and comes with its
    computed score, which is positive. *)
Theorem search_limit_subset_positive (foreign : RegExp.engine) :
  (forall (this : Rules.Server) (args : Rules.SearchArgs)
          (results : list Rules.SearchResult),
      Rules.searchRules foreign this args = Return results ->
      ((0 <= default 5 (Rules.limit args))%Z ->
       (Z.of_nat (length results) <= default 5 (Rules.limit args))%Z)
      /\ Forall (fun res =>
                   Rules.rule res ∈ Rules.filteredRules this args
                   /\ Rules.calculateSimilarity foreign (Rules.query args) (Rules.rule res)
                      = Return (Rules.similarity res)
                   /\ 0 < Rules.similarity res) results)
  /\ (forall (memories : list Memory.MemoryEntry) (args : Memory.SearchArgs)
             (results : list Memory.SearchResult),
      Memory.searchMemories foreign memories args = Return results ->
      exists passed : list Memory.MemoryEntry,
        Memory.filteredMemories memories args = Return passed
        /\ ((0 <= default 5 (Memory.limit args))%Z ->
            (Z.of_nat (length results) <= default 5 (Memory.limit args))%Z)
        /\ Forall (fun res =>
                     Memory.entry res ∈ passed
                     /\ Memory.calculateSimilarity foreign (Memory.query args)
                          (Memory.entry res)
                        = Return (Memory.similarity res)
                     /\ 0 < Memory.similarity res) results).
Proof.
  split.
  - intros this args results H.
    apply searchRules_Return in H as (scored & Hscored & ->).
    split; [apply slice0_length|].
    apply Forall_forall. intros res Hres.
    apply (rank_elem_of Rules.similarity) in Hres as [Hin Hpos].
    apply list_elem_of_lookup_1 in Hin as [i Hi].
    destruct (Forall2_lookup_r _ _ _ _ _ Hscored Hi) as (r & Hr & <- & Hs).
    split; [eapply list_elem_of_lookup_2, Hr|]. split; [exact Hs|exact Hpos].
  - intros memories args results H.
    apply searchMemories_Return in H as (passed & scored & Hpassed & Hscored & ->).
    exists passed. split; [exact Hpassed|].
    split; [apply slice0_length|].
    apply Forall_forall. intros res Hres.
    apply (rank_elem_of Memory.similarity) in Hres as [Hin Hpos].
    apply list_elem_of_lookup_1 in Hin as [i Hi].
    destruct (Forall2_lookup_r _ _ _ _ _ Hscored Hi) as (m & Hm & <- & Hs).
    split; [eapply list_elem_of_lookup_2, Hm|]. split; [exact Hs|exact Hpos].
Qed.

Lemma search_limit_subset_positive_witness :
  exists results,
    Rules.searchRules strict store_search (search_git (Some 2%Z)) = Return results
    /\ (Z.of_nat (length results) <= 2)%Z
    /\ Forall (fun res => Rules.rule res ∈ Rules.this_rules store_search
                          /\ 0 < Rules.similarity res) results.
Proof.
  eexists. split; [reflexivity|].
  destruct (proj1 (search_limit_subset_positive strict) store_search
              (search_git (Some 2%Z)) _ eq_refl)
    as [Hlen Hall].
  split; [apply Hlen; simpl; lia|].
  eapply Forall_impl; [exact Hall|]. intros res (Hin & _ & Hpos). split; [exact Hin|exact Hpos].
Defined.


(** * Further properties of the rule store *)

(** ** Looking a rule up by its id *)

Section Lookup.

Import Rules RuleTools.

Lemma find_rule_None (this : Server) (id_ : string) :
  find_rule this id_ = None <-> id_ ∉ id <$> this_rules this.
Proof.
  unfold find_rule. rewrite fmap_None, list_find_None, Forall_forall, list_elem_of_fmap.
  split.
  - intros H (r & -> & Hr). exact (H r Hr eq_refl).
  - intros H r Hr Hid. apply H. exists r. auto.
Qed.

Lemma find_rule_Some (this : Server) (id_ : string) (r : Rule) :
  find_rule this id_ = Some r <->
  exists i, this_rules this !! i = Some r /\ id r = id_
            /\ forall j r0, this_rules this !! j = Some r0 -> j < i -> id r0 <> id_.
Proof.
  unfold find_rule. rewrite fmap_Some. split.
  - intros ([i r'] & Hfind & ->). apply list_find_Some in Hfind. exists i. exact Hfind.
  - intros (i & Hfind). exists (i, r). split; [|reflexivity].
    apply list_find_Some. exact Hfind.
Qed.

Lemma find_rule_elem_of (this : Server) (id_ : string) :
  id_ ∈ id <$> this_rules this -> exists r, find_rule this id_ = Some r.
Proof.
  intros Hin. destruct (find_rule this id_) as [r|] eqn:Hf; [eauto|].
  apply find_rule_None in Hf. contradiction.
Qed.

(** The related rules that resolve are those whose id the store has, in
    the order of [relatedRules]. *)
Lemma related_ids (this : Server) (ks : list string) :
  id <$> omap (find_rule this) ks = filter (fun k => k ∈ id <$> this_rules this) ks.
Proof.
  induction ks as [|k ks IH]; [reflexivity|].
  rewrite filter_cons. cbn [omap list_omap].
  destruct (find_rule this k) as [r|] eqn:Hf.
  - assert (Hin : k ∈ id <$> this_rules this).
    { destruct (decide (k ∈ id <$> this_rules this)) as [|Hn]; [assumption|].
      apply find_rule_None in Hn. congruence. }
    rewrite decide_True by exact Hin.
    apply find_rule_Some in Hf as (i & _ & Hid & _).
    rewrite fmap_cons, Hid. f_equal. exact IH.
  - apply find_rule_None in Hf. rewrite decide_False by exact Hf. exact IH.
Qed.

End Lookup.

(** What a lookup by id finds, for the handlers that follow one. *)
Lemma getRuleById_cases (id_ : string) (this : Rules.Server) :
  (id_ ∉ Rules.id <$> Rules.this_rules this ->
   RuleTools.getRuleById id_ this = Throw (Error ("Rule not found: " +:+ id_)))
  /\ (id_ ∈ Rules.id <$> Rules.this_rules this ->
      exists i rule related,
        RuleTools.getRuleById id_ this = Return (rule, related)
        /\ Rules.this_rules this !! i = Some rule
        /\ Rules.id rule = id_
        /\ (forall j r0, Rules.this_rules this !! j = Some r0 -> j < i ->
                         Rules.id r0 <> id_)
        /\ Rules.id <$> related
           = filter (fun k => k ∈ Rules.id <$> Rules.this_rules this)
                    (Rules.relatedRules rule)
        /\ Forall (fun r => r ∈ Rules.this_rules this) related).
Proof.
  unfold RuleTools.getRuleById. split.
  - intros Hn. apply find_rule_None in Hn. rewrite Hn. reflexivity.
  - intros Hin. destruct (find_rule_elem_of this id_ Hin) as [rule Hf].
    rewrite Hf. pose proof Hf as Hf'. apply find_rule_Some in Hf' as (i & Hi & Hid & Hfirst).
    exists i, rule, (omap (RuleTools.find_rule this) (Rules.relatedRules rule)).
    split; [reflexivity|]. split; [exact Hi|]. split; [exact Hid|].
    split; [exact Hfirst|]. split; [apply related_ids|].
    apply Forall_forall. intros r Hr.
    apply list_elem_of_omap in Hr as (k & _ & Hk).
    apply find_rule_Some in Hk as (j & Hj & _). eapply list_elem_of_lookup_2, Hj.
Qed.

(** X1: [getRuleById] fails with [Rule not found] exactly when no rule has
    the id; otherwise it returns the first rule with the id, together with
    the rules its [relatedRules] name, in that order, an id that no rule
    has being passed over in silence. *)
Theorem getRuleById_first_and_related (id_ : string) (this : Rules.Server) :
  (id_ ∉ Rules.id <$> Rules.this_rules this ->
   RuleTools.getRuleById id_ this = Throw (Error ("Rule not found: " +:+ id_)))
  /\ (id_ ∈ Rules.id <$> Rules.this_rules this ->
      exists i rule related,
        RuleTools.getRuleById id_ this = Return (rule, related)
        /\ Rules.this_rules this !! i = Some rule
        /\ Rules.id rule = id_
        /\ (forall j r0, Rules.this_rules this !! j = Some r0 -> j < i ->
                         Rules.id r0 <> id_)
        /\ Rules.id <$> related
           = filter (fun k => k ∈ Rules.id <$> Rules.this_rules this)
                    (Rules.relatedRules rule)
        /\ Forall (fun r => r ∈ Rules.this_rules this) related).
Proof.
  unfold RuleTools.getRuleById. split.
  - intros Hn. apply find_rule_None in Hn. rewrite Hn. reflexivity.
  - intros Hin. destruct (find_rule_elem_of this id_ Hin) as [rule Hf].
    rewrite Hf. pose proof Hf as Hf'. apply find_rule_Some in Hf' as (i & Hi & Hid & Hfirst).
    exists i, rule, (omap (RuleTools.find_rule this) (Rules.relatedRules rule)).
    split; [reflexivity|]. split; [exact Hi|]. split; [exact Hid|].
    split; [exact Hfirst|]. split; [apply related_ids|].
    apply Forall_forall. intros r Hr.
    apply list_elem_of_omap in Hr as (k & _ & Hk).
    apply find_rule_Some in Hk as (j & Hj & _). eapply list_elem_of_lookup_2, Hj.
Qed.

Lemma getRuleById_first_and_related_witness :
  RuleTools.getRuleById "git-009" store_three_git
  = Throw (Error "Rule not found: git-009")
  /\ exists i rule related,
      RuleTools.getRuleById "git-003" store_recreated = Return (rule, related)
      /\ Rules.this_rules store_recreated !! i = Some rule
      /\ Rules.timestamp rule = "t2".
Proof.
  split.
  - apply (proj1 (getRuleById_first_and_related "git-009" store_three_git)).
    vm_compute. intros H.
    repeat (apply elem_of_cons in H as [H|H]; [discriminate H|]).
    apply elem_of_nil in H. exact H.
  - destruct (proj2 (getRuleById_first_and_related "git-003" store_recreated))
      as (i & rule & related & Hget & Hi & _).
    { apply (list_elem_of_lookup_2 _ 1). reflexivity. }
    exists i, rule, related. split; [exact Hget|]. split; [exact Hi|].
    vm_compute in Hget. injection Hget as <- _. reflexivity.
Defined.

(** ** What the handlers do to the store *)

Section HandlerEffects.

Import Rules RuleTools.

Lemma list_find_id_None (this : Server) (id_ : string) :
  id_ ∉ id <$> this_rules this ->
  list_find (fun r => id r = id_) (this_rules this) = None.
Proof.
  intros Hn. apply find_rule_None in Hn. unfold find_rule in Hn.
  apply fmap_None in Hn. exact Hn.
Qed.

End HandlerEffects.

(** X2: a lookup by an id that no rule has fails in [getRuleById],
    [updateRule] and [deleteRule] alike, with the error [Rule not found],
    and leaves the server, its arrays and its files, as it was. *)
Theorem unknown_id_changes_nothing (now id_ : string) (updates : Rules.Updates)
    (this : Rules.Server) :
  id_ ∉ Rules.id <$> Rules.this_rules this ->
  RuleTools.getRuleById id_ this = Throw (Error ("Rule not found: " +:+ id_))
  /\ Rules.updateRule now id_ updates this
     = (Throw (Error ("Rule not found: " +:+ id_)), this)
  /\ Rules.deleteRule id_ this = (Throw (Error ("Rule not found: " +:+ id_)), this).
Proof.
  intros Hn. split; [unfold RuleTools.getRuleById; apply find_rule_None in Hn as ->; reflexivity|].
  unfold Rules.updateRule, Rules.deleteRule.
  rewrite (list_find_id_None this id_ Hn). split; reflexivity.
Qed.

Lemma unknown_id_changes_nothing_witness :
  ("git-009" ∉ Rules.id <$> Rules.this_rules store_three_git)
  /\ Rules.updateRule "t9" "git-009" updates_move store_three_git
     = (Throw (Error "Rule not found: git-009"), store_three_git)
  /\ Rules.deleteRule "git-009" store_three_git
     = (Throw (Error "Rule not found: git-009"), store_three_git).
Proof.
  assert (Hn : "git-009" ∉ Rules.id <$> Rules.this_rules store_three_git).
  { vm_compute. intros H.
    repeat (apply elem_of_cons in H as [H|H]; [discriminate H|]).
    apply elem_of_nil in H. exact H. }
  split; [exact Hn|].
  destruct (unknown_id_changes_nothing "t9" "git-009" updates_move store_three_git Hn)
    as (_ & Hu & Hd).
  split; [exact Hu|exact Hd].
Defined.

Section Persistence.

Import Rules RuleTools Invariant.

Lemma createRule_persists (now : string) (args : CreateArgs) :
  persists_on_return (createRule now args).
Proof.
  intros this v. unfold createRule, saveRules, files_mirror_memory.
  destruct (arg_category args); [|simpl; intros; discriminate].
  cbn [writable]. destruct (writable this); simpl; intros; try discriminate; auto.
Qed.

Lemma updateRule_persists (now id_ : string) (updates : Updates) :
  persists_on_return (updateRule now id_ updates).
Proof.
  intros this v. unfold updateRule, saveRules, files_mirror_memory.
  destruct (list_find _ _) as [[i r]|]; [|simpl; intros; discriminate].
  cbn [writable]. destruct (writable this); simpl; intros; try discriminate; auto.
Qed.

Lemma deleteRule_persists (id_ : string) : persists_on_return (deleteRule id_).
Proof.
  intros this v. unfold deleteRule, saveRules, files_mirror_memory.
  destruct (list_find _ _) as [[i r]|]; [|simpl; intros; discriminate].
  cbn [writable]. destruct (writable this); simpl; intros; try discriminate; auto.
Qed.

Lemma createCategory_persists (args : CategoryArgs) :
  persists_on_return (createCategory args).
Proof.
  intros this v. unfold createCategory, saveRules, files_mirror_memory.
  destruct (list_find _ _) as [[i r]|]; [simpl; intros; discriminate|].
  cbn [writable]. destruct (writable this); simpl; intros; try discriminate; auto.
Qed.

Lemma importRules_persists (now filePath : string) (file : ImportFile)
    (format : option string) :
  persists_on_return (importRules now filePath file format).
Proof.
  intros this v. unfold importRules, saveRules, files_mirror_memory.
  destruct file; [simpl; intros; discriminate|..];
    (case_bool_decide; [|simpl; intros; discriminate]);
    try (simpl; intros; discriminate).
  cbn [writable]. destruct (writable this); simpl; intros; try discriminate; auto.
Qed.

End Persistence.

Section NoRollBack.

Import Rules RuleTools Invariant.

Lemma saveRules_refused (this : Server) :
  writable this = false ->
  saveRules this = (Throw (Error "Failed to save rules"), this).
Proof. intros Hw. unfold saveRules. rewrite Hw. reflexivity. Qed.

Lemma createRule_refused (now : string) (args : CreateArgs) (this : Server) (C : string) :
  arg_category args = Some C -> writable this = false ->
  exists rule,
    createRule now args this
    = (Throw (Error "Failed to save rules"),
       mkServer (this_rules this ++ [rule])
         (add_member (this_categories this) C (id rule))
         (rulesFile this) (categoriesFile this) false)
    /\ title rule = arg_title args /\ content rule = arg_content args
    /\ id rule = generateId this C.
Proof.
  intros HC Hw. unfold createRule. rewrite HC.
  rewrite saveRules_refused by exact Hw. rewrite Hw.
  eexists. split; [reflexivity|]. repeat split.
Qed.

Lemma updateRule_refused (now id_ : string) (updates : Updates) (this : Server)
    (i : nat) (r : Rule) :
  list_find (fun r0 => id r0 = id_) (this_rules this) = Some (i, r) ->
  writable this = false ->
  updateRule now id_ updates this
  = (Throw (Error "Failed to save rules"),
     mkServer (<[i := merge r updates now]> (this_rules this)) (this_categories this)
       (rulesFile this) (categoriesFile this) false).
Proof.
  intros Hf Hw. unfold updateRule. rewrite Hf.
  rewrite saveRules_refused by exact Hw. rewrite Hw. reflexivity.
Qed.

Lemma deleteRule_refused (id_ : string) (this : Server) (i : nat) (r : Rule) :
  list_find (fun r0 => id r0 = id_) (this_rules this) = Some (i, r) ->
  writable this = false ->
  deleteRule id_ this
  = (Throw (Error "Failed to save rules"),
     mkServer (delete i (this_rules this))
       (remove_member (this_categories this) (category r) id_)
       (rulesFile this) (categoriesFile this) false).
Proof.
  intros Hf Hw. unfold deleteRule. rewrite Hf.
  rewrite saveRules_refused by exact Hw. rewrite Hw. reflexivity.
Qed.

End NoRollBack.

(** X3: the save comes last and nothing is rolled back. Whenever
    [createRule], [updateRule], [deleteRule], [createCategory] or
    [importRules] returns, [rules.json] and [categories.json] hold the two
    arrays as they are after the call. When the save fails, [createRule],
    [updateRule] and [deleteRule] throw, but the arrays in memory keep the
    change: the rule is appended, replaced or removed all the same. *)
Theorem save_comes_last_without_roll_back :
  (forall now args, Invariant.persists_on_return (Rules.createRule now args))
  /\ (forall now id_ updates, Invariant.persists_on_return (Rules.updateRule now id_ updates))
  /\ (forall id_, Invariant.persists_on_return (Rules.deleteRule id_))
  /\ (forall args, Invariant.persists_on_return (RuleTools.createCategory args))
  /\ (forall now filePath file format,
        Invariant.persists_on_return (RuleTools.importRules now filePath file format))
  /\ (forall now args this C,
        Rules.arg_category args = Some C -> Rules.writable this = false ->
        exists msg rule,
          fst (Rules.createRule now args this) = Throw (Error msg)
          /\ Rules.this_rules (snd (Rules.createRule now args this))
             = (Rules.this_rules this ++ [rule])%list
          /\ Rules.id rule = Rules.generateId this C)
  /\ (forall now id_ updates this i r,
        list_find (fun r0 => Rules.id r0 = id_) (Rules.this_rules this) = Some (i, r) ->
        Rules.writable this = false ->
        exists msg,
          fst (Rules.updateRule now id_ updates this) = Throw (Error msg)
          /\ Rules.this_rules (snd (Rules.updateRule now id_ updates this))
             = <[i := Rules.merge r updates now]> (Rules.this_rules this))
  /\ (forall id_ this i r,
        list_find (fun r0 => Rules.id r0 = id_) (Rules.this_rules this) = Some (i, r) ->
        Rules.writable this = false ->
        exists msg,
          fst (Rules.deleteRule id_ this) = Throw (Error msg)
          /\ Rules.this_rules (snd (Rules.deleteRule id_ this))
             = delete i (Rules.this_rules this)).
Proof.
  split; [exact createRule_persists|]. split; [exact updateRule_persists|].
  split; [exact deleteRule_persists|]. split; [exact createCategory_persists|].
  split; [exact importRules_persists|]. split; [|split].
  - intros now args this C HC Hw.
    destruct (createRule_refused now args this C HC Hw) as (rule & -> & _ & _ & Hid).
    exists "Failed to save rules", rule. repeat split. exact Hid.
  - intros now id_ updates this i r Hf Hw.
    rewrite (updateRule_refused now id_ updates this i r Hf Hw).
    exists "Failed to save rules". split; reflexivity.
  - intros id_ this i r Hf Hw.
    rewrite (deleteRule_refused id_ this i r Hf Hw).
    exists "Failed to save rules". split; reflexivity.
Qed.

Lemma save_comes_last_without_roll_back_witness :
  Invariant.files_mirror_memory (snd (Rules.createRule "t0" (args_in "git") store_empty))
  /\ (exists msg, fst (Rules.deleteRule "git-001" store_readonly) = Throw (Error msg))
  /\ Rules.this_rules (snd (Rules.deleteRule "git-001" store_readonly)) = [].
Proof.
  destruct save_comes_last_without_roll_back as (Hc & _ & _ & _ & _ & _ & _ & Hd).
  split.
  - eapply (Hc "t0" (args_in "git") store_empty). reflexivity.
  - destruct (Hd "git-001" store_readonly 0 rule_git eq_refl eq_refl) as (msg & Hthrow & Hr).
    split; [exists msg; exact Hthrow|]. rewrite Hr. reflexivity.
Defined.

(** ** The category index *)

Section CategoryIndex.

Import Rules RuleTools Invariant.

Lemma find_category_None (cats : list RuleCategory) (C : string) :
  list_find (fun c => name c = C) cats = None <-> C ∉ name <$> cats.
Proof.
  rewrite list_find_None, Forall_forall, list_elem_of_fmap. split.
  - intros H (c & -> & Hc). exact (H c Hc eq_refl).
  - intros H c Hc Hn. apply H. exists c. auto.
Qed.

Lemma names_insert (cats : list RuleCategory) (i : nat) (c c' : RuleCategory) :
  cats !! i = Some c -> name c' = name c ->
  name <$> <[i := c']> cats = name <$> cats.
Proof.
  intros Hi Hn. rewrite list_fmap_insert, Hn. apply list_insert_id.
  rewrite list_lookup_fmap, Hi. reflexivity.
Qed.

Lemma add_member_names (cats : list RuleCategory) (C ruleId : string) :
  name <$> add_member cats C ruleId
  = if decide (C ∈ name <$> cats) then name <$> cats else ((name <$> cats) ++ [C])%list.
Proof.
  unfold add_member. destruct (list_find _ cats) as [[i c]|] eqn:Hf.
  - apply list_find_Some in Hf as (Hi & Hn & _).
    rewrite (names_insert cats i c) by auto.
    rewrite decide_True; [reflexivity|].
    apply list_elem_of_fmap. exists c. split; [auto|]. eapply list_elem_of_lookup_2, Hi.
  - apply find_category_None in Hf. rewrite decide_False by exact Hf.
    rewrite fmap_app. reflexivity.
Qed.

Lemma remove_member_names (cats : list RuleCategory) (C ruleId : string) :
  name <$> remove_member cats C ruleId = name <$> cats.
Proof.
  unfold remove_member. destruct (list_find _ cats) as [[i c]|] eqn:Hf; [|reflexivity].
  apply list_find_Some in Hf as (Hi & _ & _). apply (names_insert cats i c); auto.
Qed.

Lemma enter_member_names (cats : list RuleCategory) (r : Rule) :
  name <$> enter_member cats r
  = if decide (category r ∈ name <$> cats) then name <$> cats
    else ((name <$> cats) ++ [category r])%list.
Proof.
  unfold enter_member. destruct (list_find _ cats) as [[i c]|] eqn:Hf.
  - apply list_find_Some in Hf as (Hi & Hn & _).
    rewrite decide_True.
    + case_bool_decide; [reflexivity|]. apply (names_insert cats i c); auto.
    + apply list_elem_of_fmap. exists c. split; [auto|]. eapply list_elem_of_lookup_2, Hi.
  - apply find_category_None in Hf. rewrite decide_False by exact Hf.
    rewrite fmap_app. reflexivity.
Qed.

Lemma NoDup_snoc_fresh (names : list string) (C : string) :
  NoDup names -> C ∉ names -> NoDup (names ++ [C])%list.
Proof.
  intros Hnd Hn. apply NoDup_app. split; [exact Hnd|]. split; [|apply NoDup_singleton].
  intros x Hx Hx'. apply list_elem_of_singleton in Hx'. subst. contradiction.
Qed.

Lemma enter_members_distinct (cats : list RuleCategory) (rs : list Rule) :
  NoDup (name <$> cats) -> NoDup (name <$> foldl enter_member cats rs).
Proof.
  revert cats. induction rs as [|r rs IH]; intros cats Hnd; [exact Hnd|].
  simpl. apply IH. rewrite enter_member_names.
  destruct (decide _); [exact Hnd|]. apply NoDup_snoc_fresh; assumption.
Qed.

Lemma createRule_state (now : string) (args : CreateArgs) (this : Server) :
  match arg_category args with
  | None => snd (createRule now args this) = this
  | Some C =>
      this_rules (snd (createRule now args this))
      = (this_rules this ++
         [mkRule (generateId this C) (arg_title args) C
            (or_string (arg_description args) EmptyString) (arg_content args)
            (or_array (arg_tags args) []) (or_array (arg_examples args) [])
            [] now "1.0.0"])%list
      /\ this_categories (snd (createRule now args this))
         = add_member (this_categories this) C (generateId this C)
  end.
Proof.
  destruct (arg_category args) as [C|] eqn:HC.
  - destruct (createRule_appends now args this C HC) as (rule & Hr & Hc & -> & _).
    split; [exact Hr|exact Hc].
  - unfold createRule. rewrite HC. reflexivity.
Qed.

Lemma createCategory_state (args : CategoryArgs) (this : Server) :
  this_rules (snd (createCategory args this)) = this_rules this
  /\ this_categories (snd (createCategory args this))
     = if decide (arg_name args ∈ name <$> this_categories this)
       then this_categories this
       else (this_categories this ++
             [mkCategory (arg_name args)
                (default ("Rules for " +:+ arg_name args) (arg_cat_description args)) []])%list.
Proof.
  unfold createCategory. destruct (list_find _ _) as [[i c]|] eqn:Hf.
  - rewrite decide_True; [split; reflexivity|].
    apply list_find_Some in Hf as (Hi & Hn & _).
    apply list_elem_of_fmap. exists c. split; [auto|]. eapply list_elem_of_lookup_2, Hi.
  - apply find_category_None in Hf. rewrite decide_False by exact Hf.
    unfold saveRules. cbn [writable this_rules this_categories].
    destruct (writable this); split; reflexivity.
Qed.

Lemma importRules_state (now filePath : string) (file : ImportFile)
    (format : option string) (this : Server) :
  match file with
  | JsonRules importedRules =>
      if bool_decide (default "json" format = "json") then
        this_rules (snd (importRules now filePath file format this))
        = (this_rules this ++ (backfill now this <$> importedRules))%list
        /\ this_categories (snd (importRules now filePath file format this))
           = foldl enter_member (this_categories this) (backfill now this <$> importedRules)
      else importRules now filePath file format this
           = (Throw (Error "Markdown import not yet implemented"), this)
  | _ => snd (importRules now filePath file format this) = this
  end.
Proof.
  unfold importRules. destruct file; try reflexivity;
    try (case_bool_decide; reflexivity).
  case_bool_decide; [|reflexivity].
  unfold saveRules. cbn [writable this_rules this_categories].
  destruct (writable this); split; reflexivity.
Qed.

End CategoryIndex.

(** X4: the names of the categories stay pairwise distinct. Every handler
    that writes the index ([createRule], [updateRule], [deleteRule],
    [createCategory], [importRules]) leaves an index without two
    categories of one name in that state, whether it returns or throws. *)
Theorem category_names_stay_distinct :
  (forall now args, Invariant.preserves Invariant.names_distinct (Rules.createRule now args))
  /\ (forall now id_ updates,
        Invariant.preserves Invariant.names_distinct (Rules.updateRule now id_ updates))
  /\ (forall id_, Invariant.preserves Invariant.names_distinct (Rules.deleteRule id_))
  /\ (forall args, Invariant.preserves Invariant.names_distinct (RuleTools.createCategory args))
  /\ (forall now filePath file format,
        Invariant.preserves Invariant.names_distinct
          (RuleTools.importRules now filePath file format)).
Proof.
  unfold Invariant.preserves, Invariant.names_distinct. repeat split.
  - intros now args this Hnd. pose proof (createRule_state now args this) as H.
    destruct (Rules.arg_category args) as [C|]; [|rewrite H; exact Hnd].
    destruct H as [_ ->]. rewrite add_member_names.
    destruct (decide _); [exact Hnd|]. apply NoDup_snoc_fresh; assumption.
  - intros now id_ updates this Hnd.
    destruct (list_find (fun r => Rules.id r = id_) (Rules.this_rules this))
      as [[i r]|] eqn:Hf.
    + destruct (updateRule_state now id_ updates this i r Hf) as (_ & -> & _). exact Hnd.
    + unfold Rules.updateRule. rewrite Hf. exact Hnd.
  - intros id_ this Hnd.
    destruct (list_find (fun r => Rules.id r = id_) (Rules.this_rules this))
      as [[i r]|] eqn:Hf.
    + destruct (deleteRule_state id_ this i r Hf) as (_ & ->).
      rewrite remove_member_names. exact Hnd.
    + unfold Rules.deleteRule. rewrite Hf. exact Hnd.
  - intros args this Hnd. destruct (createCategory_state args this) as [_ ->].
    destruct (decide _); [exact Hnd|]. rewrite fmap_app. apply NoDup_snoc_fresh; assumption.
  - intros now filePath file format this Hnd.
    pose proof (importRules_state now filePath file format this) as H.
    destruct file; try (rewrite H; exact Hnd).
    destruct (bool_decide _); [|rewrite H; exact Hnd].
    destruct H as [_ ->]. apply enter_members_distinct. exact Hnd.
Qed.

Lemma category_names_stay_distinct_witness :
  Invariant.names_distinct store_three_git
  /\ Invariant.names_distinct
       (snd (RuleTools.createCategory (RuleTools.mkCategoryArgs "docs" None)
               store_three_git))
  /\ Invariant.names_distinct
       (snd (RuleTools.importRules "t8" "rules.json" (RuleTools.JsonRules file_three) None
               store_three_git)).
Proof.
  assert (H0 : Invariant.names_distinct store_three_git).
  { unfold Invariant.names_distinct. compute_done. }
  destruct category_names_stay_distinct as (_ & _ & _ & Hc & Hi).
  split; [exact H0|]. split; [apply Hc, H0|apply Hi, H0].
Defined.

Section IndexConsistency.

Import Rules RuleTools Invariant.

Lemma filter_snoc {A} (P : A -> Prop) `{forall x, Decision (P x)} (l : list A) (x : A) :
  filter P (l ++ [x])%list = (filter P l ++ if decide (P x) then [x] else [])%list.
Proof.
  rewrite filter_app, filter_cons, filter_nil. reflexivity.
Qed.

Lemma filter_none {A} (P : A -> Prop) `{forall x, Decision (P x)} (l : list A) :
  (forall x, x ∈ l -> ~ P x) -> filter P l = [].
Proof.
  induction l as [|x l IH]; intros Hn; [reflexivity|].
  rewrite filter_cons_False by (apply Hn; constructor).
  apply IH. intros y Hy. apply Hn. constructor. exact Hy.
Qed.

Lemma filter_all {A} (P : A -> Prop) `{forall x, Decision (P x)} (l : list A) :
  (forall x, x ∈ l -> P x) -> filter P l = l.
Proof.
  induction l as [|x l IH]; intros Hn; [reflexivity|].
  rewrite filter_cons_True by (apply Hn; constructor).
  f_equal. apply IH. intros y Hy. apply Hn. constructor. exact Hy.
Qed.

Lemma filter_delete_other {A} (P : A -> Prop) `{forall x, Decision (P x)}
    (l : list A) (i : nat) (r : A) :
  l !! i = Some r -> ~ P r -> filter P (delete i l) = filter P l.
Proof.
  revert i. induction l as [|x l IH]; intros [|i] Hi Hn; try discriminate.
  - injection Hi as ->. simpl. rewrite filter_cons_False by exact Hn. reflexivity.
  - simpl in Hi. change (delete (S i) (x :: l)) with (x :: delete i l).
    rewrite !filter_cons. rewrite (IH i Hi Hn). reflexivity.
Qed.

(** Deleting the one rule with an id takes exactly that id out of the ids
    of any selection of the rules. *)
Lemma filter_delete_ids (P : Rule -> Prop) `{forall x, Decision (P x)}
    (l : list Rule) (i : nat) (r : Rule) :
  NoDup (id <$> l) -> l !! i = Some r ->
  filter (fun other => other <> id r) (id <$> filter P l)
  = id <$> filter P (delete i l).
Proof.
  revert i. induction l as [|x l IH]; intros [|i] Hnd Hi; try discriminate.
  - injection Hi as ->. change (delete 0 (r :: l)) with l.
    rewrite fmap_cons in Hnd. apply NoDup_cons in Hnd as [Hx _].
    assert (Hrest : filter (fun other => other <> id r) (id <$> filter P l)
                    = id <$> filter P l).
    { apply filter_all. intros k Hk Heq. subst k. apply Hx.
      apply list_elem_of_fmap in Hk as (y & Hy & Hin).
      apply list_elem_of_filter in Hin as [_ Hin].
      apply list_elem_of_fmap. exists y. auto. }
    rewrite filter_cons. destruct (decide (P r)); [|exact Hrest].
    rewrite fmap_cons, filter_cons_False by (intros Hne; apply Hne; reflexivity).
    exact Hrest.
  - simpl in Hi. change (delete (S i) (x :: l)) with (x :: delete i l).
    rewrite fmap_cons in Hnd. apply NoDup_cons in Hnd as [Hx Hnd].
    rewrite !filter_cons. destruct (decide (P x)); [|apply IH; assumption].
    rewrite !fmap_cons, filter_cons_True.
    + f_equal. apply IH; assumption.
    + intros Heq. apply Hx. rewrite Heq.
      apply list_elem_of_fmap. exists r. split; [reflexivity|].
      eapply list_elem_of_lookup_2, Hi.
Qed.

Lemma filter_insert_ids (P : Rule -> Prop) `{forall x, Decision (P x)}
    (l : list Rule) (i : nat) (r r' : Rule) :
  l !! i = Some r -> id r' = id r -> (P r' <-> P r) ->
  id <$> filter P (<[i := r']> l) = id <$> filter P l.
Proof.
  revert i. induction l as [|x l IH]; intros [|i] Hi Hid HP; try discriminate.
  - injection Hi as ->. change (<[0 := r']> (r :: l)) with (r' :: l).
    rewrite !filter_cons.
    destruct (decide (P r')), (decide (P r)); try tauto.
    rewrite !fmap_cons, Hid. reflexivity.
  - simpl in Hi. change (<[S i := r']> (x :: l)) with (x :: <[i := r']> l).
    rewrite !filter_cons.
    destruct (decide (P x)); [rewrite !fmap_cons; f_equal|]; apply (IH i); assumption.
Qed.

Lemma elem_of_insert_inv {A} (l : list A) (i : nat) (x y : A) :
  x ∈ <[i := y]> l -> x = y \/ x ∈ l.
Proof.
  intros Hin. apply list_elem_of_lookup_1 in Hin as [j Hj].
  destruct (decide (j = i)) as [->|Hne].
  - destruct (decide (i < length l)) as [Hlt|Hge].
    + rewrite list_lookup_insert_eq in Hj by exact Hlt. left. congruence.
    + rewrite list_insert_ge in Hj by lia. right. eapply list_elem_of_lookup_2, Hj.
  - rewrite list_lookup_insert_ne in Hj by congruence.
    right. eapply list_elem_of_lookup_2, Hj.
Qed.

Lemma names_lookup_unique (cats : list RuleCategory) (i j : nat) (c c' : RuleCategory) :
  NoDup (name <$> cats) -> cats !! i = Some c -> cats !! j = Some c' ->
  name c = name c' -> i = j.
Proof.
  intros Hnd Hi Hj Hn. apply (NoDup_lookup _ i j (name c) Hnd).
  - rewrite list_lookup_fmap, Hi. reflexivity.
  - rewrite list_lookup_fmap, Hj, Hn. reflexivity.
Qed.

Lemma uncovered_category_is_empty (this : Server) (C : string) :
  (forall r, r ∈ this_rules this -> category r ∈ name <$> this_categories this) ->
  C ∉ name <$> this_categories this ->
  filter (fun r => category r = C) (this_rules this) = [].
Proof.
  intros Hcov HC. apply filter_none. intros r Hr Heq. apply HC. rewrite <- Heq. auto.
Qed.

Lemma createRule_consistent (now : string) (args : CreateArgs) :
  preserves index_consistent (createRule now args).
Proof.
  intros this (Hnd & Hmem & Hcov).
  pose proof (createRule_state now args this) as H.
  destruct (arg_category args) as [C|]; [|rewrite H; repeat split; assumption].
  destruct H as [Hr Hc].
  set (rule := mkRule (generateId this C) (arg_title args) C
                 (or_string (arg_description args) EmptyString) (arg_content args)
                 (or_array (arg_tags args) []) (or_array (arg_examples args) [])
                 [] now "1.0.0") in *.
  assert (Hnames : name <$> this_categories (snd (createRule now args this))
                   = if decide (C ∈ name <$> this_categories this)
                     then name <$> this_categories this
                     else ((name <$> this_categories this) ++ [C])%list).
  { rewrite Hc. apply add_member_names. }
  split; [|split].
  - unfold names_distinct. rewrite Hnames.
    destruct (decide _); [exact Hnd|]. apply NoDup_snoc_fresh; assumption.
  - intros c Hin. rewrite Hr, filter_snoc, fmap_app. rewrite Hc in Hin.
    unfold add_member in Hin.
    destruct (list_find _ (this_categories this)) as [[i c0]|] eqn:Hf.
    + apply list_find_Some in Hf as (Hi & Hn & _).
      apply list_elem_of_lookup_1 in Hin as [j Hj].
      destruct (decide (j = i)) as [->|Hne].
      * rewrite list_lookup_insert_eq in Hj by (eapply lookup_lt_Some, Hi).
        injection Hj as <-. cbn [rules name].
        rewrite (Hmem c0) by (eapply list_elem_of_lookup_2, Hi).
        rewrite decide_True by (symmetry; exact Hn). reflexivity.
      * rewrite list_lookup_insert_ne in Hj by congruence.
        rewrite (Hmem c) by (eapply list_elem_of_lookup_2, Hj).
        rewrite decide_False; [rewrite app_nil_r; reflexivity|].
        cbn [category rule]. intros Heq. apply Hne.
        apply (names_lookup_unique _ j i c c0 Hnd Hj Hi). congruence.
    + apply find_category_None in Hf.
      apply elem_of_app in Hin as [Hin|Hin].
      * rewrite (Hmem c Hin).
        rewrite decide_False; [rewrite app_nil_r; reflexivity|].
        cbn [category rule]. intros Heq. apply Hf. rewrite Heq.
        apply list_elem_of_fmap. exists c. auto.
      * apply list_elem_of_singleton in Hin. subst c. cbn [rules name].
        rewrite (uncovered_category_is_empty this C Hcov Hf).
        rewrite decide_True by reflexivity. reflexivity.
  - intros r Hin. rewrite Hr in Hin. rewrite Hnames.
    apply elem_of_app in Hin as [Hin|Hin].
    + specialize (Hcov r Hin). destruct (decide _); [exact Hcov|].
      apply elem_of_app. left. exact Hcov.
    + apply list_elem_of_singleton in Hin. subst r. cbn [category rule].
      destruct (decide _) as [Hy|Hn]; [exact Hy|]. apply elem_of_app. right. constructor.
Qed.

Lemma createCategory_consistent (args : CategoryArgs) :
  preserves index_consistent (createCategory args).
Proof.
  intros this (Hnd & Hmem & Hcov).
  destruct (createCategory_state args this) as [Hr Hc].
  destruct (decide (arg_name args ∈ name <$> this_categories this)) as [Hy|Hn].
  - unfold index_consistent, names_distinct. rewrite Hr, Hc. auto.
  - unfold index_consistent, names_distinct. rewrite Hr, Hc. split; [|split].
    + rewrite fmap_app. apply NoDup_snoc_fresh; assumption.
    + intros c Hin. apply elem_of_app in Hin as [Hin|Hin]; [auto|].
      apply list_elem_of_singleton in Hin. subst c. cbn [rules name].
      rewrite (uncovered_category_is_empty this _ Hcov Hn). reflexivity.
    + intros r Hin. rewrite fmap_app. apply elem_of_app. left. auto.
Qed.

Lemma updateRule_consistent (now id_ : string) (updates : Updates) :
  upd_category updates = None ->
  preserves index_consistent (updateRule now id_ updates).
Proof.
  intros Hupd this (Hnd & Hmem & Hcov).
  destruct (list_find (fun r => id r = id_) (this_rules this)) as [[i r]|] eqn:Hf.
  - destruct (updateRule_state now id_ updates this i r Hf) as (Hr & Hc & _).
    apply list_find_Some in Hf as (Hi & _ & _).
    assert (Hcat : category (merge r updates now) = category r).
    { cbn. rewrite Hupd. reflexivity. }
    unfold index_consistent, names_distinct. rewrite Hr, Hc. split; [exact Hnd|]. split.
    + intros c Hin. rewrite (Hmem c Hin). symmetry.
      apply (filter_insert_ids _ _ i r); [exact Hi|reflexivity|]. rewrite Hcat. tauto.
    + intros r' Hin. apply elem_of_insert_inv in Hin as [->|Hin]; [|auto].
      rewrite Hcat. apply Hcov. eapply list_elem_of_lookup_2, Hi.
  - unfold updateRule. rewrite Hf. repeat split; assumption.
Qed.

Lemma deleteRule_consistent (id_ : string) (this : Server) :
  ids_distinct this -> index_consistent this ->
  index_consistent (snd (deleteRule id_ this)).
Proof.
  intros Hids (Hnd & Hmem & Hcov).
  destruct (list_find (fun r => id r = id_) (this_rules this)) as [[i r]|] eqn:Hf.
  - destruct (deleteRule_state id_ this i r Hf) as (Hr & Hc).
    apply list_find_Some in Hf as (Hi & Hid & _).
    unfold index_consistent, names_distinct. rewrite Hr, Hc.
    split; [rewrite remove_member_names; exact Hnd|]. split.
    + intros c Hin. unfold remove_member in Hin.
      destruct (list_find _ (this_categories this)) as [[j c0]|] eqn:Hfc.
      * apply list_find_Some in Hfc as (Hj & Hn & _).
        apply list_elem_of_lookup_1 in Hin as [k Hk].
        destruct (decide (k = j)) as [->|Hne].
        -- rewrite list_lookup_insert_eq in Hk by (eapply lookup_lt_Some, Hj).
           injection Hk as <-. cbn [rules name].
           rewrite (Hmem c0) by (eapply list_elem_of_lookup_2, Hj).
           rewrite <- Hid. apply filter_delete_ids; assumption.
        -- rewrite list_lookup_insert_ne in Hk by congruence.
           rewrite (Hmem c) by (eapply list_elem_of_lookup_2, Hk).
           rewrite (filter_delete_other _ _ i r); [reflexivity|exact Hi|].
           intros Heq. apply Hne.
           apply (names_lookup_unique _ k j c c0 Hnd Hk Hj). congruence.
      * apply find_category_None in Hfc. exfalso. apply Hfc, Hcov.
        eapply list_elem_of_lookup_2, Hi.
    + intros r' Hin. rewrite remove_member_names. apply Hcov.
      eapply list_elem_of_delete_inv, Hin.
  - unfold deleteRule. rewrite Hf. repeat split; assumption.
Qed.

End IndexConsistency.

Lemma store_empty_consistent : Invariant.index_consistent store_empty.
Proof.
  split; [constructor|]. split; intros x H; inversion H.
Qed.

Lemma store_three_git_consistent : Invariant.index_consistent store_three_git.
Proof.
  unfold store_three_git, after.
  do 3 apply createRule_consistent. exact store_empty_consistent.
Qed.

Lemma store_three_git_distinct : Invariant.ids_distinct store_three_git.
Proof.
  unfold Invariant.ids_distinct. compute_done.
Qed.

(** With two rules of one id, [deleteRule] breaks the agreement: the
    rule that stays is no longer a member of its category. *)
Lemma deleteRule_duplicate_id_breaks_index :
  Invariant.index_consistent store_recreated
  /\ ~ Invariant.ids_distinct store_recreated
  /\ ~ Invariant.index_consistent (snd (Rules.deleteRule "git-003" store_recreated)).
Proof.
  split; [|split].
  - unfold store_recreated, after. apply createRule_consistent.
    apply deleteRule_consistent;
      [exact store_three_git_distinct|exact store_three_git_consistent].
  - unfold Invariant.ids_distinct. intros H.
    apply (NoDup_lookup _ 1 2 "git-003") in H; [discriminate H|reflexivity..].
  - intros (_ & Hmem & _).
    specialize (Hmem (Rules.mkCategory "git" "Rules for git" ["git-001"])).
    vm_compute in Hmem. discriminate Hmem. constructor.
Qed.

(** X5: the index and the rules stay in agreement. If the member list of
    every category is the list of the ids of the rules of that category,
    in store order, and every rule has its category in the index, then
    the same holds after [createRule], after [createCategory], after an
    [updateRule] that supplies no category, and, as long as the ids of the
    rules are pairwise distinct, after [deleteRule]. *)
Theorem index_stays_consistent :
  (forall now args,
      Invariant.preserves Invariant.index_consistent (Rules.createRule now args))
  /\ (forall args,
        Invariant.preserves Invariant.index_consistent (RuleTools.createCategory args))
  /\ (forall now id_ updates,
        Rules.upd_category updates = None ->
        Invariant.preserves Invariant.index_consistent (Rules.updateRule now id_ updates))
  /\ (forall id_ this,
        Invariant.ids_distinct this -> Invariant.index_consistent this ->
        Invariant.index_consistent (snd (Rules.deleteRule id_ this))).
Proof.
  split; [exact createRule_consistent|]. split; [exact createCategory_consistent|].
  split; [exact updateRule_consistent|exact deleteRule_consistent].
Qed.

Lemma index_stays_consistent_witness :
  Invariant.index_consistent store_three_git
  /\ Invariant.index_consistent (snd (Rules.deleteRule "git-002" store_three_git))
  /\ Rules.this_categories (snd (Rules.deleteRule "git-002" store_three_git))
     = [Rules.mkCategory "git" "Rules for git" ["git-001"; "git-003"]].
Proof.
  destruct index_stays_consistent as (Hc & _ & _ & Hd).
  assert (H3 : Invariant.index_consistent store_three_git).
  { unfold store_three_git, after. do 3 apply Hc.
    split; [constructor|]. split; intros x H; inversion H. }
  split; [exact H3|]. split; [|reflexivity].
  apply Hd; [|exact H3].
  unfold Invariant.ids_distinct. compute_done.
Defined.

(** ** Deleting, creating and listing *)

Section DeleteCreateList.

Import Rules RuleTools Invariant.

Lemma NoDup_delete_fresh {A} (f : A -> string) (l : list A) (i : nat) (x : A) :
  NoDup (f <$> l) -> l !! i = Some x ->
  NoDup (f <$> delete i l) /\ f x ∉ f <$> delete i l.
Proof.
  revert i. induction l as [|y l IH]; intros [|i] Hnd Hi; try discriminate.
  - injection Hi as ->. rewrite fmap_cons in Hnd. apply NoDup_cons in Hnd. tauto.
  - simpl in Hi. change (delete (S i) (y :: l)) with (y :: delete i l).
    rewrite fmap_cons in Hnd |- *. apply NoDup_cons in Hnd as [Hy Hnd].
    destruct (IH i Hnd Hi) as [Hnd' Hx]. split.
    + apply NoDup_cons. split; [|exact Hnd'].
      intros Hin. apply Hy. apply list_elem_of_fmap in Hin as (z & Hz & Hin).
      apply list_elem_of_fmap. exists z. split; [exact Hz|].
      eapply list_elem_of_delete_inv, Hin.
    + intros Hin. apply elem_of_cons in Hin as [Heq|Hin]; [|contradiction].
      apply Hy. rewrite <- Heq. apply list_elem_of_fmap. exists x.
      split; [reflexivity|]. eapply list_elem_of_lookup_2, Hi.
Qed.

Lemma elem_of_delete_later {A} (l : list A) (i j : nat) (x : A) :
  i < j -> l !! j = Some x -> x ∈ delete i l.
Proof.
  intros Hlt Hj. apply (list_elem_of_lookup_2 _ (j - 1)).
  rewrite list_lookup_delete_ge by lia. replace (S (j - 1)) with j by lia. exact Hj.
Qed.

Lemma find_rule_app_old (this this' : Server) (new : list Rule) (id_ : string) (r : Rule) :
  this_rules this' = (this_rules this ++ new)%list ->
  find_rule this id_ = Some r -> find_rule this' id_ = Some r.
Proof.
  unfold find_rule. intros -> Hf. apply fmap_Some in Hf as ([i r'] & Hf & ->).
  rewrite (list_find_app_l _ _ _ _ _ Hf). reflexivity.
Qed.

Lemma find_rule_app_new (this this' : Server) (r : Rule) :
  this_rules this' = (this_rules this ++ [r])%list ->
  find_rule this (id r) = None -> find_rule this' (id r) = Some r.
Proof.
  unfold find_rule. intros -> Hf. apply fmap_None in Hf.
  rewrite list_find_app_r by exact Hf. simpl.
  rewrite decide_True by reflexivity. reflexivity.
Qed.

Lemma prefix_refl (s : string) : String.prefix s s = true.
Proof.
  induction s as [|c s IH]; [reflexivity|].
  rewrite prefix_cons, IH, bool_decide_eq_true_2; reflexivity.
Qed.

Lemma includes_refl (s : string) : includes s s = true.
Proof.
  destruct s as [|a s]; [reflexivity|]. cbn [includes].
  rewrite prefix_refl. reflexivity.
Qed.

Lemma sublist_filter_impl {A} (P Q : A -> Prop) `{forall x, Decision (P x)}
    `{forall x, Decision (Q x)} (l : list A) :
  (forall x, P x -> Q x) -> filter P l `sublist_of` filter Q l.
Proof.
  intros HPQ. induction l as [|x l IH]; [reflexivity|].
  rewrite !filter_cons. destruct (decide (P x)) as [HP|HP].
  - rewrite decide_True by auto. apply sublist_skip. exact IH.
  - destruct (decide (Q x)); [apply sublist_cons|]; exact IH.
Qed.

End DeleteCreateList.

(** X6: [deleteRule] takes exactly one record out of the store, the first
    with the id, and keeps the others in their order. If the ids were
    pairwise distinct they still are and the id is gone: a lookup now
    fails. If a later record has the same id it stays, and a lookup by
    the id still succeeds. *)
Theorem deleteRule_removes_the_first (id_ : string) (this : Rules.Server)
    (i : nat) (r : Rules.Rule) :
  Rules.this_rules this !! i = Some r ->
  Rules.id r = id_ ->
  (forall j r0, Rules.this_rules this !! j = Some r0 -> j < i -> Rules.id r0 <> id_) ->
  Rules.this_rules (snd (Rules.deleteRule id_ this))
  = (take i (Rules.this_rules this) ++ drop (S i) (Rules.this_rules this))%list
  /\ (Invariant.ids_distinct this ->
      Invariant.ids_distinct (snd (Rules.deleteRule id_ this))
      /\ RuleTools.getRuleById id_ (snd (Rules.deleteRule id_ this))
         = Throw (Error ("Rule not found: " +:+ id_)))
  /\ (forall j r2, i < j -> Rules.this_rules this !! j = Some r2 -> Rules.id r2 = id_ ->
      exists rule related,
        RuleTools.getRuleById id_ (snd (Rules.deleteRule id_ this))
        = Return (rule, related))
  /\ (forall k cat,
        list_find (fun c => Rules.name c = Rules.category r) (Rules.this_categories this)
        = Some (k, cat) ->
        exists cat',
          Rules.this_categories (snd (Rules.deleteRule id_ this)) !! k = Some cat'
          /\ Rules.name cat' = Rules.name cat /\ id_ ∉ Rules.rules cat').
Proof.
  intros Hi Hid Hfirst.
  pose proof (findIndex_first _ _ _ _ Hi Hid Hfirst) as Hfind.
  destruct (deleteRule_state id_ this i r Hfind) as [Hr Hc].
  split; [rewrite Hr; apply delete_take_drop|]. split; [|split].
  - intros Hnd. unfold Invariant.ids_distinct in *.
    destruct (NoDup_delete_fresh Rules.id _ i r Hnd Hi) as [Hnd' Hfresh].
    rewrite Hr. split; [exact Hnd'|].
    apply getRuleById_cases. rewrite Hr, <- Hid. exact Hfresh.
  - intros j r2 Hlt Hj Hid2.
    destruct (proj2 (getRuleById_cases id_ (snd (Rules.deleteRule id_ this))))
      as (k & rule & related & Hget & _).
    + rewrite Hr. apply list_elem_of_fmap. exists r2. split; [auto|].
      apply (elem_of_delete_later _ i j); assumption.
    + eauto.
  - intros k cat Hk. rewrite Hc. apply remove_member_spec. exact Hk.
Qed.

Lemma deleteRule_removes_the_first_witness :
  Rules.timestamp <$> Rules.this_rules store_recreated = ["t0"; "t2"; "t4"]
  /\ Rules.timestamp <$> Rules.this_rules (snd (Rules.deleteRule "git-003" store_recreated))
     = ["t0"; "t4"]
  /\ (exists rule related,
        RuleTools.getRuleById "git-003" (snd (Rules.deleteRule "git-003" store_recreated))
        = Return (rule, related))
  /\ RuleTools.getRuleById "git-002" (snd (Rules.deleteRule "git-002" store_three_git))
     = Throw (Error "Rule not found: git-002").
Proof.
  split; [reflexivity|].
  destruct (deleteRule_removes_the_first "git-003" store_recreated 1
              (Rules.mkRule "git-003" (Some "A rule") "git" EmptyString (Some "Do this.")
                 [] [] [] "t2" "1.0.0") eq_refl eq_refl)
    as (Hr & _ & Hlater & _).
  { intros [|j] r0 Hj Hlt; [|lia]. injection Hj as <-. discriminate. }
  split; [rewrite Hr; reflexivity|]. split.
  - apply (Hlater 2 (Rules.mkRule "git-003" (Some "A rule") "git" EmptyString
                       (Some "Do this.") [] [] [] "t4" "1.0.0")); [lia|reflexivity..].
  - destruct (deleteRule_removes_the_first "git-002" store_three_git 1
                (Rules.mkRule "git-002" (Some "A rule") "git" EmptyString (Some "Do this.")
                   [] [] [] "t1" "1.0.0") eq_refl eq_refl)
      as (_ & Hdistinct & _).
    { intros [|j] r0 Hj Hlt; [|lia]. injection Hj as <-. discriminate. }
    apply Hdistinct.
    unfold Invariant.ids_distinct. compute_done.
Defined.

(** X7: after [createRule] a lookup by the id that it minted returns the
    new rule if no rule had that id before; if one had, the lookup keeps
    returning the rule that had the id first, and the new rule cannot be
    reached by its id. *)
Theorem createRule_then_getRuleById (now : string) (args : Rules.CreateArgs)
    (this : Rules.Server) (C : string) :
  Rules.arg_category args = Some C ->
  exists rule,
    Rules.this_rules (snd (Rules.createRule now args this))
    = (Rules.this_rules this ++ [rule])%list
    /\ Rules.id rule = Rules.generateId this C
    /\ (Rules.id rule ∉ Rules.id <$> Rules.this_rules this ->
        exists related,
          RuleTools.getRuleById (Rules.id rule) (snd (Rules.createRule now args this))
          = Return (rule, related))
    /\ (forall old,
          RuleTools.find_rule this (Rules.id rule) = Some old ->
          exists related,
            RuleTools.getRuleById (Rules.id rule) (snd (Rules.createRule now args this))
            = Return (old, related)).
Proof.
  intros HC.
  destruct (createRule_appends now args this C HC) as (rule & Hr & _ & Hrule & _).
  exists rule. split; [exact Hr|]. split; [rewrite Hrule; reflexivity|]. split.
  - intros Hfresh. apply find_rule_None in Hfresh.
    unfold RuleTools.getRuleById.
    rewrite (find_rule_app_new this _ rule Hr Hfresh). eauto.
  - intros old Hold. unfold RuleTools.getRuleById.
    rewrite (find_rule_app_old this _ [rule] _ old Hr Hold). eauto.
Qed.

Lemma createRule_then_getRuleById_witness :
  exists rule related,
    RuleTools.getRuleById "git-003"
      (snd (Rules.createRule "t4" (args_in "git")
              (snd (Rules.deleteRule "git-002" store_three_git))))
    = Return (rule, related)
    /\ Rules.timestamp rule = "t2".
Proof.
  destruct (createRule_then_getRuleById "t4" (args_in "git")
              (snd (Rules.deleteRule "git-002" store_three_git)) "git" eq_refl)
    as (rule & _ & Hid & _ & Hold).
  destruct (Hold (Rules.mkRule "git-003" (Some "A rule") "git" EmptyString
                    (Some "Do this.") [] [] [] "t2" "1.0.0")) as [related Hget].
  { rewrite Hid. reflexivity. }
  rewrite Hid in Hget. eexists _, related. split; [exact Hget|reflexivity].
Defined.

(** X8: the categories that [createRule] makes on the way and those that
    [createCategory] makes are the same categories. After a [createRule]
    in a category, [createCategory] with that name fails, the server
    unchanged; and after a [createCategory] with a new name, a
    [createRule] in it enters its id in that category, with the
    description given, and makes no second one. *)
Theorem createCategory_and_createRule_share_categories :
  (forall (now : string) (args : Rules.CreateArgs) (this : Rules.Server) (C : string)
          (description_ : option string),
      Rules.arg_category args = Some C ->
      RuleTools.createCategory (RuleTools.mkCategoryArgs C description_)
        (snd (Rules.createRule now args this))
      = (Throw (Error ("Category already exists: " +:+ C)),
         snd (Rules.createRule now args this)))
  /\ (forall (now : string) (args : Rules.CreateArgs) (this : Rules.Server) (C : string)
             (description_ : option string),
      Rules.arg_category args = Some C ->
      C ∉ Rules.name <$> Rules.this_categories this ->
      Rules.this_categories
        (snd (Rules.createRule now args
                (snd (RuleTools.createCategory (RuleTools.mkCategoryArgs C description_)
                        this))))
      = (Rules.this_categories this ++
         [Rules.mkCategory C (default ("Rules for " +:+ C) description_)
            [Rules.generateId this C]])%list).
Proof.
  split.
  - intros now args this C d HC.
    destruct (createRule_appends now args this C HC) as (rule & _ & Hc & _).
    destruct (add_member_spec (Rules.this_categories this) C (Rules.id rule))
      as (cat & Hin & Hname & _).
    rewrite <- Hc in Hin. unfold RuleTools.createCategory. cbn [RuleTools.arg_name].
    destruct (list_find _ _) as [[i c]|] eqn:Hf; [reflexivity|].
    apply find_category_None in Hf. exfalso. apply Hf.
    apply list_elem_of_fmap. exists cat. auto.
  - intros now args this C d HC Hfresh.
    destruct (createCategory_state (RuleTools.mkCategoryArgs C d) this) as [Hr Hc].
    cbn [RuleTools.arg_name RuleTools.arg_cat_description] in Hc.
    rewrite decide_False in Hc by exact Hfresh.
    pose proof (createRule_state now args
                  (snd (RuleTools.createCategory (RuleTools.mkCategoryArgs C d) this))) as H.
    rewrite HC in H. destruct H as [_ ->]. rewrite Hc.
    assert (Hgen : Rules.generateId
                     (snd (RuleTools.createCategory (RuleTools.mkCategoryArgs C d) this)) C
                   = Rules.generateId this C).
    { unfold Rules.generateId. rewrite Hr. reflexivity. }
    rewrite Hgen. unfold Rules.add_member.
    apply find_category_None in Hfresh.
    rewrite list_find_app_r by exact Hfresh. simpl.
    rewrite decide_True by reflexivity. simpl.
    rewrite insert_app_r_alt by lia. rewrite Nat.sub_diag. reflexivity.
Qed.

Lemma createCategory_and_createRule_share_categories_witness :
  RuleTools.createCategory (RuleTools.mkCategoryArgs "git" None) store_three_git
  = (Throw (Error "Category already exists: git"), store_three_git)
  /\ Rules.this_categories
       (snd (Rules.createRule "t3" (args_in "docs")
               (snd (RuleTools.createCategory
                       (RuleTools.mkCategoryArgs "docs" (Some EmptyString))
                       store_three_git))))
     = [Rules.mkCategory "git" "Rules for git" ["git-001"; "git-002"; "git-003"];
        Rules.mkCategory "docs" EmptyString ["doc-001"]].
Proof.
  destruct createCategory_and_createRule_share_categories as [Ha Hb]. split.
  - apply (Ha "t2" (args_in "git")
              (snd (Rules.createRule "t1" (args_in "git")
                      (snd (Rules.createRule "t0" (args_in "git") store_empty))))
              "git" None eq_refl).
  - rewrite (Hb "t3" (args_in "docs") store_three_git "docs" (Some EmptyString) eq_refl).
    + reflexivity.
    + vm_compute. intros H. apply elem_of_cons in H as [H|H]; [discriminate H|].
      apply elem_of_nil in H. exact H.
Defined.

(** X9: [getRulesByCategory] lists, in store order, the rules whose
    lowercased category contains the lowercased argument: the same rules
    as the category filter of the search and as the category option of
    the export, hence every rule of exactly that category and, with an
    index that agrees with the rules, every member of the category of
    that name. *)
Theorem getRulesByCategory_is_substring_match (category_ : string) (this : Rules.Server) :
  RuleTools.getRulesByCategory category_ this
  = Rules.filter_category (Some category_) (Rules.this_rules this)
  /\ RuleTools.getRulesByCategory category_ this `sublist_of` Rules.this_rules this
  /\ (forall r, r ∈ Rules.this_rules this -> Rules.category r = category_ ->
                r ∈ RuleTools.getRulesByCategory category_ this)
  /\ RuleTools.rulesToExport (Some category_) this
     = RuleTools.getRulesByCategory category_ this
  /\ (Invariant.index_consistent this ->
      forall cat, cat ∈ Rules.this_categories this -> Rules.name cat = category_ ->
        Rules.rules cat `sublist_of`
        (Rules.id <$> RuleTools.getRulesByCategory category_ this)).
Proof.
  assert (Hall : category_ = EmptyString ->
                 RuleTools.getRulesByCategory category_ this = Rules.this_rules this).
  { intros ->. unfold RuleTools.getRulesByCategory. apply filter_all.
    intros r _. simpl. rewrite includes_nil. exact I. }
  assert (Hfilter : RuleTools.getRulesByCategory category_ this
                    = Rules.filter_category (Some category_) (Rules.this_rules this)).
  { unfold Rules.filter_category, truthy. case_bool_decide as He; [auto|reflexivity]. }
  split; [exact Hfilter|]. split; [apply sublist_filter|]. split; [|split].
  - intros r Hin <-. apply list_elem_of_filter. split; [|exact Hin].
    rewrite includes_refl. exact I.
  - rewrite Hfilter. reflexivity.
  - intros (_ & Hmem & _) cat Hin Hname. rewrite (Hmem cat Hin), Hname.
    apply fmap_sublist, sublist_filter_impl.
    intros r ->. rewrite includes_refl. exact I.
Qed.

Lemma getRulesByCategory_is_substring_match_witness :
  RuleTools.getRulesByCategory "GIT" store_search = [rule_git; rule_git_b]
  /\ RuleTools.getRulesByCategory "od" store_search = [rule_hooks; rule_ab]
  /\ Rules.rules (Rules.mkCategory "git" "Rules for git" ["git-001"; "git-002"; "git-003"])
     `sublist_of` (Rules.id <$> RuleTools.getRulesByCategory "git" store_three_git).
Proof.
  split; [|split].
  - rewrite (proj1 (getRulesByCategory_is_substring_match "GIT" store_search)).
    reflexivity.
  - rewrite (proj1 (getRulesByCategory_is_substring_match "od" store_search)).
    reflexivity.
  - destruct (getRulesByCategory_is_substring_match "git" store_three_git)
      as (_ & _ & _ & _ & Hmem).
    apply Hmem; [exact store_three_git_consistent|constructor|reflexivity].
Defined.

(** ** Import and export *)

Section ImportExport.

Import Rules RuleTools Invariant.





Lemma importRules_json (now filePath : string) (importedRules : list ImportedRule)
    (format : option string) (this : Server) :
  default "json" format = "json" ->
  this_rules (snd (importRules now filePath (JsonRules importedRules) format this))
  = (this_rules this ++ (backfill now this <$> importedRules))%list
  /\ this_categories (snd (importRules now filePath (JsonRules importedRules) format this))
     = foldl enter_member (this_categories this) (backfill now this <$> importedRules)
  /\ (writable this = true ->
      fst (importRules now filePath (JsonRules importedRules) format this)
      = Return (length importedRules)).
Proof.
  intros Hfmt.
  pose proof (importRules_state now filePath (JsonRules importedRules) format this) as H.
  cbn beta iota in H. rewrite bool_decide_eq_true_2 in H by exact Hfmt.
  destruct H as [Hr Hc]. split; [exact Hr|]. split; [exact Hc|].
  intros Hw. unfold importRules, saveRules.
  rewrite bool_decide_eq_true_2 by exact Hfmt. cbn [writable]. rewrite Hw.
  simpl. rewrite length_fmap. reflexivity.
Qed.

Lemma NoDup_two_equal {A} (l : list A) (p1 p2 : nat) (x : A) :
  p1 < p2 -> l !! p1 = Some x -> l !! p2 = Some x -> ~ NoDup l.
Proof.
  intros Hlt H1 H2 Hnd. pose proof (NoDup_lookup l p1 p2 x Hnd H1 H2). lia.
Qed.

End ImportExport.

(** X10: [importRules] appends the rules of the file, in their order,
    after the rules of the store, which stay as they are. A rule that
    comes with an id keeps it, also when the store has that id already; a
    rule without one is given the id that [generateId] mints on the store
    as it was before the import, so two rules of the file that lack an id
    and have the same category are given the same id. *)
Theorem importRules_appends_and_backfills (now filePath : string)
    (importedRules : list RuleTools.ImportedRule) (format : option string)
    (this : Rules.Server) :
  default "json" format = "json" ->
  exists imported,
    Rules.this_rules
      (snd (RuleTools.importRules now filePath (RuleTools.JsonRules importedRules)
              format this))
    = (Rules.this_rules this ++ imported)%list
    /\ length imported = length importedRules
    /\ (forall p fromFile r,
          importedRules !! p = Some fromFile -> imported !! p = Some r ->
          Rules.category r = RuleTools.imp_category fromFile
          /\ Rules.title r = RuleTools.imp_title fromFile
          /\ Rules.content r = RuleTools.imp_content fromFile
          /\ (forall i, truthy (RuleTools.imp_id fromFile) = Some i -> Rules.id r = i)
          /\ (truthy (RuleTools.imp_id fromFile) = None ->
              Rules.id r = Rules.generateId this (RuleTools.imp_category fromFile)))
    /\ (forall p1 p2 r1 r2,
          p1 < p2 ->
          importedRules !! p1 = Some r1 -> importedRules !! p2 = Some r2 ->
          truthy (RuleTools.imp_id r1) = None -> truthy (RuleTools.imp_id r2) = None ->
          RuleTools.imp_category r1 = RuleTools.imp_category r2 ->
          ~ Invariant.ids_distinct
              (snd (RuleTools.importRules now filePath (RuleTools.JsonRules importedRules)
                      format this)))
    /\ (Rules.writable this = true ->
        fst (RuleTools.importRules now filePath (RuleTools.JsonRules importedRules)
               format this)
        = Return (length importedRules)).
Proof.
  intros Hfmt.
  destruct (importRules_json now filePath importedRules format this Hfmt)
    as (Hr & _ & Hret).
  exists (RuleTools.backfill now this <$> importedRules).
  split; [exact Hr|]. split; [apply length_fmap|]. split; [|split; [|exact Hret]].
  - intros p fromFile r Hp Hr'. rewrite list_lookup_fmap, Hp in Hr'.
    injection Hr' as <-. unfold RuleTools.backfill. cbn.
    repeat split.
    + intros i ->. reflexivity.
    + intros ->. reflexivity.
  - intros p1 p2 r1 r2 Hlt H1 H2 Hn1 Hn2 Hcat. unfold Invariant.ids_distinct.
    rewrite Hr, fmap_app.
    apply (NoDup_two_equal _ (length (Rules.id <$> Rules.this_rules this) + p1)
             (length (Rules.id <$> Rules.this_rules this) + p2)
             (Rules.generateId this (RuleTools.imp_category r1))); [lia|..].
    + rewrite lookup_app_r by lia.
      replace (_ + p1 - _) with p1 by lia.
      rewrite !list_lookup_fmap, H1. cbn. rewrite Hn1. reflexivity.
    + rewrite lookup_app_r by lia.
      replace (_ + p2 - _) with p2 by lia.
      rewrite !list_lookup_fmap, H2. cbn. rewrite Hn2, Hcat. reflexivity.
Qed.

Lemma importRules_appends_and_backfills_witness :
  Rules.id <$> Rules.this_rules
                 (snd (RuleTools.importRules "t8" "rules.json" (RuleTools.JsonRules file_three)
                         None store_three_git))
  = ["git-001"; "git-002"; "git-003"; "doc-001"; "doc-001"; "git-001"]
  /\ ~ Invariant.ids_distinct
         (snd (RuleTools.importRules "t8" "rules.json" (RuleTools.JsonRules file_three)
                 None store_three_git))
  /\ fst (RuleTools.importRules "t8" "rules.json" (RuleTools.JsonRules file_three)
            None store_three_git) = Return 3.
Proof.
  destruct (importRules_appends_and_backfills "t8" "rules.json" file_three None
              store_three_git eq_refl) as (imported & Hr & _ & _ & Hdup & Hret).
  split; [reflexivity|]. split.
  - apply (Hdup 0 1 _ _ ltac:(lia) eq_refl eq_refl eq_refl eq_refl eq_refl).
  - apply Hret. reflexivity.
Defined.


(** ** What a query finds *)

Section ScoreFacts.

Import Spec.

Lemma filter_length_pos {A} (P : A -> Prop) `{forall x, Decision (P x)} (l : list A) :
  0 < length (filter P l) <-> exists x, x ∈ l /\ P x.
Proof.
  split.
  - intros Hpos. destruct (filter P l) as [|x rest] eqn:Hf; [simpl in Hpos; lia|].
    exists x. assert (Hin : x ∈ filter P l) by (rewrite Hf; constructor).
    apply list_elem_of_filter in Hin. tauto.
  - intros (x & Hin & HP).
    assert (Hx : x ∈ filter P l) by (apply list_elem_of_filter; auto).
    destruct (filter P l); [inversion Hx|simpl; lia].
Qed.

Lemma filter_bool_length_pos {A} (p : A -> bool) (l : list A) :
  0 < length (filter (fun x => p x) l) <-> exists x, x ∈ l /\ p x = true.
Proof.
  rewrite filter_length_pos. split; intros (x & Hx & Hp); exists x; (split; [exact Hx|]).
  - apply Is_true_true. exact Hp.
  - apply Is_true_true. exact Hp.
Qed.

Lemma signal_pos (b : bool) (w : nat) : 0 < w -> (0 < signal b w <-> b = true).
Proof. intros Hw. destruct b; simpl; split; intros; try lia; congruence. Qed.

Lemma occurrences_pos (q s : string) : 0 < occurrences q s <-> includes s q = true.
Proof.
  pose proof (occurrences_zero q s) as H. destruct (includes s q).
  - split; [reflexivity|]. intros _.
    destruct (occurrences q s); [|lia]. destruct H as [H _]. discriminate (H eq_refl).
  - split; [|discriminate]. intros Hpos. destruct H as [_ H]. rewrite H in Hpos; [lia|reflexivity].
Qed.

(** The rules that a plain-text query finds. *)
Lemma rule_score_pos (q t c : string) (r : Rules.Rule) :
  0 < rule_score q t c r <->
  includes (toLowerCase t) q = true
  \/ (exists tag, tag ∈ Rules.tags r /\ tag_matches q tag = true)
  \/ includes (toLowerCase (Rules.category r)) q = true
  \/ includes (toLowerCase c) q = true
  \/ includes (toLowerCase (Rules.description r)) q = true
  \/ (exists e, e ∈ Rules.examples r /\ includes (toLowerCase e) q = true).
Proof.
  unfold rule_score.
  rewrite <- (signal_pos (includes (toLowerCase t) q) 50) by lia.
  rewrite <- (signal_pos (includes (toLowerCase (Rules.category r)) q) 30) by lia.
  rewrite <- (signal_pos (includes (toLowerCase (Rules.description r)) q) 25) by lia.
  rewrite <- occurrences_pos.
  rewrite <- (filter_bool_length_pos (fun tag => tag_matches q tag) (Rules.tags r)).
  rewrite <- (filter_bool_length_pos (fun e => includes (toLowerCase e) q) (Rules.examples r)).
  lia.
Qed.

(** The memories that a plain-text query finds. *)
Lemma memory_score_pos (q t c k : string) (m : Memory.MemoryEntry) :
  0 < memory_score q t c k m <->
  includes (toLowerCase t) q = true
  \/ (exists tag, tag ∈ Memory.tags m /\ tag_matches q tag = true)
  \/ includes (toLowerCase k) q = true
  \/ includes (toLowerCase c) q = true
  \/ includes (Memory.contextText m) q = true.
Proof.
  unfold memory_score, Memory.contextText.
  rewrite <- (signal_pos (includes (toLowerCase t) q) 50) by lia.
  rewrite <- (signal_pos (includes (toLowerCase k) q) 25) by lia.
  rewrite <- (signal_pos (includes (toLowerCase (join " " (map snd (Memory.context m)))) q)
                25) by lia.
  rewrite <- occurrences_pos.
  rewrite <- (filter_bool_length_pos (fun tag => tag_matches q tag) (Memory.tags m)).
  lia.
Qed.

End ScoreFacts.

(** X12: a query found in the title is worth at least 50. Whenever
    [calculateSimilarity] produces a score for a record whose lowercased
    title contains the lowercased query, that score is 50 or more, for a
    rule and for a memory, whatever the pattern engine makes of the
    query. *)
Theorem title_match_scores_at_least_50 (foreign : RegExp.engine) (q : string) :
  (forall (r : Rules.Rule) (t : string) (score : nat),
      Rules.title r = Some t ->
      includes (toLowerCase t) (toLowerCase q) = true ->
      Rules.calculateSimilarity foreign q r = Return score ->
      50 <= score)
  /\ (forall (m : Memory.MemoryEntry) (t : string) (score : nat),
      Memory.title m = Some t ->
      includes (toLowerCase t) (toLowerCase q) = true ->
      Memory.calculateSimilarity foreign q m = Return score ->
      50 <= score).
Proof.
  split.
  - intros r t score Ht Hin H. unfold Rules.calculateSimilarity in H.
    rewrite Ht in H. cbn [defined mbind completion_bind cbind] in H. rewrite Hin in H.
    destruct (Rules.content r) as [c|]; cbn [defined cbind] in H; [|discriminate].
    destruct (RegExp.compile foreign (toLowerCase q)) as [re|]; cbn [cbind] in H;
      [|discriminate].
    injection H as <-.
    repeat match goal with |- context [if ?b then _ else _] => destruct b end; lia.
  - intros m t score Ht Hin H. unfold Memory.calculateSimilarity in H.
    rewrite Ht in H. cbn [defined mbind completion_bind cbind] in H. rewrite Hin in H.
    destruct (Memory.content m) as [c|]; cbn [defined cbind] in H; [|discriminate].
    destruct (RegExp.compile foreign (toLowerCase q)) as [re|]; cbn [cbind] in H;
      [|discriminate].
    destruct (Memory.category m) as [k|]; cbn [defined cbind] in H; [|discriminate].
    injection H as <-.
    repeat match goal with |- context [if ?b then _ else _] => destruct b end; lia.
Qed.

Lemma title_match_scores_at_least_50_witness :
  50 <= 145 /\ 50 <= 70.
Proof.
  destruct (title_match_scores_at_least_50 strict "COMMIT") as [Hr Hm]. split.
  - apply (Hr rule_git "Commit Message Format" 145); reflexivity.
  - apply (Hm memory_commit "Commit early" 70); reflexivity.
Defined.

(** X13: a plain-text query finds a record exactly when the text is in
    it. For a query whose lowercased text has no pattern syntax character
    the score of a rule with title and content is positive, so that a
    search can return the rule, if and only if the lowercased query occurs
    in its lowercased title, category, content, description or one of its
    examples, or one of its tags contains the query or is contained in it;
    and likewise for a memory with title, content and category, with the
    joined context values in the place of description and examples. *)
Theorem plain_query_finds_what_contains_it (foreign : RegExp.engine) (q : string) :
  Spec.pattern_safe (toLowerCase q) = true ->
  (forall (r : Rules.Rule) (t c : string),
      Rules.title r = Some t -> Rules.content r = Some c ->
      exists score,
        Rules.calculateSimilarity foreign q r = Return score
        /\ (0 < score <->
            includes (toLowerCase t) (toLowerCase q) = true
            \/ (exists tag, tag ∈ Rules.tags r
                            /\ (includes (toLowerCase tag) (toLowerCase q)
                                || includes (toLowerCase q) (toLowerCase tag)) = true)
            \/ includes (toLowerCase (Rules.category r)) (toLowerCase q) = true
            \/ includes (toLowerCase c) (toLowerCase q) = true
            \/ includes (toLowerCase (Rules.description r)) (toLowerCase q) = true
            \/ (exists e, e ∈ Rules.examples r
                          /\ includes (toLowerCase e) (toLowerCase q) = true)))
  /\ (forall (m : Memory.MemoryEntry) (t c k : string),
      Memory.title m = Some t -> Memory.content m = Some c ->
      Memory.category m = Some k ->
      exists score,
        Memory.calculateSimilarity foreign q m = Return score
        /\ (0 < score <->
            includes (toLowerCase t) (toLowerCase q) = true
            \/ (exists tag, tag ∈ Memory.tags m
                            /\ (includes (toLowerCase tag) (toLowerCase q)
                                || includes (toLowerCase q) (toLowerCase tag)) = true)
            \/ includes (toLowerCase k) (toLowerCase q) = true
            \/ includes (toLowerCase c) (toLowerCase q) = true
            \/ includes (Memory.contextText m) (toLowerCase q) = true)).
Proof.
  intros Hq. split.
  - intros r t c Ht Hc. eexists. split; [apply (rule_score_safe foreign q r t c Hq Ht Hc)|].
    apply rule_score_pos.
  - intros m t c k Ht Hc Hk. eexists.
    split; [apply (memory_score_safe foreign q m t c k Hq Ht Hc Hk)|].
    apply memory_score_pos.
Qed.

Lemma plain_query_finds_what_contains_it_witness :
  exists score,
    Rules.calculateSimilarity strict "Linter" rule_hooks = Return score /\ 0 < score.
Proof.
  destruct (proj1 (plain_query_finds_what_contains_it strict "Linter" eq_refl)
              rule_hooks "Hooks" "Install the git hooks" eq_refl eq_refl)
    as (score & Hs & Hpos).
  exists score. split; [exact Hs|]. apply Hpos.
  do 4 right. left. reflexivity.
Defined.
(** ** A record stored without a field that the score reads *)

Section Unscorable.

Context (foreign : RegExp.engine).

Lemma map_completion_Throw {A B} (f : A -> completion B) (xs : list A) (x : A) :
  x ∈ xs -> (exists e, f x = Throw e) -> exists e, map_completion f xs = Throw e.
Proof.
  intros Hin Hx. induction xs as [|y xs IH]; [inversion Hin|].
  simpl. apply elem_of_cons in Hin as [<-|Hin].
  - destruct Hx as [e ->]. eexists; reflexivity.
  - destruct (f y) as [b|e]; simpl; [|eexists; reflexivity].
    destruct (IH Hin) as [e ->]. eexists; reflexivity.
Qed.

Lemma memory_unscorable (q : string) (m : Memory.MemoryEntry) :
  Memory.title m = None \/ Memory.content m = None \/ Memory.category m = None ->
  exists e, Memory.calculateSimilarity foreign q m = Throw e.
Proof.
  intros H. unfold Memory.calculateSimilarity.
  destruct (Memory.title m) as [t|]; [|eexists; reflexivity].
  destruct (Memory.content m) as [c|]; [|eexists; reflexivity].
  cbn [defined mbind completion_bind cbind].
  destruct (RegExp.compile foreign (toLowerCase q)) as [re|e]; [|eexists; reflexivity].
  cbn [cbind]. destruct (Memory.category m) as [k|]; [|eexists; reflexivity].
  destruct H as [H|[H|H]]; discriminate.
Qed.

Lemma searchRules_unscorable (this : Rules.Server) (args : Rules.SearchArgs)
    (r : Rules.Rule) :
  r ∈ Rules.filteredRules this args ->
  Rules.title r = None \/ Rules.content r = None ->
  exists e, Rules.searchRules foreign this args = Throw e.
Proof.
  intros Hin Hr. unfold Rules.searchRules.
  destruct (map_completion_Throw
              (fun r => s ← Rules.calculateSimilarity foreign (Rules.query args) r;
                        Return (Rules.mkResult r s))
              (Rules.filteredRules this args) r Hin) as [e ->].
  - rewrite (rule_score_undefined foreign _ r Hr). eexists; reflexivity.
  - eexists; reflexivity.
Qed.

Lemma searchMemories_unscorable (memories passed : list Memory.MemoryEntry)
    (args : Memory.SearchArgs) (m : Memory.MemoryEntry) :
  Memory.filteredMemories memories args = Return passed ->
  m ∈ passed ->
  Memory.title m = None \/ Memory.content m = None \/ Memory.category m = None ->
  exists e, Memory.searchMemories foreign memories args = Throw e.
Proof.
  intros Hp Hin Hm. unfold Memory.searchMemories. rewrite Hp.
  cbn [mbind completion_bind cbind].
  destruct (map_completion_Throw (Memory.score_entry foreign (Memory.query args))
              passed m Hin) as [e ->].
  - unfold Memory.score_entry.
    destruct (memory_unscorable (Memory.query args) m Hm) as [e ->]. eexists; reflexivity.
  - eexists; reflexivity.
Qed.

Lemma filteredRules_unfiltered (this : Rules.Server) (args : Rules.SearchArgs) :
  truthy (Rules.arg_filter_category args) = None ->
  Rules.arg_filter_tags args = None ->
  Rules.filteredRules this args = Rules.this_rules this.
Proof.
  intros Hc Ht. unfold Rules.filteredRules, Rules.filter_category, Rules.filter_tags.
  rewrite Hc, Ht. reflexivity.
Qed.

Lemma filteredMemories_unfiltered (memories : list Memory.MemoryEntry)
    (args : Memory.SearchArgs) :
  truthy (Memory.arg_filter_project args) = None ->
  truthy (Memory.arg_filter_category args) = None ->
  Memory.arg_filter_tags args = None ->
  Memory.filteredMemories memories args = Return memories.
Proof.
  intros Hp Hc Ht.
  unfold Memory.filteredMemories, Memory.filter_project, Memory.filter_category,
    Memory.filter_tags.
  rewrite Hp, Hc, Ht. reflexivity.
Qed.

End Unscorable.

(** X14: one record stored without a field that the score reads breaks
    the search. If a rule without title or content, or a memory without
    title, content or category, passes the filters, the search throws,
    whatever the query and whatever the other records are; so after a
    [createRule] or a [storeExperience] whose request lacks such a field,
    every search without filters throws. *)
Theorem incomplete_record_breaks_search (foreign : RegExp.engine) :
  (forall (this : Rules.Server) (args : Rules.SearchArgs) (r : Rules.Rule),
      r ∈ Rules.filteredRules this args ->
      Rules.title r = None \/ Rules.content r = None ->
      exists e, Rules.searchRules foreign this args = Throw e)
  /\ (forall (memories passed : list Memory.MemoryEntry) (args : Memory.SearchArgs)
             (m : Memory.MemoryEntry),
      Memory.filteredMemories memories args = Return passed ->
      m ∈ passed ->
      Memory.title m = None \/ Memory.content m = None \/ Memory.category m = None ->
      exists e, Memory.searchMemories foreign memories args = Throw e)
  /\ (forall (now : string) (request : Rules.CreateArgs) (this : Rules.Server)
             (C : string) (args : Rules.SearchArgs),
      Rules.arg_category request = Some C ->
      Rules.arg_title request = None \/ Rules.arg_content request = None ->
      truthy (Rules.arg_filter_category args) = None ->
      Rules.arg_filter_tags args = None ->
      exists e,
        Rules.searchRules foreign (snd (Rules.createRule now request this)) args = Throw e)
  /\ (forall (newId now : string) (request : MemoryTools.StoreArgs)
             (memories : list Memory.MemoryEntry) (args : Memory.SearchArgs),
      MemoryTools.arg_title request = None \/ MemoryTools.arg_content request = None
      \/ MemoryTools.arg_category request = None ->
      truthy (Memory.arg_filter_project args) = None ->
      truthy (Memory.arg_filter_category args) = None ->
      Memory.arg_filter_tags args = None ->
      exists e,
        Memory.searchMemories foreign
          (MemoryTools.storeExperience newId now request memories) args = Throw e).
Proof.
  split; [exact (searchRules_unscorable foreign)|].
  split; [exact (searchMemories_unscorable foreign)|]. split.
  - intros now request this C args HC Hreq Hc Ht.
    destruct (createRule_appends now request this C HC) as (rule & Hr & _ & Hrule & _).
    apply (searchRules_unscorable foreign _ _ rule).
    + rewrite filteredRules_unfiltered by assumption. rewrite Hr.
      apply elem_of_app. right. constructor.
    + rewrite Hrule. exact Hreq.
  - intros newId now request memories args Hreq Hp Hc Ht.
    eapply (searchMemories_unscorable foreign).
    + apply filteredMemories_unfiltered; assumption.
    + unfold MemoryTools.storeExperience. apply elem_of_app. right. constructor.
    + exact Hreq.
Qed.

Lemma incomplete_record_breaks_search_witness :
  Memory.searchMemories strict [memory_git] (search_all "git")
  = Return [Memory.mkResult memory_git 120 ["git"]]
  /\ (exists e,
        Memory.searchMemories strict
          (MemoryTools.storeExperience "mem_9" "t9" store_untitled [memory_git])
          (search_all "git") = Throw e)
  /\ (exists e,
        Rules.searchRules strict (snd (Rules.createRule "t9" args_bare store_three_git))
          (search_git None) = Throw e).
Proof.
  split; [reflexivity|].
  destruct (incomplete_record_breaks_search strict) as (_ & _ & Hr & Hm). split.
  - apply Hm; try reflexivity. left. reflexivity.
  - apply (Hr "t9" args_bare store_three_git "git"); try reflexivity. left. reflexivity.
Defined.
(** ** What a search returns when the limit is large, and on the empty query *)

Section Completeness.

Context {A : Type} (key : A -> nat).

#[local] Abbreviation by_key' :=
  (fun a b : A => (Z.of_nat (key b) - Z.of_nat (key a))%Z).

Lemma slice0_all {B} (l : list B) (end_ : Z) :
  (Z.of_nat (length l) <= end_)%Z -> JsArray.slice0 l end_ = l.
Proof.
  intros H. unfold JsArray.slice0.
  destruct (Z.ltb_spec end_ 0) as [Hneg|_]; [lia|].
  apply take_ge. lia.
Qed.

Lemma slice0_length_min {B} (l : list B) (end_ : Z) :
  (0 <= end_)%Z -> length (JsArray.slice0 l end_) = Nat.min (Z.to_nat end_) (length l).
Proof.
  intros H. unfold JsArray.slice0.
  destruct (Z.ltb_spec end_ 0) as [Hneg|_]; [lia|].
  rewrite length_take. lia.
Qed.

(** With a limit that is not below the number of scored records, the
    ranking keeps every record of positive score. *)
Lemma rank_complete (l : list A) (limit_ : Z) (x : A) :
  (Z.of_nat (length l) <= limit_)%Z -> x ∈ l -> 0 < key x ->
  x ∈ JsArray.slice0 (JsArray.sort by_key' (filter (fun x => 0 < key x) l)) limit_.
Proof.
  intros Hlen Hin Hpos.
  rewrite slice0_all.
  - rewrite sort_Permutation. apply list_elem_of_filter. auto.
  - rewrite (Permutation_length (sort_Permutation key _)).
    pose proof (length_filter (fun x => 0 < key x) l). lia.
Qed.

(** When every scored record has a positive score, the ranking has as
    many entries as the limit allows. *)
Lemma rank_length_all (l : list A) (limit_ : Z) :
  Forall (fun x => 0 < key x) l -> (0 <= limit_)%Z ->
  length (JsArray.slice0 (JsArray.sort by_key' (filter (fun x => 0 < key x) l)) limit_)
  = Nat.min (Z.to_nat limit_) (length l).
Proof.
  intros Hall Hlim. rewrite slice0_length_min by exact Hlim.
  rewrite (Permutation_length (sort_Permutation key _)).
  rewrite filter_all; [reflexivity|]. apply Forall_forall. exact Hall.
Qed.

End Completeness.

Section EmptyQuery.

Import Spec.

Context (foreign : RegExp.engine).

Lemma toLowerCase_length (s : string) : String.length (toLowerCase s) = String.length s.
Proof. induction s as [|c s IH]; simpl; congruence. Qed.

Lemma rule_score_empty (t c : string) (r : Rules.Rule) :
  rule_score EmptyString t c r
  = 120 + 40 * length (Rules.tags r) + 15 * String.length c
    + 10 * length (Rules.examples r).
Proof.
  unfold rule_score, tag_matches. rewrite !includes_nil, occurrences_empty_query.
  rewrite toLowerCase_length.
  rewrite (filter_all _ (Rules.tags r))
    by (intros tag _; rewrite includes_nil; exact I).
  rewrite (filter_all _ (Rules.examples r))
    by (intros e _; rewrite includes_nil; exact I).
  simpl. lia.
Qed.

Lemma memory_score_empty (t c k : string) (m : Memory.MemoryEntry) :
  memory_score EmptyString t c k m
  = 120 + 30 * length (Memory.tags m) + 20 * String.length c.
Proof.
  unfold memory_score, tag_matches. rewrite !includes_nil, occurrences_empty_query.
  rewrite toLowerCase_length.
  rewrite (filter_all _ (Memory.tags m))
    by (intros tag _; rewrite includes_nil; exact I).
  simpl. lia.
Qed.

Lemma rule_scored_empty (r : Rules.Rule) (t c : string) :
  Rules.title r = Some t -> Rules.content r = Some c ->
  Rules.calculateSimilarity foreign EmptyString r
  = Return (120 + 40 * length (Rules.tags r) + 15 * String.length c
            + 10 * length (Rules.examples r)).
Proof.
  intros Ht Hc. rewrite (rule_score_safe foreign EmptyString r t c eq_refl Ht Hc).
  f_equal. apply rule_score_empty.
Qed.

Lemma memory_scored_empty (m : Memory.MemoryEntry) (t c k : string) :
  Memory.title m = Some t -> Memory.content m = Some c -> Memory.category m = Some k ->
  Memory.calculateSimilarity foreign EmptyString m
  = Return (120 + 30 * length (Memory.tags m) + 20 * String.length c).
Proof.
  intros Ht Hc Hk.
  rewrite (memory_score_safe foreign EmptyString m t c k eq_refl Ht Hc Hk).
  f_equal. apply memory_score_empty.
Qed.

End EmptyQuery.

(** X15: with a limit that is not below the number of records passing the
    filters, a search misses nothing: every record that passes the
    filters and has a positive score is among the results, with that
    score. *)
Theorem large_limit_returns_every_match (foreign : RegExp.engine) :
  (forall (this : Rules.Server) (args : Rules.SearchArgs)
          (results : list Rules.SearchResult) (r : Rules.Rule) (score : nat),
      Rules.searchRules foreign this args = Return results ->
      (Z.of_nat (length (Rules.filteredRules this args)) <= default 5 (Rules.limit args))%Z ->
      r ∈ Rules.filteredRules this args ->
      Rules.calculateSimilarity foreign (Rules.query args) r = Return score ->
      0 < score ->
      Rules.mkResult r score ∈ results)
  /\ (forall (memories passed : list Memory.MemoryEntry) (args : Memory.SearchArgs)
             (results : list Memory.SearchResult) (m : Memory.MemoryEntry) (score : nat),
      Memory.searchMemories foreign memories args = Return results ->
      Memory.filteredMemories memories args = Return passed ->
      (Z.of_nat (length passed) <= default 5 (Memory.limit args))%Z ->
      m ∈ passed ->
      Memory.calculateSimilarity foreign (Memory.query args) m = Return score ->
      0 < score ->
      exists res, res ∈ results /\ Memory.entry res = m /\ Memory.similarity res = score).
Proof.
  split.
  - intros this args results r score H Hlen Hin Hs Hpos.
    apply (searchRules_Return foreign) in H as (scored & Hscored & ->).
    apply list_elem_of_lookup_1 in Hin as [i Hi].
    destruct (Forall2_lookup_l _ _ _ _ _ Hscored Hi) as (y & Hy & Hr & Hsy).
    rewrite Hs in Hsy. injection Hsy as Hsy.
    assert (Heq : y = Rules.mkResult r score).
    { destruct y as [r' s']. simpl in Hr, Hsy. subst. reflexivity. }
    subst y.
    apply (rank_complete Rules.similarity); [|eapply list_elem_of_lookup_2, Hy|exact Hpos].
    rewrite <- (Forall2_length _ _ _ Hscored). exact Hlen.
  - intros memories passed args results m score H Hp Hlen Hin Hs Hpos.
    apply (searchMemories_Return foreign) in H as (passed' & scored & Hp' & Hscored & ->).
    rewrite Hp in Hp'. injection Hp' as <-.
    apply list_elem_of_lookup_1 in Hin as [i Hi].
    destruct (Forall2_lookup_l _ _ _ _ _ Hscored Hi) as (y & Hy & Hr & Hsy).
    rewrite Hs in Hsy. injection Hsy as Hsy.
    exists y. split; [|split; [exact Hr|symmetry; exact Hsy]].
    apply (rank_complete Memory.similarity);
      [|eapply list_elem_of_lookup_2, Hy|rewrite <- Hsy; exact Hpos].
    rewrite <- (Forall2_length _ _ _ Hscored). exact Hlen.
Qed.

Lemma large_limit_returns_every_match_witness :
  exists results,
    Rules.searchRules strict store_search (search_git (Some 4%Z)) = Return results
    /\ Rules.mkResult rule_hooks 15 ∈ results.
Proof.
  eexists. split; [reflexivity|].
  apply (proj1 (large_limit_returns_every_match strict) store_search
           (search_git (Some 4%Z)) _ rule_hooks 15 eq_refl).
  - vm_compute. discriminate.
  - apply (list_elem_of_lookup_2 _ 0). reflexivity.
  - reflexivity.
  - lia.
Defined.

(** X16: the empty query matches every record. Its score is 120 plus 40
    (rule) or 30 (memory) a tag, 15 (rule) or 20 (memory) a character of
    the content and, for a rule, 10 an example: never zero. So a search
    on the empty query returns, of the records that pass the filters, as
    many as the limit allows, provided all of them have the fields that
    the score reads. *)
Theorem empty_query_matches_every_record (foreign : RegExp.engine) :
  (forall (r : Rules.Rule) (t c : string),
      Rules.title r = Some t -> Rules.content r = Some c ->
      Rules.calculateSimilarity foreign EmptyString r
      = Return (120 + 40 * length (Rules.tags r) + 15 * String.length c
                + 10 * length (Rules.examples r)))
  /\ (forall (m : Memory.MemoryEntry) (t c k : string),
      Memory.title m = Some t -> Memory.content m = Some c ->
      Memory.category m = Some k ->
      Memory.calculateSimilarity foreign EmptyString m
      = Return (120 + 30 * length (Memory.tags m) + 20 * String.length c))
  /\ (forall (this : Rules.Server) (args : Rules.SearchArgs),
      Rules.query args = EmptyString ->
      Forall (fun r => is_Some (Rules.title r) /\ is_Some (Rules.content r))
             (Rules.filteredRules this args) ->
      (0 <= default 5 (Rules.limit args))%Z ->
      exists results,
        Rules.searchRules foreign this args = Return results
        /\ length results
           = Nat.min (Z.to_nat (default 5%Z (Rules.limit args)))
                     (length (Rules.filteredRules this args)))
  /\ (forall (memories passed : list Memory.MemoryEntry) (args : Memory.SearchArgs),
      Memory.query args = EmptyString ->
      Memory.filteredMemories memories args = Return passed ->
      Forall (fun m => is_Some (Memory.title m) /\ is_Some (Memory.content m)
                       /\ is_Some (Memory.category m)) passed ->
      (0 <= default 5 (Memory.limit args))%Z ->
      exists results,
        Memory.searchMemories foreign memories args = Return results
        /\ length results
           = Nat.min (Z.to_nat (default 5%Z (Memory.limit args))) (length passed)).
Proof.
  split; [exact (rule_scored_empty foreign)|].
  split; [exact (memory_scored_empty foreign)|]. split.
  - intros this args Hq Hwf Hlim.
    destruct (searchRules_returns foreign this args) as [results Hres].
    { rewrite Hq. eexists. apply (compile_safe foreign EmptyString eq_refl). }
    { exact Hwf. }
    exists results. split; [exact Hres|].
    apply (searchRules_Return foreign) in Hres as (scored & Hscored & ->).
    rewrite (rank_length_all Rules.similarity) by
      (try exact Hlim; apply Forall_forall; intros y Hy;
       apply list_elem_of_lookup_1 in Hy as [i Hi];
       destruct (Forall2_lookup_r _ _ _ _ _ Hscored Hi) as (r & Hr & _ & Hs);
       apply list_elem_of_lookup_2 in Hr;
       destruct (proj1 (Forall_forall _ _) Hwf r Hr) as [[t Ht] [c Hc]];
       rewrite Hq, (rule_scored_empty foreign r t c Ht Hc) in Hs;
       injection Hs as <-; lia).
    rewrite (Forall2_length _ _ _ Hscored). reflexivity.
  - intros memories passed args Hq Hp Hwf Hlim.
    assert (Hscores : Forall (fun m => exists y,
                         Memory.score_entry foreign (Memory.query args) m = Return y)
                        passed).
    { eapply Forall_impl; [exact Hwf|]. intros m ([t Ht] & [c Hc] & [k Hk]).
      unfold Memory.score_entry.
      rewrite Hq, (memory_scored_empty foreign m t c k Ht Hc Hk). eexists; reflexivity. }
    destruct (map_completion_total _ _ Hscores) as [scored0 Hs0].
    assert (Hres : exists results, Memory.searchMemories foreign memories args
                                   = Return results).
    { unfold Memory.searchMemories. rewrite Hp. cbn [mbind completion_bind cbind].
      rewrite Hs0. eexists; reflexivity. }
    destruct Hres as [results Hres]. exists results. split; [exact Hres|].
    apply (searchMemories_Return foreign) in Hres
      as (passed' & scored & Hp' & Hscored & ->).
    rewrite Hp in Hp'. injection Hp' as <-.
    rewrite (rank_length_all Memory.similarity) by
      (try exact Hlim; apply Forall_forall; intros y Hy;
       apply list_elem_of_lookup_1 in Hy as [i Hi];
       destruct (Forall2_lookup_r _ _ _ _ _ Hscored Hi) as (m & Hm & _ & Hs);
       apply list_elem_of_lookup_2 in Hm;
       destruct (proj1 (Forall_forall _ _) Hwf m Hm) as ([t Ht] & [c Hc] & [k Hk]);
       rewrite Hq, (memory_scored_empty foreign m t c k Ht Hc Hk) in Hs;
       injection Hs as <-; lia).
    rewrite (Forall2_length _ _ _ Hscored). reflexivity.
Qed.

Lemma empty_query_matches_every_record_witness :
  Rules.calculateSimilarity strict EmptyString rule_ab = Return 150
  /\ exists results,
      Rules.searchRules strict store_search (Rules.mkSearchArgs EmptyString None None
                                               (Some 3%Z)) = Return results
      /\ length results = 3.
Proof.
  destruct (empty_query_matches_every_record strict) as (Hr & _ & Hs & _). split.
  - rewrite (Hr rule_ab "Naming" "ab" eq_refl eq_refl). reflexivity.
  - destruct (Hs store_search (Rules.mkSearchArgs EmptyString None None (Some 3%Z)) eq_refl)
      as (results & Hres & Hlen).
    + repeat constructor; eexists; reflexivity.
    + simpl. lia.
    + exists results. split; [exact Hres|]. rewrite Hlen. reflexivity.
Defined.
(** ** The figures of the memory statistics *)

Section Statistics.

Import MemoryStats.

Context {A : Type} `{EqDecision A}.

Lemma from_set_spec (seen xs : list A) :
  NoDup (from_set seen xs)
  /\ forall x, x ∈ from_set seen xs <-> x ∈ xs /\ x ∉ seen.
Proof.
  revert seen. induction xs as [|y xs IH]; intros seen; simpl.
  - split; [constructor|]. intros x. split; [intros H; inversion H|intros [H _]; inversion H].
  - case_bool_decide as Hy.
    + destruct (IH seen) as [Hnd Hin]. split; [exact Hnd|].
      intros x. rewrite Hin, elem_of_cons. split; [tauto|].
      intros [[->|Hx] Hn]; [contradiction|auto].
    + destruct (IH (y :: seen)) as [Hnd Hin]. split.
      * apply NoDup_cons. split; [|exact Hnd].
        rewrite Hin. intros [_ Hn]. apply Hn. constructor.
      * intros x. rewrite !elem_of_cons, Hin, elem_of_cons.
        destruct (decide (x = y)) as [->|Hne]; [tauto|]. tauto.
Qed.

Lemma unique_NoDup (xs : list A) : NoDup (unique xs).
Proof. apply from_set_spec. Qed.

Lemma elem_of_unique (xs : list A) (x : A) : x ∈ unique xs <-> x ∈ xs.
Proof.
  unfold unique. rewrite (proj2 (from_set_spec [] xs)). split; [tauto|].
  intros H. split; [exact H|]. intros Hn. inversion Hn.
Qed.

(** Each element counts for exactly one of a list of distinct keys that
    has its key. *)
Lemma count_by_key {B} (f : B -> A) (keys : list A) (l : list B) :
  NoDup keys -> (forall x, x ∈ l -> f x ∈ keys) ->
  sum_list ((fun k => length (filter (fun x => f x = k) l)) <$> keys) = length l.
Proof.
  intros Hnd. induction l as [|x l IH]; intros Hcov.
  - clear Hnd Hcov. induction keys as [|k keys IHk]; [reflexivity|exact IHk].
  - assert (Hx : f x ∈ keys) by (apply Hcov; constructor).
    assert (IH' : sum_list ((fun k => length (filter (fun x => f x = k) l)) <$> keys)
                  = length l).
    { apply IH. intros y Hy. apply Hcov. constructor. exact Hy. }
    simpl. rewrite <- IH'. clear IH IH' Hcov.
    induction keys as [|k keys IHk]; [inversion Hx|].
    apply NoDup_cons in Hnd as [Hk Hnd].
    rewrite !fmap_cons. simpl sum_list. rewrite filter_cons.
    destruct (decide (f x = k)) as [Heq|Hne].
    + assert (Hrest : (fun k0 => length (filter (fun y => f y = k0) (x :: l))) <$> keys
                      = (fun k0 => length (filter (fun y => f y = k0) l)) <$> keys).
      { apply list_fmap_ext. intros i k' Hk'.
        rewrite filter_cons_False; [reflexivity|].
        intros Heq'. apply Hk. rewrite <- Heq, Heq'. eapply list_elem_of_lookup_2, Hk'. }
      rewrite Hrest. simpl. lia.
    + apply elem_of_cons in Hx as [Hx|Hx]; [contradiction|].
      rewrite (IHk Hnd Hx). lia.
Qed.

Lemma count_positive {B} (f : B -> A) (l : list B) (k : A) :
  k ∈ f <$> l -> 0 < length (filter (fun x => f x = k) l).
Proof.
  intros Hin. apply list_elem_of_fmap in Hin as (x & -> & Hx).
  assert (Hf : x ∈ filter (fun y => f y = f x) l) by (apply list_elem_of_filter; auto).
  destruct (filter _ l); [inversion Hf|simpl; lia].
Qed.

End Statistics.

(** X17: the figures of [getMemoryStats] add up. The projects listed are
    the projects of the memories, each once; each is counted with the
    number of memories of exactly that project, which is not zero; and
    the counts add up to the number of memories. The same holds of the
    categories, and the tags listed are the tags of the memories, each
    once. A memory stored without project or category is counted under
    [undefined]. *)
Theorem memory_statistics_add_up (memories : list Memory.MemoryEntry) :
  NoDup (MemoryStats.projects memories)
  /\ (forall p, p ∈ MemoryStats.projects memories <-> p ∈ Memory.project <$> memories)
  /\ (MemoryStats.projectCounts memories).*1 = MemoryStats.projects memories
  /\ Forall (fun pc => pc.2 = length (filter (fun m => Memory.project m = pc.1) memories)
                       /\ 0 < pc.2)
            (MemoryStats.projectCounts memories)
  /\ sum_list (MemoryStats.projectCounts memories).*2 = length memories
  /\ NoDup (MemoryStats.categories memories)
  /\ (forall c, c ∈ MemoryStats.categories memories <-> c ∈ Memory.category <$> memories)
  /\ sum_list (MemoryStats.categoryCounts memories).*2 = length memories
  /\ NoDup (MemoryStats.allTags memories)
  /\ (forall t, t ∈ MemoryStats.allTags memories
                <-> exists m, m ∈ memories /\ t ∈ Memory.tags m).
Proof.
  unfold MemoryStats.projects, MemoryStats.categories, MemoryStats.allTags,
    MemoryStats.projectCounts, MemoryStats.categoryCounts.
  split; [apply unique_NoDup|]. split; [intros p; apply elem_of_unique|].
  split; [rewrite <- list_fmap_compose; apply list_fmap_id|].
  split.
  { apply Forall_forall. intros pc Hpc.
    apply list_elem_of_fmap in Hpc as (p & -> & Hp). split; [reflexivity|].
    apply (count_positive Memory.project). apply (proj1 (elem_of_unique _ _) Hp). }
  split.
  { rewrite <- list_fmap_compose.
    apply (count_by_key Memory.project); [apply unique_NoDup|].
    intros m Hm. apply elem_of_unique, list_elem_of_fmap. exists m. auto. }
  split; [apply unique_NoDup|]. split; [intros c; apply elem_of_unique|].
  split.
  { rewrite <- list_fmap_compose.
    apply (count_by_key Memory.category); [apply unique_NoDup|].
    intros m Hm. apply elem_of_unique, list_elem_of_fmap. exists m. auto. }
  split; [apply unique_NoDup|].
  intros t. rewrite elem_of_unique, list_elem_of_bind. split.
  - intros (m & Ht & Hm). exists m. auto.
  - intros (m & Hm & Ht). exists m. auto.
Qed.
